(** * visonBackEnd: the OneDrive image analysis relay (main.py)

    A shallow embedding of [main.py] and of the parts of the Python runtime
    it calls ([str] methods, [json.loads], [json.dumps], [str()], the
    response model's validation), followed by the properties of the
    authenticator, the MIME guesser, the response normaliser and the
    endpoint handler. *)

From Stdlib Require Import String Ascii List NArith ZArith Bool Lia.
Import ListNotations.

Set Implicit Arguments.

Local Open Scope N_scope.

(* ================================================================== *)
(** * Python strings *)
(* ================================================================== *)

(** A Python [str] is a sequence of Unicode code points. *)
Definition str := list N.

(** ASCII literals of the source, as code point sequences. *)
Definition lit (s : string) : str :=
  List.map N_of_ascii (list_ascii_of_string s).

Fixpoint str_eqb (a b : str) : bool :=
  match a, b with
  | [], [] => true
  | x :: a', y :: b' => N.eqb x y && str_eqb a' b'
  | _, _ => false
  end.

(** [str.isspace] on one code point: the white space that [str.strip()]
    removes (CPython's [_Py_ascii_whitespace] and [_PyUnicode_IsWhitespace]). *)
Definition isspace (c : N) : bool :=
  ((0x09 <=? c) && (c <=? 0x0D)) || ((0x1C <=? c) && (c <=? 0x20))
  || (c =? 0x85) || (c =? 0xA0) || (c =? 0x1680)
  || ((0x2000 <=? c) && (c <=? 0x200A))
  || (c =? 0x2028) || (c =? 0x2029) || (c =? 0x202F)
  || (c =? 0x205F) || (c =? 0x3000).

Fixpoint dropwhile (p : N -> bool) (s : str) : str :=
  match s with
  | [] => []
  | c :: s' => if p c then dropwhile p s' else s
  end.

Definition lstrip (s : str) : str := dropwhile isspace s.
Definition rstrip (s : str) : str := rev (dropwhile isspace (rev s)).

(** [s.strip()] *)
Definition strip (s : str) : str := rstrip (lstrip s).

Fixpoint startswith (s pre : str) {struct pre} : bool :=
  match pre, s with
  | [], _ => true
  | p :: pre', c :: s' => N.eqb c p && startswith s' pre'
  | _ :: _, [] => false
  end.

(** [s.endswith(suf)]: the last [len(suf)] code points of [s] are [suf]. *)
Definition endswith (s suf : str) : bool :=
  str_eqb (skipn (length s - length suf)%nat s) suf.

Fixpoint find_from (i : Z) (s sub : str) : Z :=
  if startswith s sub then i
  else match s with
       | [] => (-1)%Z
       | _ :: s' => find_from (i + 1)%Z s' sub
       end.

(** [s.find(sub)]: the lowest index where [sub] occurs, or [-1]. *)
Definition find (s sub : str) : Z := find_from 0%Z s sub.

Fixpoint rfind_from (i : Z) (s sub : str) : Z :=
  match s with
  | [] => if startswith s sub then i else (-1)%Z
  | _ :: s' =>
      let r := rfind_from (i + 1)%Z s' sub in
      if (r =? -1)%Z then (if startswith s sub then i else (-1)%Z) else r
  end.

(** [s.rfind(sub)]: the highest index where [sub] occurs, or [-1]. *)
Definition rfind (s sub : str) : Z := rfind_from 0%Z s sub.

(** One bound of a slice: negative bounds count from the end, and the
    result is clamped to [0, len]. *)
Definition slice_bound (len i : Z) : nat :=
  let j := if (i <? 0)%Z then (i + len)%Z else i in
  Z.to_nat (Z.min len (Z.max 0 j)).

(** [s[lo:hi]] *)
Definition slice (s : str) (lo hi : Z) : str :=
  let len := Z.of_nat (length s) in
  let a := slice_bound len lo in
  let b := slice_bound len hi in
  firstn (b - a)%nat (skipn a s).

(** [sep.join(parts)] *)
Fixpoint join (sep : str) (parts : list str) : str :=
  match parts with
  | [] => []
  | [p] => p
  | p :: rest => p ++ sep ++ join sep rest
  end.

(** Decimal digits of a natural number, most significant first. *)
Fixpoint digits_fuel (fuel : nat) (n : N) (acc : str) : str :=
  match fuel with
  | O => acc
  | S f =>
      let acc' := (48 + n mod 10)%N :: acc in
      if (n / 10 =? 0)%N then acc' else digits_fuel f (n / 10)%N acc'
  end.

Definition str_of_N (n : N) : str :=
  digits_fuel (S (N.to_nat (N.log2 n))) n [].

(** [str(z)] for an [int]. *)
Definition str_of_Z (z : Z) : str :=
  match z with
  | Zneg p => 45%N :: str_of_N (Npos p)
  | _ => str_of_N (Z.to_N z)
  end.

Definition hex_digit (n : N) : N :=
  if (n <? 10)%N then (48 + n)%N else (87 + n)%N.

(** [width] lower-case hexadecimal digits of [n]. *)
Fixpoint hex_fixed (width : nat) (n : N) : str :=
  match width with
  | O => []
  | S w => hex_fixed w (n / 16)%N ++ [hex_digit (n mod 16)%N]
  end.

(* ================================================================== *)
(** * Python values and the runtime environment *)
(* ================================================================== *)

(** The values [json.loads] builds.  A [float] is kept as the text it was
    converted from: [PFloat x] stands for [float(x)]. A [dict] keeps its
    keys in insertion order and holds each key once. *)
#[warnings="-register-all"]
Inductive pyval : Type :=
| PNone
| PBool (b : bool)
| PInt (z : Z)
| PFloat (lexeme : str)
| PStr (s : str)
| PList (l : list pyval)
| PDict (d : list (str * pyval)).

(** The release of the response-model library.  Both share the API that
    [main.py] uses and differ in how strictly a list element is checked. *)
Inductive pydantic_version := PydanticV1 | PydanticV2.

(** Code points below 128 outside [i] and [k]: no code point above 127
    lower-cases to one of them. *)
Definition plain_ascii (d : N) : Prop :=
  (d < 128)%N /\ d <> 105%N /\ d <> 107%N.

(** What the embedding takes from the interpreter and its libraries
    rather than defining: the Unicode tables beyond ASCII, the conversion
    of floats and the installed release of pydantic. *)
Class PyEnv := {
  (** the full lower-case mapping of the code point [c >= 128] found at
      index [i] of [s] (the index matters for U+03A3 alone) *)
  lower_nonascii : str -> nat -> N -> str;
  lower_nonascii_spec : forall s i c, (128 <= c)%N ->
    lower_nonascii s i c <> [] /\
    Forall (fun d => ~ plain_ascii d) (lower_nonascii s i c);
  (** [chr(c).isprintable()] for [c >= 128] *)
  isprintable_nonascii : N -> bool;
  (** [repr(float(x))] *)
  float_repr : str -> str;
  (** [bool(float(x))] *)
  float_bool : str -> bool;
  pydantic : pydantic_version
}.


Section Runtime.
Context {env : PyEnv}.

(** ** [str.lower()] *)

Definition ascii_lower (c : N) : N :=
  if (65 <=? c) && (c <=? 90) then c + 32 else c.

(** The lower case of the code points [rest] that start at index [i] of
    [s]. *)
Fixpoint lower_from (s : str) (i : nat) (rest : str) : str :=
  match rest with
  | [] => []
  | c :: rest' =>
      (if c <? 128 then [ascii_lower c] else lower_nonascii s i c)
      ++ lower_from s (S i) rest'
  end.

(** [s.lower()] *)
Definition lower (s : str) : str := lower_from s 0 s.

(** ** [dict] *)

(** [d.get(key)], [None] when the key is absent. *)
Fixpoint dict_lookup (d : list (str * pyval)) (key : str) : option pyval :=
  match d with
  | [] => None
  | (k, v) :: d' => if str_eqb k key then Some v else dict_lookup d' key
  end.

(** [d.get(key, default)] *)
Definition dict_get (d : list (str * pyval)) (key : str) (default : pyval)
  : pyval :=
  match dict_lookup d key with
  | Some v => v
  | None => default
  end.

(** [d[key] = v]: an existing key keeps its place. *)
Fixpoint dict_set (d : list (str * pyval)) (key : str) (v : pyval)
  : list (str * pyval) :=
  match d with
  | [] => [(key, v)]
  | (k, w) :: d' =>
      if str_eqb k key then (k, v) :: d' else (k, w) :: dict_set d' key v
  end.

(** [dict(pairs)] *)
Definition dict_of_pairs (pairs : list (str * pyval)) : list (str * pyval) :=
  fold_left (fun d kv => dict_set d (fst kv) (snd kv)) pairs [].

(** ** [repr()] and [str()] *)

Definition isprintable (c : N) : bool :=
  if c <? 128 then (32 <=? c) && (c <? 127) else isprintable_nonascii c.

(** One code point of [repr(s)], inside the quote [q]. *)
Definition repr_char (q c : N) : str :=
  if (c =? q) || (c =? 92) then [92; c]
  else if c =? 9 then lit "\t"
  else if c =? 10 then lit "\n"
  else if c =? 13 then lit "\r"
  else if (c <? 32) || (c =? 127) then lit "\x" ++ hex_fixed 2 c
  else if c <? 127 then [c]
  else if isprintable c then [c]
  else if c <=? 255 then lit "\x" ++ hex_fixed 2 c
  else if c <=? 65535 then lit "\u" ++ hex_fixed 4 c
  else lit "\U" ++ hex_fixed 8 c.

(** [repr(s)] for a [str]: double quotes when [s] has a single quote and
    no double quote, single quotes otherwise. *)
Definition repr_str (s : str) : str :=
  let q := if existsb (N.eqb 39) s && negb (existsb (N.eqb 34) s)
           then 34 else 39 in
  q :: flat_map (repr_char q) s ++ [q].

Fixpoint py_repr (v : pyval) : str :=
  match v with
  | PNone => lit "None"
  | PBool true => lit "True"
  | PBool false => lit "False"
  | PInt z => str_of_Z z
  | PFloat x => float_repr x
  | PStr s => repr_str s
  | PList l => lit "[" ++ join (lit ", ") (List.map py_repr l) ++ lit "]"
  | PDict d =>
      lit "{"
      ++ join (lit ", ")
           (List.map (fun kv => repr_str (fst kv) ++ lit ": " ++ py_repr (snd kv)) d)
      ++ lit "}"
  end.

(** [str(v)] *)
Definition py_str (v : pyval) : str :=
  match v with
  | PStr s => s
  | _ => py_repr v
  end.

(** [bool(v)]: the truth value that [or] and [if] test. *)
Definition py_bool (v : pyval) : bool :=
  match v with
  | PNone => false
  | PBool b => b
  | PInt z => negb (z =? 0)%Z
  | PFloat x => float_bool x
  | PStr s => negb (str_eqb s [])
  | PList l => match l with [] => false | _ => true end
  | PDict d => match d with [] => false | _ => true end
  end.

(** [a or b] *)
Definition py_or (a b : pyval) : pyval := if py_bool a then a else b.

End Runtime.

(* ================================================================== *)
(** * [json.loads] *)
(* ================================================================== *)

(** The decoder follows CPython's [json.decoder] and [json.scanner]
    (strict mode, no hooks).  A position in the text is kept as the text
    that remains after it.  Two limits of the interpreter lie outside the
    model: the recursion limit (on text nested some thousand levels deep)
    and the limit on the digits of an [int] literal.  Past either of
    them [json.loads] raises ([RecursionError], [ValueError]) on a text
    that [json_loads] decodes; [decoder], further down, says what a
    decoder with such limits has in common with [json_loads]. *)

Inductive scan (A : Type) : Type :=
| Scanned (a : A) (rest : str)  (** a value, and the text after it *)
| Malformed                     (** [JSONDecodeError] *)
| Exhausted.                    (** the fuel ran out *)

Arguments Malformed {A}.
Arguments Exhausted {A}.

(** [json.decoder.WHITESPACE]: space, tab, line feed, carriage return. *)
Definition json_ws (c : N) : bool :=
  (c =? 32) || (c =? 9) || (c =? 10) || (c =? 13).

Definition skip_ws (s : str) : str := dropwhile json_ws s.

Definition hex_value (c : N) : option N :=
  if (48 <=? c) && (c <=? 57) then Some (c - 48)
  else if (97 <=? c) && (c <=? 102) then Some (c - 87)
  else if (65 <=? c) && (c <=? 70) then Some (c - 55)
  else None.

(** [json.decoder.BACKSLASH] *)
Definition backslash (e : N) : option N :=
  if e =? 34 then Some 34          (* quote *)
  else if e =? 92 then Some 92     (* backslash *)
  else if e =? 47 then Some 47     (* slash *)
  else if e =? 98 then Some 8      (* b *)
  else if e =? 102 then Some 12    (* f *)
  else if e =? 110 then Some 10    (* n *)
  else if e =? 114 then Some 13    (* r *)
  else if e =? 116 then Some 9     (* t *)
  else None.

Definition is_high_surrogate (u : N) : bool := (0xD800 <=? u) && (u <=? 0xDBFF).
Definition is_low_surrogate (u : N) : bool := (0xDC00 <=? u) && (u <=? 0xDFFF).

Definition join_surrogates (hi lo : N) : N :=
  0x10000 + (N.lor (N.shiftl (hi - 0xD800) 10) (lo - 0xDC00)).

(** Where [scanstring] stands inside a string literal.  A [\uXXXX]
    escape that gives a high surrogate waits for a following low
    surrogate: the two are joined, anything else leaves the high
    surrogate on its own and is read afresh. *)
Inductive string_state : Type :=
| Plain                              (** outside an escape *)
| Escape                             (** after a backslash *)
| Hex (togo : nat) (u : N)           (** in the digits of [\uXXXX] *)
| High (hi : N)                      (** after a high surrogate *)
| HighEscape (hi : N)                (** ... and a backslash *)
| HighHex (hi : N) (togo : nat) (u : N). (** ... and [\u] *)

Inductive string_step : Type :=
| Continue (st : string_state) (acc : str)
| Finish (x : str)
| Reject.

(** After a [\uXXXX] escape of value [u]. *)
Definition escaped (u : N) (acc : str) : string_step :=
  if is_high_surrogate u then Continue (High u) acc
  else Continue Plain (u :: acc).

Definition plain_step (acc : str) (c : N) : string_step :=
  if c =? 34 then Finish (rev acc)
  else if c =? 92 then Continue Escape acc
  else if c <? 32 then Reject                 (* invalid control character *)
  else Continue Plain (c :: acc).

Definition escape_step (acc : str) (e : N) : string_step :=
  if e =? 117 then Continue (Hex 4 0) acc
  else match backslash e with
       | Some x => Continue Plain (x :: acc)
       | None => Reject                       (* invalid \escape *)
       end.

(** One code point of a string literal; [acc] holds the decoded code
    points, last first. *)
Definition scan_step (st : string_state) (acc : str) (c : N) : string_step :=
  match st with
  | Plain => plain_step acc c
  | Escape => escape_step acc c
  | Hex togo u =>
      match hex_value c, togo with
      | Some d, 1%nat => escaped (16 * u + d) acc
      | Some d, S k => Continue (Hex k (16 * u + d)) acc
      | _, _ => Reject                        (* invalid \uXXXX escape *)
      end
  | High hi =>
      if c =? 92 then Continue (HighEscape hi) acc
      else plain_step (hi :: acc) c
  | HighEscape hi =>
      if c =? 117 then Continue (HighHex hi 4 0) acc
      else escape_step (hi :: acc) c
  | HighHex hi togo u =>
      match hex_value c, togo with
      | Some d, 1%nat =>
          let lo := 16 * u + d in
          if is_low_surrogate lo
          then Continue Plain (join_surrogates hi lo :: acc)
          else escaped lo (hi :: acc)
      | Some d, S k => Continue (HighHex hi k (16 * u + d)) acc
      | _, _ => Reject                        (* invalid \uXXXX escape *)
      end
  end.

Fixpoint scan_chars (st : string_state) (s : str) (acc : str)
  : option (str * str) :=
  match s with
  | [] => None                                (* unterminated string *)
  | c :: s' =>
      match scan_step st acc c with
      | Continue st' acc' => scan_chars st' s' acc'
      | Finish x => Some (x, s')
      | Reject => None
      end
  end.

(** [scanstring(s, end, strict=True)], entered after the opening quote:
    the decoded string and the text after the closing quote. *)
Definition scanstring (s : str) (acc : str) : option (str * str) :=
  scan_chars Plain s acc.

Definition is_digit (c : N) : bool := (48 <=? c) && (c <=? 57).

(** The longest run of decimal digits at the head of [s]. *)
Fixpoint span_digits (s : str) : str * str :=
  match s with
  | [] => ([], [])
  | c :: s' =>
      if is_digit c
      then let (ds, rest) := span_digits s' in (c :: ds, rest)
      else ([], s)
  end.

Definition N_of_digits (ds : str) : N :=
  fold_left (fun n c => 10 * n + (c - 48)) ds 0.

(** The integer part [0|[1-9][0-9]*] of [NUMBER_RE]. *)
Definition match_int_part (s : str) : option (str * str) :=
  match s with
  | [] => None
  | c :: s' =>
      if c =? 48 then Some ([c], s')
      else if is_digit c then Some (span_digits s)
      else None
  end.

(** The optional fraction [\.[0-9]+]: the matched text, empty when the
    group does not match. *)
Definition match_frac (s : str) : str * str :=
  match s with
  | c :: s' =>
      if c =? 46 then
        match span_digits s' with
        | ([], _) => ([], s)
        | (ds, rest) => (c :: ds, rest)
        end
      else ([], s)
  | [] => ([], s)
  end.

(** The optional exponent [[eE][-+]?[0-9]+]. *)
Definition match_exp (s : str) : str * str :=
  match s with
  | c :: s' =>
      if (c =? 101) || (c =? 69) then
        let (sign, s'') :=
          match s' with
          | d :: t => if (d =? 45) || (d =? 43) then ([d], t) else ([], s')
          | [] => ([], s')
          end in
        match span_digits s'' with
        | ([], _) => ([], s)
        | (ds, rest) => (c :: sign ++ ds, rest)
        end
      else ([], s)
  | [] => ([], s)
  end.

(** [match_number]: an [int] when neither fraction nor exponent is
    present, a [float] of the whole matched text otherwise. *)
Definition match_number (s : str) : option (pyval * str) :=
  let (neg, s0) :=
    match s with
    | c :: s' => if c =? 45 then (true, s') else (false, s)
    | [] => (false, s)
    end in
  match match_int_part s0 with
  | None => None
  | Some (ip, s1) =>
      let (frac, s2) := match_frac s1 in
      let (ex, s3) := match_exp s2 in
      match frac, ex with
      | [], [] =>
          let n := Z.of_N (N_of_digits ip) in
          Some (PInt (if neg then (- n)%Z else n), s3)
      | _, _ =>
          Some (PFloat ((if neg then [45] else []) ++ ip ++ frac ++ ex), s3)
      end
  end.

(** A literal of the scanner ([null], [true], [NaN], ...). *)
Definition scan_literal (word : string) (v : pyval) (s : str)
  : option (pyval * str) :=
  if startswith s (lit word)
  then Some (v, skipn (List.length (lit word)) s)
  else None.

Definition scan_of_option {A : Type} (o : option (A * str)) : scan A :=
  match o with
  | Some (a, rest) => Scanned a rest
  | None => Malformed
  end.

(** [scan_once], [JSONObject] and [JSONArray].  [object_members] is the
    loop of [JSONObject], entered after the opening quote of a key;
    [array_items] is the loop of [JSONArray], entered at a value. *)
Fixpoint scan_once (fuel : nat) (s : str) : scan pyval :=
  match fuel with
  | O => Exhausted
  | S f =>
      match s with
      | [] => Malformed                           (* expecting value *)
      | c :: s1 =>
          if c =? 34 then
            match scanstring s1 [] with
            | Some (x, rest) => Scanned (PStr x) rest
            | None => Malformed
            end
          else if c =? 123 then
            match skip_ws s1 with
            | d :: s2 =>
                if d =? 125 then Scanned (PDict []) s2
                else if d =? 34 then object_members f s2 []
                else Malformed                    (* expecting property name *)
            | [] => Malformed
            end
          else if c =? 91 then
            match skip_ws s1 with
            | d :: s2 =>
                if d =? 93 then Scanned (PList []) s2
                else array_items f (d :: s2) []
            | [] => array_items f [] []
            end
          else if (c =? 110) && startswith s (lit "null") then
            scan_of_option (scan_literal "null" PNone s)
          else if (c =? 116) && startswith s (lit "true") then
            scan_of_option (scan_literal "true" (PBool true) s)
          else if (c =? 102) && startswith s (lit "false") then
            scan_of_option (scan_literal "false" (PBool false) s)
          else
            match match_number s with
            | Some (v, rest) => Scanned v rest
            | None =>
                if (c =? 78) && startswith s (lit "NaN") then
                  scan_of_option (scan_literal "NaN" (PFloat (lit "NaN")) s)
                else if (c =? 73) && startswith s (lit "Infinity") then
                  scan_of_option
                    (scan_literal "Infinity" (PFloat (lit "Infinity")) s)
                else if (c =? 45) && startswith s (lit "-Infinity") then
                  scan_of_option
                    (scan_literal "-Infinity" (PFloat (lit "-Infinity")) s)
                else Malformed                    (* expecting value *)
            end
      end
  end

with object_members (fuel : nat) (s : str) (pairs : list (str * pyval))
  : scan pyval :=
  match fuel with
  | O => Exhausted
  | S f =>
      match scanstring s [] with
      | None => Malformed
      | Some (key, s1) =>
          match skip_ws s1 with
          | c :: s2 =>
              if c =? 58 then
                match scan_once f (skip_ws s2) with
                | Scanned v s3 =>
                    let pairs' := pairs ++ [(key, v)] in
                    match skip_ws s3 with
                    | d :: s4 =>
                        if d =? 125 then
                          Scanned (PDict (dict_of_pairs pairs')) s4
                        else if d =? 44 then
                          match skip_ws s4 with
                          | q :: s5 =>
                              if q =? 34 then object_members f s5 pairs'
                              else Malformed      (* expecting property name *)
                          | [] => Malformed
                          end
                        else Malformed            (* expecting ',' delimiter *)
                    | [] => Malformed
                    end
                | Malformed => Malformed
                | Exhausted => Exhausted
                end
              else Malformed                      (* expecting ':' delimiter *)
          | [] => Malformed
          end
      end
  end

with array_items (fuel : nat) (s : str) (acc : list pyval) : scan pyval :=
  match fuel with
  | O => Exhausted
  | S f =>
      match scan_once f s with
      | Scanned v s1 =>
          let acc' := acc ++ [v] in
          match skip_ws s1 with
          | d :: s2 =>
              if d =? 93 then Scanned (PList acc') s2
              else if d =? 44 then array_items f (skip_ws s2) acc'
              else Malformed                      (* expecting ',' delimiter *)
          | [] => Malformed
          end
      | Malformed => Malformed
      | Exhausted => Exhausted
      end
  end.

(** Fuel that [scan_once] cannot use up on [s] (lemma [json_loads_fuel]
    below). *)
Definition json_fuel (s : str) : nat := (2 * List.length s + 2)%nat.

(** [json.loads(s)] for a [str]: the decoded value, or [None] where
    CPython raises [JSONDecodeError].  Like CPython it takes [NaN],
    [Infinity] and [-Infinity] for numbers and keeps the last of the
    values given for one key. *)
Definition json_loads (s : str) : option pyval :=
  if startswith s [0xFEFF] then None              (* unexpected UTF-8 BOM *)
  else
    match scan_once (json_fuel s) (skip_ws s) with
    | Scanned v rest =>
        match skip_ws rest with
        | [] => Some v
        | _ :: _ => None                          (* extra data *)
        end
    | Malformed => None
    | Exhausted => None
    end.

(* ================================================================== *)
(** * [json.dumps] and [base64.b64encode] *)
(* ================================================================== *)

(** One code point of a string under [ensure_ascii=True]
    ([json.encoder.ESCAPE_ASCII]). *)
Definition dumps_char (c : N) : str :=
  if c =? 34 then [92; 34]
  else if c =? 92 then [92; 92]
  else if c =? 10 then lit "\n"
  else if c =? 13 then lit "\r"
  else if c =? 9 then lit "\t"
  else if c =? 12 then lit "\f"
  else if c =? 8 then lit "\b"
  else if (32 <=? c) && (c <=? 126) then [c]
  else if c <? 0x10000 then lit "\u" ++ hex_fixed 4 c
  else
    let v := c - 0x10000 in
    lit "\u" ++ hex_fixed 4 (N.lor 0xD800 (N.land (N.shiftr v 10) 0x3FF))
    ++ lit "\u" ++ hex_fixed 4 (N.lor 0xDC00 (N.land v 0x3FF)).

Definition dumps_str (s : str) : str := [34] ++ flat_map dumps_char s ++ [34].

Section Dumps.
Context {env : PyEnv}.

(** A float under [allow_nan=True]. *)
Definition dumps_float (x : str) : str :=
  let r := float_repr x in
  if str_eqb r (lit "nan") then lit "NaN"
  else if str_eqb r (lit "inf") then lit "Infinity"
  else if str_eqb r (lit "-inf") then lit "-Infinity"
  else r.

(** [json.dumps(v)] with the default separators, for a value that
    [json.loads] built (every key of a [dict] is a [str]). *)
Fixpoint json_dumps (v : pyval) : str :=
  match v with
  | PNone => lit "null"
  | PBool true => lit "true"
  | PBool false => lit "false"
  | PInt z => str_of_Z z
  | PFloat x => dumps_float x
  | PStr s => dumps_str s
  | PList l => lit "[" ++ join (lit ", ") (List.map json_dumps l) ++ lit "]"
  | PDict d =>
      lit "{"
      ++ join (lit ", ")
           (List.map (fun kv => dumps_str (fst kv) ++ lit ": " ++ json_dumps (snd kv)) d)
      ++ lit "}"
  end.

End Dumps.

Definition b64_char (i : N) : N :=
  if i <? 26 then 65 + i
  else if i <? 52 then 97 + (i - 26)
  else if i <? 62 then 48 + (i - 52)
  else if i =? 62 then 43
  else 47.

(** [base64.b64encode(bs).decode("utf-8")]; a byte is a number below 256. *)
Fixpoint b64encode (bs : list N) : str :=
  match bs with
  | [] => []
  | [a] => [b64_char (a / 4); b64_char ((a mod 4) * 16); 61; 61]
  | [a; b] =>
      [b64_char (a / 4); b64_char ((a mod 4) * 16 + b / 16);
       b64_char ((b mod 16) * 4); 61]
  | a :: b :: c :: rest =>
      [b64_char (a / 4); b64_char ((a mod 4) * 16 + b / 16);
       b64_char ((b mod 16) * 4 + c / 64); b64_char (c mod 64)]
      ++ b64encode rest
  end.

(* ================================================================== *)
(** * The data model of [main.py] *)
(* ================================================================== *)

(** The three configuration values, read from the process environment
    when the module is loaded. *)
Record Config := {
  API_KEY : str;
  GEMINI_API_KEY : str;
  GEMINI_MODEL : str
}.

(** [os.getenv(name, default)] *)
Definition getenv (environ : str -> option str) (name : string) (default : str)
  : str :=
  match environ (lit name) with
  | Some v => v
  | None => default
  end.

(** Lines 10-12. *)
Definition load_config (environ : str -> option str) : Config := {|
  API_KEY := getenv environ "API_KEY" [];
  GEMINI_API_KEY := getenv environ "GEMINI_API_KEY" [];
  GEMINI_MODEL := getenv environ "GEMINI_MODEL" (lit "gemini-1.5-flash")
|}.

Record AnalyzeRequest := {
  downloadUrl : str;
  userQuery : str;
  itemId : option str;
  languageCode : option str;
  contextHint : option str
}.

Record AnalyzeResponse := {
  answer : str;
  imageSummary : option str;
  extractedText : option str;
  detectedLanguages : option (list str);
  safetyNotes : option str
}.

(** The inbound request, as far as the handler reads it:
    [req.headers.get("authorization")]. *)
Record Request := {
  authorization : option str
}.

(** An [httpx.Response]: [json_body] is what [.json()] returns, [None]
    when it raises. *)
Record Response := {
  status_code : Z;
  content : list N;
  text : str;
  json_body : option pyval
}.

(** What leaves the handler instead of a value.  FastAPI turns an
    [HTTPException] into a response with that status and detail, and any
    other exception into a bare 500. *)
Inductive exn : Type :=
| HTTPException (status : Z) (detail : str)
| AttributeError
| ValidationError
| JSONDecodeError
| TransportError.

Definition result (A : Type) : Type := (exn + A)%type.

(** A text that UTF-8 can carry: none of its code points is a
    surrogate. *)
Definition encodable (s : str) : bool :=
  forallb (fun c => negb (is_high_surrogate c || is_low_surrogate c)) s.

Definition encodable_field (o : option str) : bool :=
  match o with
  | Some s => encodable s
  | None => true
  end.

(** Whether the returned model can be written out.  FastAPI renders it
    as JSON and encodes the text in UTF-8; for a text that holds a
    surrogate code point the encoding raises [UnicodeEncodeError]. *)
Definition serialisable (r : AnalyzeResponse) : bool :=
  encodable (answer r)
  && encodable_field (imageSummary r)
  && encodable_field (extractedText r)
  && match detectedLanguages r with
     | Some ls => forallb encodable ls
     | None => true
     end
  && encodable_field (safetyNotes r).

(** The status the caller sees: 200 with the model the handler returned
    when it can be written out, the status of an [HTTPException], and a
    bare 500 for anything else that was raised, in the handler or while
    the model was written. *)
Definition caller_status (r : result AnalyzeResponse) : Z :=
  match r with
  | inr response => if serialisable response then 200 else 500
  | inl (HTTPException status _) => status
  | inl _ => 500
  end.

(** ** The response model's validation *)

Section Validation.
Context {env : PyEnv}.

(** A value offered for a [str]: release 1 also takes a number and
    prints it, release 2 takes a [str] only. *)
Definition validate_str (v : pyval) : option str :=
  match v, pydantic with
  | PStr s, _ => Some s
  | PInt _, PydanticV1 | PFloat _, PydanticV1 | PBool _, PydanticV1 =>
      Some (py_str v)
  | _, _ => None
  end.

(** A value offered for an [Optional[str]]. *)
Definition validate_optional_str (v : pyval) : option (option str) :=
  match v with
  | PNone => Some None
  | _ => option_map Some (validate_str v)
  end.

Fixpoint validate_all (l : list pyval) : option (list str) :=
  match l with
  | [] => Some []
  | v :: l' =>
      match validate_str v, validate_all l' with
      | Some s, Some ss => Some (s :: ss)
      | _, _ => None
      end
  end.

(** A value offered for an [Optional[list[str]]]. *)
Definition validate_optional_list (v : pyval) : option (option (list str)) :=
  match v with
  | PNone => Some None
  | PList l => option_map Some (validate_all l)
  | _ => None
  end.

(** [AnalyzeResponse(answer=..., imageSummary=..., ...)] *)
Definition new_AnalyzeResponse
  (answer imageSummary extractedText detectedLanguages safetyNotes : pyval)
  : result AnalyzeResponse :=
  match validate_str answer,
        validate_optional_str imageSummary,
        validate_optional_str extractedText,
        validate_optional_list detectedLanguages,
        validate_optional_str safetyNotes with
  | Some a, Some i, Some e, Some d, Some n =>
      inr {| answer := a; imageSummary := i; extractedText := e;
             detectedLanguages := d; safetyNotes := n |}
  | _, _, _, _, _ => inl ValidationError
  end.

End Validation.

(* ================================================================== *)
(** * Outbound calls *)
(* ================================================================== *)

(** What an outbound call does: it returns a response or raises (a
    timeout, a refused connection). *)
Inductive outcome : Type :=
| Returned (r : Response)
| Raised.

(** The two collaborators: the image host and the inference provider. *)
Record World := {
  http_get : str -> outcome;
  http_post : str -> pyval -> outcome
}.

(** The outbound calls a request makes, with what came back. *)
Inductive event : Type :=
| Get (url : str) (o : outcome)
| Post (url : str) (body : pyval) (o : outcome).

(** A computation of the handler: the calls made so far, and a value or
    the exception that ended it. *)
Definition M (A : Type) : Type := (list event * result A)%type.

Definition ret {A : Type} (a : A) : M A := ([], inr a).
Definition raise {A : Type} (e : exn) : M A := ([], inl e).

Definition bind {A B : Type} (m : M A) (k : A -> M B) : M B :=
  match m with
  | (tr, inl e) => (tr, inl e)
  | (tr, inr a) => let (tr', r) := k a in (tr ++ tr', r)
  end.

Notation "x <- m ;; k" := (bind m (fun x => k))
  (at level 61, m at next level, right associativity).
Notation "m ;;; k" := (bind m (fun _ => k))
  (at level 61, right associativity).

(** A pure step that may raise. *)
Definition lift {A : Type} (r : result A) : M A := ([], r).

Definition of_outcome (o : outcome) : result Response :=
  match o with
  | Returned r => inr r
  | Raised => inl TransportError
  end.

(** [await client.get(url)] *)
Definition client_get (w : World) (url : str) : M Response :=
  let o := http_get w url in ([Get url o], of_outcome o).

(** [await client.post(url, json=body)] *)
Definition client_post (w : World) (url : str) (body : pyval) : M Response :=
  let o := http_post w url body in ([Post url body o], of_outcome o).

(* ================================================================== *)
(** * [main.py] *)
(* ================================================================== *)

Section Main.
Context {env : PyEnv}.
Variable cfg : Config.

(** [_check_api_key(req)], lines 34-41. *)
Definition _check_api_key (req : Request) : result unit :=
  let auth := match authorization req with
              | Some h => h
              | None => []
              end in
  let expected := lit "Bearer " ++ API_KEY cfg in
  if negb (py_bool (PStr (API_KEY cfg))) then
    inl (HTTPException 500 (lit "Server API_KEY not configured"))
  else if negb (str_eqb (strip auth) expected) then
    inl (HTTPException 403 (lit "Forbidden"))
  else inr tt.

(** [_guess_mime(url)], lines 43-52. *)
Definition _guess_mime (url : str) : str :=
  let u := lower url in
  if endswith u (lit ".png") then lit "image/png"
  else if endswith u (lit ".jpg") || endswith u (lit ".jpeg") then
    lit "image/jpeg"
  else if endswith u (lit ".webp") then lit "image/webp"
  else lit "image/png".

(** The wrapper returned when no JSON is found, lines 78-84. *)
Definition fallback (raw_text : str) : pyval :=
  PDict [ (lit "answer", PStr raw_text);
          (lit "imageSummary", PStr []);
          (lit "extractedText", PStr []);
          (lit "detectedLanguages", PList []);
          (lit "safetyNotes",
           PStr (lit "Gemini did not return JSON; fallback used.")) ].

(** [_extract_text_from_gemini(raw_text)], lines 54-84.  An exception of
    [json.loads] is caught by the [except Exception] around it. *)
Definition _extract_text_from_gemini (raw_text : str) : pyval :=
  let raw_text := strip raw_text in
  match json_loads raw_text with
  | Some v => v
  | None =>
      let start := find raw_text (lit "{") in
      let end_ := rfind raw_text (lit "}") in
      let wrapped := fallback raw_text in
      if negb (start =? -1)%Z && negb (end_ =? -1)%Z && (end_ >? start)%Z then
        match json_loads (slice raw_text start (end_ + 1)%Z) with
        | Some v => v
        | None => wrapped
        end
      else wrapped
  end.

(** [parsed.get(key, default)]: only a [dict] has the method. *)
Definition get (parsed : pyval) (key : string) (default : pyval)
  : result pyval :=
  match parsed with
  | PDict d => inr (dict_get d (lit key) default)
  | _ => inl AttributeError
  end.

Definition bind_result {A B : Type} (r : result A) (k : A -> result B)
  : result B :=
  match r with
  | inl e => inl e
  | inr a => k a
  end.

(** The construction of the response from the parsed value, lines
    176-182; the arguments are evaluated in the order written. *)
Definition shape_response (parsed : pyval) : result AnalyzeResponse :=
  bind_result (get parsed "answer" (PStr [])) (fun a =>
  bind_result (get parsed "imageSummary" (PStr [])) (fun i =>
  bind_result (get parsed "extractedText" (PStr [])) (fun e =>
  bind_result (get parsed "detectedLanguages" (PList [])) (fun d =>
  bind_result (get parsed "safetyNotes" (PStr [])) (fun n =>
  new_AnalyzeResponse
    (PStr (py_str a))
    (PStr (py_str i))
    (PStr (py_str e))
    (py_or d (PList []))
    (PStr (py_str n))))))).

(** Lines 174-182: the response for the raw text of the provider. *)
Definition normalize (raw_text : str) : result AnalyzeResponse :=
  shape_response (_extract_text_from_gemini raw_text).

(** [x[key]] for a [str] key, [None] when it raises ([KeyError] on a
    [dict] without the key, [TypeError] on anything else). *)
Definition getitem (x : pyval) (key : string) : option pyval :=
  match x with
  | PDict d => dict_lookup d (lit key)
  | _ => None
  end.

(** [x[0]], [None] when it raises: a [list] gives its first element, a
    [str] its first character. *)
Definition getitem0 (x : pyval) : option pyval :=
  match x with
  | PList (v :: _) => Some v
  | PStr (c :: _) => Some (PStr [c])
  | _ => None
  end.

Definition and_then {A B : Type} (o : option A) (k : A -> option B)
  : option B :=
  match o with
  | Some a => k a
  | None => None
  end.

(** Lines 169-172: the first text part of the first candidate, or the
    whole envelope serialised again when that path is absent. *)
Definition raw_text_of (data : pyval) : pyval :=
  match and_then (getitem data "candidates") (fun a =>
        and_then (getitem0 a) (fun b =>
        and_then (getitem b "content") (fun c =>
        and_then (getitem c "parts") (fun d =>
        and_then (getitem0 d) (fun e =>
        getitem e "text"))))) with
  | Some t => t
  | None => PStr (json_dumps data)
  end.

Definition truthy (o : option str) : option str :=
  match o with
  | Some s => if py_bool (PStr s) then Some s else None
  | None => None
  end.

Definition instruction_block : str :=
  join [10]
    [ lit "You are a vision assistant. You will receive an image and a user question about it.";
      lit "Answer the user's question based only on what is visible in the image.";
      lit "Also extract any readable text.";
      [];
      lit "Return a JSON object with fields:";
      lit "- answer: string (direct answer to userQuery)";
      lit "- imageSummary: string (brief neutral description)";
      lit "- extractedText: string (all visible text, best effort)";
      lit "- detectedLanguages: array of strings (languages of extracted text)";
      lit "- safetyNotes: string (uncertainty or quality notes)";
      [];
      lit "User question:" ].

(** Lines 107-131. *)
Definition system_prompt (payload : AnalyzeRequest) : str :=
  let lang_line :=
    match truthy (languageCode payload) with
    | Some l => [10] ++ lit "Respond in language: " ++ l
    | None => []
    end in
  let hint_line :=
    match truthy (contextHint payload) with
    | Some h => [10] ++ lit "Context hint: " ++ h
    | None => []
    end in
  strip ([10] ++ instruction_block ++ [10] ++ userQuery payload ++ [10]
         ++ hint_line ++ [10] ++ lang_line ++ [10]).

(** Lines 134-137. *)
Definition gemini_url : str :=
  lit "https://generativelanguage.googleapis.com/v1beta/models/"
  ++ GEMINI_MODEL cfg ++ lit ":generateContent?key=" ++ GEMINI_API_KEY cfg.

(** Lines 139-158. *)
Definition gemini_body (prompt mime_type image_b64 : str) : pyval :=
  PDict
    [ (lit "contents",
       PList
         [ PDict
             [ (lit "parts",
                PList
                  [ PDict [ (lit "text", PStr prompt) ];
                    PDict
                      [ (lit "inline_data",
                         PDict [ (lit "mime_type", PStr mime_type);
                                 (lit "data", PStr image_b64) ]) ] ]) ] ]);
      (lit "generationConfig",
       PDict [ (lit "temperature", PFloat (lit "0.2"));
               (lit "response_mime_type", PStr (lit "application/json")) ]) ].

Variable world : World.

(** [analyze_onedrive_image(payload, req)], lines 86-182. *)
Definition analyze_onedrive_image (payload : AnalyzeRequest) (req : Request)
  : M AnalyzeResponse :=
  lift (_check_api_key req) ;;;
  if negb (py_bool (PStr (GEMINI_API_KEY cfg))) then
    raise (HTTPException 500 (lit "GEMINI_API_KEY not configured"))
  else
    let mime_type := _guess_mime (downloadUrl payload) in
    img_resp <- client_get world (downloadUrl payload) ;;
    if negb (status_code img_resp =? 200)%Z then
      raise (HTTPException 404
               (lit "Failed to fetch image from OneDrive (status "
                ++ str_of_Z (status_code img_resp) ++ lit ")"))
    else
      let image_bytes := content img_resp in
      let image_b64 := b64encode image_bytes in
      let body := gemini_body (system_prompt payload) mime_type image_b64 in
      g_resp <- client_post world gemini_url body ;;
      if negb (status_code g_resp =? 200)%Z then
        raise (HTTPException 500
                 (lit "Gemini error " ++ str_of_Z (status_code g_resp)
                  ++ lit ": " ++ text g_resp))
      else
        match json_body g_resp with
        | None => raise JSONDecodeError
        | Some data =>
            match raw_text_of data with
            | PStr raw_text => lift (normalize raw_text)
            | _ => raise AttributeError          (* no [strip] on a non-str *)
            end
        end.

End Main.

(** An environment for evaluating the model on ASCII text, where it
    agrees with CPython: code points above 127 are taken as their own
    lower case and as printable; a float prints as it was written and is
    zero when its mantissa has no digit other than 0 (so it is exact on
    floats written in their shortest form, without underflow). *)
Fixpoint mantissa (x : str) : str :=
  match x with
  | [] => []
  | c :: x' => if (c =? 101) || (c =? 69) then [] else c :: mantissa x'
  end.

(** The text of a float that is not zero: a digit other than 0 in the
    mantissa, or the [N] of NaN, or the [I] of Infinity. *)
Definition written_nonzero (x : str) : bool :=
  existsb (fun c => ((49 <=? c) && (c <=? 57)) || (c =? 78) || (c =? 73))
          (mantissa x).

Definition ascii_env (v : pydantic_version) : PyEnv := {|
  lower_nonascii := fun _ _ c => [c];
  lower_nonascii_spec :=
    ltac:(intros s i c Hc; split;
          [ discriminate
          | constructor; [ unfold plain_ascii; lia | constructor ] ]);
  isprintable_nonascii := fun _ => true;
  float_repr := fun x => x;
  float_bool := written_nonzero;
  pydantic := v
|}.


(* ================================================================== *)
(** * Vocabulary of the properties *)
(* ================================================================== *)

(** The header value the authenticator reads: the empty text when the
    header is missing. *)
Definition presented (req : Request) : str :=
  match authorization req with
  | Some h => h
  | None => []
  end.

(** [sub] occurs in [s]. *)
Definition contains (s sub : str) : Prop :=
  exists pre post, s = pre ++ sub ++ post.

(** Two code points that are the same ASCII letter up to case, or equal. *)
Definition same_ignoring_case (c d : N) : Prop :=
  c = d \/ (65 <= c <= 90 /\ d = c + 32) \/ (65 <= d <= 90 /\ c = d + 32).

(** [url] ends in [ext], case-insensitively. *)
Definition ends_with_ci (url : str) (ext : string) : Prop :=
  exists pre tail,
    url = pre ++ tail /\ Forall2 same_ignoring_case tail (lit ext).

Definition is_post (e : event) : bool :=
  match e with
  | Post _ _ _ => true
  | Get _ _ => false
  end.

(** The text [t] has its first opening brace after [a] and its last
    closing brace before [b], with [m] between the two. *)
Definition braces (t a m b : str) : Prop :=
  t = a ++ [123] ++ m ++ [125] ++ b /\ ~ In 123 a /\ ~ In 125 b.

(** A text of white space only, in the sense of [str.isspace]. *)
Definition all_space (t : str) : Prop := Forall (fun c => isspace c = true) t.

(** The result of a scan on a text that is followed by [t]. *)
Definition followed_by {A : Type} (t : str) (x : scan A) : scan A :=
  match x with
  | Scanned a rest => Scanned a (rest ++ t)
  | Malformed => Malformed
  | Exhausted => Exhausted
  end.

Definition option_followed_by {A : Type} (t : str) (o : option (A * str))
  : option (A * str) :=
  match o with
  | Some (a, rest) => Some (a, rest ++ t)
  | None => None
  end.

(** A code point of a lower-case extension: plain ASCII, not a capital. *)
Definition lower_ext (d : N) : Prop :=
  plain_ascii d /\ ~ (65 <= d <= 90).

(** [out] is a lower-casing of [s]: an ASCII code point gives its lower
    case, any other gives a non-empty run free of plain ASCII. *)
Inductive lowered : str -> str -> Prop :=
| lowered_nil : lowered [] []
| lowered_ascii : forall c s out,
    c < 128 -> lowered s out -> lowered (c :: s) (ascii_lower c :: out)
| lowered_other : forall c s piece out,
    128 <= c -> piece <> [] -> Forall (fun d => ~ plain_ascii d) piece ->
    lowered s out -> lowered (c :: s) (piece ++ out).

(** The marker the fallback wrapper carries. *)
Definition fallback_marker : str :=
  lit "Gemini did not return JSON; fallback used.".

(** What the handler puts in a text field for the parsed object [d]:
    the empty text for a missing key, [str(value)] otherwise. *)
Definition coerced_text (env : PyEnv) (d : list (str * pyval)) (key : string)
  : str :=
  match dict_lookup d (lit key) with
  | Some v => py_str v
  | None => []
  end.

(** The languages of the parsed object [d], when its [detectedLanguages]
    is absent, falsy or a list of strings. *)
Inductive languages_of (env : PyEnv) (d : list (str * pyval))
  : list str -> Prop :=
| languages_absent :
    dict_lookup d (lit "detectedLanguages") = None ->
    languages_of env d []
| languages_falsy : forall v,
    dict_lookup d (lit "detectedLanguages") = Some v ->
    py_bool v = false ->
    languages_of env d []
| languages_listed : forall ls,
    dict_lookup d (lit "detectedLanguages") = Some (PList (List.map PStr ls)) ->
    languages_of env d ls.

(** The parsed object [d] has the shape of the response [r]: the five
    keys, holding four texts and a list of texts. *)
Definition has_shape (d : list (str * pyval)) (r : AnalyzeResponse) : Prop :=
  exists i e ls n,
    imageSummary r = Some i /\ extractedText r = Some e /\
    detectedLanguages r = Some ls /\ safetyNotes r = Some n /\
    dict_lookup d (lit "answer") = Some (PStr (answer r)) /\
    dict_lookup d (lit "imageSummary") = Some (PStr i) /\
    dict_lookup d (lit "extractedText") = Some (PStr e) /\
    dict_lookup d (lit "detectedLanguages") = Some (PList (List.map PStr ls)) /\
    dict_lookup d (lit "safetyNotes") = Some (PStr n).

(** The response of the fallback path for the text [t]. *)
Definition fallback_response (t : str) : AnalyzeResponse := {|
  answer := t;
  imageSummary := Some [];
  extractedText := Some [];
  detectedLanguages := Some [];
  safetyNotes := Some fallback_marker
|}.

(** A response whose fields other than [answer] are at their defaults. *)
Definition answer_only (a : str) : AnalyzeResponse := {|
  answer := a;
  imageSummary := Some [];
  extractedText := Some [];
  detectedLanguages := Some [];
  safetyNotes := Some []
|}.

(* ================================================================== *)
(** * Sample inputs *)
(* ================================================================== *)

Definition sample_env : PyEnv := ascii_env PydanticV2.
Definition legacy_env : PyEnv := ascii_env PydanticV1.

(** [s] between double quotes. *)
Definition quoted (s : string) : str := [34] ++ lit s ++ [34].

Definition sample_cfg : Config := {|
  API_KEY := lit "s3cret";
  GEMINI_API_KEY := lit "g-key";
  GEMINI_MODEL := lit "gemini-1.5-flash"
|}.

Definition cfg_without_api_key : Config := {|
  API_KEY := [];
  GEMINI_API_KEY := lit "g-key";
  GEMINI_MODEL := lit "gemini-1.5-flash"
|}.

Definition cfg_without_gemini_key : Config := {|
  API_KEY := lit "s3cret";
  GEMINI_API_KEY := [];
  GEMINI_MODEL := lit "gemini-1.5-flash"
|}.

Definition good_request : Request :=
  {| authorization := Some (lit "Bearer s3cret") |}.
(** A header that ends in a no-break space: the byte 0xA0, which HTTP
    admits in a field value and which reaches the handler as U+00A0. *)
Definition padded_request : Request :=
  {| authorization := Some (lit "Bearer s3cret" ++ [0xA0]) |}.
Definition anonymous_request : Request :=
  {| authorization := None |}.

Definition sample_payload : AnalyzeRequest := {|
  downloadUrl := lit "https://files.example/photo.JPG";
  userQuery := lit "What is written on the sign?";
  itemId := None;
  languageCode := Some (lit "en");
  contextHint := None
|}.

Definition not_found : Response :=
  {| status_code := 404; content := []; text := lit "Not Found";
     json_body := None |}.

(** A world whose image host answers 404. *)
Definition world_without_image : World := {|
  http_get := fun _ => Returned not_found;
  http_post := fun _ _ => Raised
|}.

(** The text of the embedded-JSON example of the specification. *)
Definition embedded_reply : str :=
  lit "noise {" ++ quoted "answer" ++ lit ":" ++ quoted "x" ++ lit "} trailing".

(** The text of the fallback example of the specification. *)
Definition plain_reply : str := lit "plain unstructured reply".

(** A plain reply that ends in a line feed. *)
Definition plain_reply_with_newline : str := plain_reply ++ [10].

(** Replies that are JSON but not an object. *)
Definition number_reply : str := lit "42".
Definition array_reply : str :=
  lit "[{" ++ quoted "answer" ++ lit ": " ++ quoted "a cat" ++ lit "}]".

(** A JSON object whose [detectedLanguages] is a text, not a list. *)
Definition text_languages_reply : str :=
  lit "{" ++ quoted "answer" ++ lit ": " ++ quoted "a cat" ++ lit ", "
  ++ quoted "detectedLanguages" ++ lit ": " ++ quoted "English" ++ lit "}".

(** A JSON object whose [detectedLanguages] is [null]. *)
Definition null_languages_reply : str :=
  lit "{" ++ quoted "answer" ++ lit ": " ++ quoted "a cat" ++ lit ", "
  ++ quoted "detectedLanguages" ++ lit ": null}".

(** A JSON object of the full shape. *)
Definition full_reply : str :=
  lit "{" ++ quoted "answer" ++ lit ": " ++ quoted "a cat" ++ lit ", "
  ++ quoted "imageSummary" ++ lit ": " ++ quoted "a cat on a mat" ++ lit ", "
  ++ quoted "extractedText" ++ lit ": " ++ [34; 34] ++ lit ", "
  ++ quoted "detectedLanguages" ++ lit ": [" ++ quoted "en" ++ lit ", "
  ++ quoted "fr" ++ lit "], "
  ++ quoted "safetyNotes" ++ lit ": " ++ quoted "blurry" ++ lit "}".

(** The object that [full_reply] decodes to. *)
Definition full_object : list (str * pyval) :=
  [ (lit "answer", PStr (lit "a cat"));
    (lit "imageSummary", PStr (lit "a cat on a mat"));
    (lit "extractedText", PStr []);
    (lit "detectedLanguages", PList [PStr (lit "en"); PStr (lit "fr")]);
    (lit "safetyNotes", PStr (lit "blurry")) ].

(** The object that [null_languages_reply] decodes to. *)
Definition null_languages_object : list (str * pyval) :=
  [ (lit "answer", PStr (lit "a cat"));
    (lit "detectedLanguages", PNone) ].

(** An object whose [answer] is a number. *)
Definition numeric_answer_object : list (str * pyval) :=
  [ (lit "answer", PInt 7) ].

Definition full_response : AnalyzeResponse := {|
  answer := lit "a cat";
  imageSummary := Some (lit "a cat on a mat");
  extractedText := Some [];
  detectedLanguages := Some [lit "en"; lit "fr"];
  safetyNotes := Some (lit "blurry")
|}.

(* ================================================================== *)
(** * Vocabulary of the further properties *)
(* ================================================================== *)

(** A text that ends in white space. *)
Definition ends_in_space (s : str) : Prop :=
  exists a c, s = a ++ [c] /\ isspace c = true.

(** The text [s] is [core] with white space before and after it. *)
Definition padded (s core : str) : Prop :=
  exists w1 w2, all_space w1 /\ all_space w2 /\ s = w1 ++ core ++ w2.

(** The body posted to the provider for the fetched image [img]: the
    prompt, the guessed type and the image in base 64. *)
Definition provider_request (env : PyEnv) (payload : AnalyzeRequest)
  (img : Response) : pyval :=
  gemini_body (system_prompt payload) (_guess_mime (downloadUrl payload))
              (b64encode (content img)).

(** The detail of the error raised for a provider reply [g] whose status
    is not 200, line 165. *)
Definition provider_error_detail (g : Response) : str :=
  lit "Gemini error " ++ str_of_Z (status_code g) ++ lit ": " ++ text g.

(** The detail of the error raised for a fetch that returned [status],
    line 100. *)
Definition fetch_error_detail (status : Z) : str :=
  lit "Failed to fetch image from OneDrive (status " ++ str_of_Z status
  ++ lit ")".

(** How the handler ends once the provider has answered with [g], lines
    162-182. *)
Definition reply_result (env : PyEnv) (g : Response)
  : result AnalyzeResponse :=
  if (status_code g =? 200)%Z then
    match json_body g with
    | None => inl JSONDecodeError
    | Some data =>
        match raw_text_of data with
        | PStr raw_text => normalize raw_text
        | _ => inl AttributeError
        end
    end
  else inl (HTTPException 500 (provider_error_detail g)).

(** How the handler ends once the provider call has ended with [o]. *)
Definition post_result (env : PyEnv) (o : outcome) : result AnalyzeResponse :=
  match o with
  | Returned g => reply_result env g
  | Raised => inl TransportError
  end.

(** An optional field of the payload that the prompt takes as not given:
    missing or empty. *)
Definition not_given (o : option str) : Prop := o = None \/ o = Some [].

(** The line of the prompt for an optional field of the payload: a line
    feed, the label and the value, or nothing when it is not given. *)
Definition option_line (label : string) (o : option str) : str :=
  match o with
  | Some (c :: x) => [10] ++ lit label ++ c :: x
  | _ => []
  end.

(** A byte. *)
Definition is_byte (b : N) : Prop := b < 256.

(** A Unicode scalar value: a code point that is not a surrogate. *)
Definition is_scalar (c : N) : Prop :=
  c < 0x110000 /\ ~ (0xD800 <= c <= 0xDFFF).

(** A text of scalar values. *)
Definition is_text (s : str) : Prop := Forall is_scalar s.

(** The values that [json.dumps] writes so that [json.loads] reads them
    back as they are: no float (its text may differ from the one it was
    read from), texts of scalar values, and the keys of a [dict] distinct
    texts. *)
Fixpoint plain_value (v : pyval) : Prop :=
  match v with
  | PNone | PBool _ | PInt _ => True
  | PFloat _ => False
  | PStr s => is_text s
  | PList l => fold_right and True (List.map plain_value l)
  | PDict d =>
      NoDup (List.map fst d) /\
      fold_right and True
        (List.map (fun kv => is_text (fst kv) /\ plain_value (snd kv)) d)
  end.

(** A text at which a number ends: empty, or beginning with something
    other than a digit, a full stop or an exponent mark. *)
Definition number_ends (rest : str) : Prop :=
  match rest with
  | [] => True
  | c :: _ => is_digit c = false /\ c <> 46 /\ c <> 101 /\ c <> 69
  end.

(** The value [v] is read back from what [json.dumps] writes for it,
    whatever follows, with any fuel from [fuel] on. *)
Definition read_back (env : PyEnv) (fuel : nat) (v : pyval) : Prop :=
  forall (f : nat) (rest : str),
    (fuel <= f)%nat -> number_ends rest ->
    scan_once f (json_dumps v ++ rest) = Scanned v rest.

(** What [json.dumps] writes after the first element of a list: the
    other elements, each after a comma and a space, and the closing
    bracket; [rest] is what follows the list. *)
Fixpoint elements_tail (env : PyEnv) (l : list pyval) (rest : str) : str :=
  match l with
  | [] => [93] ++ rest
  | x :: l' => [44; 32] ++ json_dumps x ++ elements_tail env l' rest
  end.

(** What [json.dumps] writes after the first item of a [dict]. *)
Fixpoint items_tail (env : PyEnv) (d : list (str * pyval)) (rest : str)
  : str :=
  match d with
  | [] => [125] ++ rest
  | (k, v) :: d' =>
      [44; 32; 34] ++ flat_map dumps_char k ++ [34; 58; 32] ++ json_dumps v
      ++ items_tail env d' rest
  end.

(** An envelope without candidates: the key is missing or holds an
    empty list. *)
Definition lacks_candidates (d : list (str * pyval)) : Prop :=
  dict_lookup d (lit "candidates") = None
  \/ dict_lookup d (lit "candidates") = Some (PList []).

(** An object that holds none of the five keys of a response. *)
Definition lacks_fields (d : list (str * pyval)) : Prop :=
  dict_lookup d (lit "answer") = None /\
  dict_lookup d (lit "imageSummary") = None /\
  dict_lookup d (lit "extractedText") = None /\
  dict_lookup d (lit "detectedLanguages") = None /\
  dict_lookup d (lit "safetyNotes") = None.

(** The envelope of the provider around the text part [t]. *)
Definition envelope (t : pyval) : pyval :=
  PDict [(lit "candidates",
          PList [PDict [(lit "content",
                  PDict [(lit "parts",
                          PList [PDict [(lit "text", t)]])])]])].

(** [_extract_text_from_gemini(raw_text)], lines 54-84, with the decoder
    as a parameter: [loads] stands for [json.loads] as the interpreter at
    hand runs it, [None] where it raises. *)
Definition extract_with (loads : str -> option pyval) (raw_text : str)
  : pyval :=
  let raw_text := strip raw_text in
  match loads raw_text with
  | Some v => v
  | None =>
      let start := find raw_text (lit "{") in
      let end_ := rfind raw_text (lit "}") in
      let wrapped := fallback raw_text in
      if negb (start =? -1)%Z && negb (end_ =? -1)%Z && (end_ >? start)%Z then
        match loads (slice raw_text start (end_ + 1)%Z) with
        | Some v => v
        | None => wrapped
        end
      else wrapped
  end.

(** Lines 174-182 over the decoder [loads]. *)
Definition normalize_with (env : PyEnv) (loads : str -> option pyval)
  (raw_text : str) : result AnalyzeResponse :=
  shape_response (extract_with loads raw_text).

(** What an interpreter's [json.loads] has in common with [json_loads]:
    where it returns a value, that value is the one [json_loads] gives.
    It may raise where [json_loads] returns: a [RecursionError] on a text
    nested deeper than the interpreter's stack allows, a [ValueError] on
    an [int] literal of more digits than the interpreter converts; the
    [except Exception] of lines 65 and 74 catches both. *)
Definition decoder (loads : str -> option pyval) : Prop :=
  forall (s : str) (v : pyval), loads s = Some v -> json_loads s = Some v.

(** How many lists and dicts lie around the innermost part of a value. *)
Fixpoint nesting (v : pyval) : nat :=
  match v with
  | PList l => S (fold_right Nat.max 0%nat (List.map nesting l))
  | PDict d =>
      S (fold_right Nat.max 0%nat (List.map (fun kv => nesting (snd kv)) d))
  | _ => 0%nat
  end.

(** A decoder that raises for a value nested deeper than [limit]. *)
Definition loads_within (limit : nat) (s : str) : option pyval :=
  match json_loads s with
  | Some v => if (nesting v <=? limit)%nat then Some v else None
  | None => None
  end.

(** ** Further sample inputs *)

(** A list in a list. *)
Definition nested_reply : str := lit "[[1]]".

(** A JSON object whose answer is the escape of a lone surrogate,
    [\ud800]. *)
Definition surrogate_reply : str :=
  lit "{" ++ quoted "answer" ++ lit ": "
  ++ [34; 92; 117; 100; 56; 48; 48; 34] ++ lit "}".

(** A secret that ends in a line feed, as a value read from a file does. *)
Definition cfg_with_padded_key : Config := {|
  API_KEY := lit "s3cret" ++ [10];
  GEMINI_API_KEY := lit "g-key";
  GEMINI_MODEL := lit "gemini-1.5-flash"
|}.

Definition image_found : Response :=
  {| status_code := 200; content := lit "Man"; text := lit "Man";
     json_body := None |}.

Definition provider_reply : Response :=
  {| status_code := 200; content := []; text := [];
     json_body := Some (envelope (PStr full_reply)) |}.

Definition provider_overloaded : Response :=
  {| status_code := 503; content := []; text := lit "overloaded";
     json_body := None |}.

(** A fetched image with the same bytes as [image_found]. *)
Definition image_copy : Response :=
  {| status_code := 200; content := lit "Man"; text := [];
     json_body := None |}.

(** The object of [text_languages_reply]. *)
Definition text_languages_object : list (str * pyval) :=
  [ (lit "answer", PStr (lit "a cat"));
    (lit "detectedLanguages", PStr (lit "English")) ].

(** A payload with a blank question, an empty language code and a URL
    that carries a query string. *)
Definition blank_payload : AnalyzeRequest := {|
  downloadUrl := lit "https://files.example/photo.jpg?download=1";
  userQuery := [32; 32];
  itemId := None;
  languageCode := Some [];
  contextHint := None
|}.

(** The envelope of a provider that refused the prompt: no candidate. *)
Definition blocked_envelope : list (str * pyval) :=
  [ (lit "promptFeedback", PDict [(lit "blockReason", PStr (lit "SAFETY"))]);
    (lit "usageMetadata", PDict [(lit "promptTokenCount", PInt 263)]) ].

Definition blocked_reply : Response :=
  {| status_code := 200; content := []; text := [];
     json_body := Some (PDict blocked_envelope) |}.

(** A world whose provider refuses the prompt. *)
Definition world_with_blocked_prompt : World := {|
  http_get := fun _ => Returned image_found;
  http_post := fun _ _ => Returned blocked_reply
|}.

(** A world where both collaborators answer. *)
Definition sample_world : World := {|
  http_get := fun _ => Returned image_found;
  http_post := fun _ _ => Returned provider_reply
|}.

(** A world whose provider answers 503. *)
Definition world_with_failing_provider : World := {|
  http_get := fun _ => Returned image_found;
  http_post := fun _ _ => Returned provider_overloaded
|}.

(* ================================================================== *)
(** * Properties *)
(* ================================================================== *)

Unset Implicit Arguments.

(** ** Strings *)

Lemma str_eqb_eq : forall a b : str, str_eqb a b = true <-> a = b.
Proof.
  induction a as [|x a IH]; destruct b as [|y b]; simpl;
    try (split; [discriminate | discriminate]); try tauto.
  rewrite andb_true_iff, N.eqb_eq, IH.
  split; [intros [-> ->]; reflexivity | intros H; inversion H; auto].
Qed.

Lemma str_eqb_refl : forall a : str, str_eqb a a = true.
Proof. intro a. apply str_eqb_eq. reflexivity. Qed.

Lemma str_eqb_neq : forall a b : str, str_eqb a b = false <-> a <> b.
Proof.
  intros a b. split.
  - intros H E. apply str_eqb_eq in E. congruence.
  - intros H. destruct (str_eqb a b) eqn:E; [|reflexivity].
    apply str_eqb_eq in E. contradiction.
Qed.

Lemma str_empty_bool : forall s : str, negb (str_eqb s []) = false <-> s = [].
Proof. intros [|c s]; simpl; split; congruence. Qed.


(** ** Searching and slicing *)

Lemma startswith_single : forall (s : str) (c : N),
  startswith s [c] = match s with
                     | x :: _ => x =? c
                     | [] => false
                     end.
Proof. intros [|x s] c; simpl; [reflexivity | apply andb_true_r]. Qed.

Lemma find_from_cons : forall (x : N) (t : str) (c : N) (i : Z),
  find_from i (x :: t) [c]
  = if x =? c then i else find_from (i + 1)%Z t [c].
Proof. intros. simpl. rewrite andb_true_r. reflexivity. Qed.

Lemma find_from_first : forall (a r : str) (c : N) (i : Z),
  ~ In c a -> find_from i (a ++ c :: r) [c] = (i + Z.of_nat (length a))%Z.
Proof.
  induction a as [|x a IH]; intros r c i Hn.
  - simpl app. rewrite find_from_cons, N.eqb_refl. simpl. lia.
  - simpl app. rewrite find_from_cons.
    assert (E : (x =? c) = false)
      by (apply N.eqb_neq; intros ->; apply Hn; left; reflexivity).
    rewrite E, IH by (intros H; apply Hn; right; exact H).
    simpl length. lia.
Qed.

Lemma find_from_none : forall (t : str) (c : N) (i : Z),
  ~ In c t -> find_from i t [c] = (-1)%Z.
Proof.
  induction t as [|x t IH]; intros c i Hn.
  - reflexivity.
  - rewrite find_from_cons.
    assert (E : (x =? c) = false)
      by (apply N.eqb_neq; intros ->; apply Hn; left; reflexivity).
    rewrite E. apply IH. intros H. apply Hn. right. exact H.
Qed.

Lemma rfind_from_none : forall (t : str) (c : N) (i : Z),
  ~ In c t -> rfind_from i t [c] = (-1)%Z.
Proof.
  induction t as [|x t IH]; intros c i Hn.
  - reflexivity.
  - simpl rfind_from. rewrite IH by (intros H; apply Hn; right; exact H).
    simpl.
    assert (E : (x =? c) = false) by (apply N.eqb_neq; intros ->; apply Hn; left; reflexivity).
    rewrite E. reflexivity.
Qed.

Lemma rfind_from_last : forall (pre b : str) (c : N) (i : Z),
  (0 <= i)%Z -> ~ In c b ->
  rfind_from i (pre ++ c :: b) [c] = (i + Z.of_nat (length pre))%Z.
Proof.
  induction pre as [|x pre IH]; intros b c i Hi Hn.
  - simpl app. simpl rfind_from. rewrite rfind_from_none by assumption.
    simpl. rewrite N.eqb_refl. simpl. lia.
  - simpl app. simpl rfind_from. rewrite IH by (auto; lia).
    destruct (i + 1 + Z.of_nat (length pre) =? -1)%Z eqn:E.
    + apply Z.eqb_eq in E. lia.
    + simpl length. lia.
Qed.

Lemma first_occurrence : forall (c : N) (t : str),
  In c t -> exists a r, t = a ++ c :: r /\ ~ In c a.
Proof.
  intros c t. induction t as [|x t IH]; intros Hin; [destruct Hin|].
  destruct (N.eq_dec x c) as [->|Hne].
  - exists [], t. split; [reflexivity | intros []].
  - destruct Hin as [H|H]; [contradiction|].
    destruct (IH H) as (a & r & -> & Hn).
    exists (x :: a), r. split; [reflexivity|].
    intros [H'|H']; [contradiction | exact (Hn H')].
Qed.

Lemma last_occurrence : forall (c : N) (t : str),
  In c t -> exists pre b, t = pre ++ c :: b /\ ~ In c b.
Proof.
  intros c t Hin. apply in_rev in Hin.
  destruct (first_occurrence _ _ Hin) as (a & r & Hrev & Hn).
  exists (rev r), (rev a). split.
  - rewrite <- (rev_involutive t), Hrev, rev_app_distr. simpl.
    rewrite <- app_assoc. reflexivity.
  - intros H. apply Hn. apply in_rev. exact H.
Qed.

Lemma slice_middle : forall a mid b : str,
  slice (a ++ mid ++ b) (Z.of_nat (length a))
        (Z.of_nat (length a) + Z.of_nat (length mid)) = mid.
Proof.
  intros a mid b. unfold slice, slice_bound. rewrite !length_app.
  assert (E1 : (Z.of_nat (length a) <? 0)%Z = false) by (apply Z.ltb_ge; lia).
  assert (E2 : (Z.of_nat (length a) + Z.of_nat (length mid) <? 0)%Z = false)
    by (apply Z.ltb_ge; lia).
  rewrite E1, E2.
  replace (Z.to_nat (Z.min _ (Z.max 0 (Z.of_nat (length a)))))
    with (length a) by lia.
  replace (Z.to_nat (Z.min _
             (Z.max 0 (Z.of_nat (length a) + Z.of_nat (length mid)))))
    with (length a + length mid)%nat by lia.
  replace (length a + length mid - length a)%nat with (length mid) by lia.
  rewrite skipn_app, skipn_all, Nat.sub_diag. simpl.
  rewrite firstn_app, firstn_all, Nat.sub_diag. simpl. apply app_nil_r.
Qed.

(** Where the two searches of the extractor land on a text with braces. *)
Lemma braces_found : forall t a m b : str,
  braces t a m b ->
  find t (lit "{") = Z.of_nat (length a) /\
  rfind t (lit "}") = (Z.of_nat (length a) + 1 + Z.of_nat (length m))%Z /\
  slice t (find t (lit "{")) (rfind t (lit "}") + 1) = [123] ++ m ++ [125].
Proof.
  intros t a m b (Ht & Ha & Hb).
  assert (Hfind : find t (lit "{") = Z.of_nat (length a)).
  { subst t. unfold find. apply (find_from_first a (m ++ [125] ++ b) 123 0%Z Ha). }
  assert (Hrfind : rfind t (lit "}")
                   = (Z.of_nat (length a) + 1 + Z.of_nat (length m))%Z).
  { subst t. unfold rfind.
    replace (a ++ [123] ++ m ++ [125] ++ b)
      with ((a ++ [123] ++ m) ++ 125 :: b)
      by (rewrite <- !app_assoc; reflexivity).
    change (lit "}") with [125].
    rewrite rfind_from_last by (auto; lia).
    rewrite !length_app. simpl length. lia. }
  split; [exact Hfind|]. split; [exact Hrfind|].
  rewrite Hfind, Hrfind. subst t.
  replace (Z.of_nat (length a) + 1 + Z.of_nat (length m) + 1)%Z
    with (Z.of_nat (length a) + Z.of_nat (length ([123%N] ++ m ++ [125%N])))%Z
    by (rewrite !length_app; simpl length; lia).
  replace (a ++ [123] ++ m ++ [125] ++ b)
    with (a ++ ([123] ++ m ++ [125]) ++ b)
    by (rewrite <- !app_assoc; reflexivity).
  apply slice_middle.
Qed.

(** When both searches succeed, in order, the text has braces. *)
Lemma found_braces : forall t : str,
  find t (lit "{") <> (-1)%Z -> rfind t (lit "}") <> (-1)%Z ->
  (rfind t (lit "}") > find t (lit "{"))%Z ->
  exists a m b, braces t a m b.
Proof.
  intros t Hf Hr Hlt.
  destruct (in_dec N.eq_dec 123 t) as [Hin1|Hout];
    [|exfalso; apply Hf; apply find_from_none; exact Hout].
  destruct (in_dec N.eq_dec 125 t) as [Hin2|Hout];
    [|exfalso; apply Hr; apply rfind_from_none; exact Hout].
  destruct (first_occurrence _ _ Hin1) as (a & r & Ht1 & Ha).
  destruct (last_occurrence _ _ Hin2) as (pre & b & Ht2 & Hb).
  assert (F : find t (lit "{") = Z.of_nat (length a)).
  { rewrite Ht1. unfold find. apply (find_from_first a r 123 0%Z Ha). }
  assert (R : rfind t (lit "}") = Z.of_nat (length pre)).
  { rewrite Ht2. unfold find. change (lit "}") with [125]. unfold rfind.
    rewrite rfind_from_last by (auto; lia). lia. }
  rewrite F, R in Hlt.
  assert (E : a ++ 123 :: r = pre ++ 125 :: b) by congruence.
  apply app_eq_app in E. destruct E as [l [[E1 E2]|[E1 E2]]].
  - subst a. rewrite length_app in Hlt. lia.
  - destruct l as [|x m].
    + subst pre. rewrite app_nil_r in Hlt. lia.
    + simpl in E2. inversion E2; subst.
      exists a, m, b. repeat split; auto.
Qed.


(** ** The JSON decoder never runs out of fuel *)

Lemma dropwhile_length : forall (p : N -> bool) (s : str),
  (length (dropwhile p s) <= length s)%nat.
Proof.
  intros p s. induction s as [|c s IH]; simpl; [lia|].
  destruct (p c); simpl; lia.
Qed.

Lemma skip_ws_cons_length : forall (s : str) (c : N) (rest : str),
  skip_ws s = c :: rest -> (length rest < length s)%nat.
Proof.
  intros s c rest H. pose proof (dropwhile_length json_ws s) as L.
  unfold skip_ws in H. rewrite H in L. simpl in L. lia.
Qed.

Lemma scan_chars_shorter : forall (s : str) (st : string_state)
                                  (acc x rest : str),
  scan_chars st s acc = Some (x, rest) -> (length rest < length s)%nat.
Proof.
  induction s as [|c s IH]; intros st acc x rest H; simpl in H.
  - discriminate H.
  - destruct (scan_step st acc c) as [st' acc'|y|].
    + apply IH in H. simpl. lia.
    + inversion H; subst. simpl. lia.
    + discriminate H.
Qed.

Lemma scanstring_shorter : forall (n : nat) (s acc x rest : str),
  (length s <= n)%nat ->
  scanstring s acc = Some (x, rest) -> (length rest < length s)%nat.
Proof. intros n s acc x rest _. apply scan_chars_shorter. Qed.

Lemma span_digits_length : forall (s ds rest : str),
  span_digits s = (ds, rest) -> length s = (length ds + length rest)%nat.
Proof.
  induction s as [|c s IH]; intros ds rest H; simpl in H.
  - inversion H; reflexivity.
  - destruct (is_digit c).
    + destruct (span_digits s) as [ds' rest'] eqn:E.
      inversion H; subst. simpl. rewrite (IH _ _ eq_refl). reflexivity.
    + inversion H; subst. reflexivity.
Qed.

Lemma match_int_part_shorter : forall (s ip rest : str),
  match_int_part s = Some (ip, rest) -> (length rest < length s)%nat.
Proof.
  intros [|c s] ip rest H; [discriminate H|]. unfold match_int_part in H.
  destruct (c =? 48); [inversion H; subst; simpl; lia|].
  destruct (is_digit c) eqn:D; [|discriminate H].
  assert (E : span_digits (c :: s) = (ip, rest)) by congruence.
  pose proof (span_digits_length _ _ _ E) as L.
  simpl in E. rewrite D in E. destruct (span_digits s).
  inversion E; subst. simpl in *. lia.
Qed.

Lemma match_frac_length : forall (s frac rest : str),
  match_frac s = (frac, rest) -> (length rest <= length s)%nat.
Proof.
  intros [|c s] frac rest H; unfold match_frac in H.
  - inversion H; subst; simpl; lia.
  - destruct (c =? 46); [|inversion H; subst; simpl; lia].
    destruct (span_digits s) as [ds r] eqn:E.
    pose proof (span_digits_length _ _ _ E) as L.
    destruct ds; inversion H; subst; simpl in *; lia.
Qed.

Lemma match_exp_length : forall (s ex rest : str),
  match_exp s = (ex, rest) -> (length rest <= length s)%nat.
Proof.
  intros [|c s] ex rest H; unfold match_exp in H.
  - inversion H; subst; simpl; lia.
  - destruct ((c =? 101) || (c =? 69)); [|inversion H; subst; simpl; lia].
    destruct s as [|d t].
    + simpl in H. inversion H; subst; simpl; lia.
    + destruct ((d =? 45) || (d =? 43)).
      * destruct (span_digits t) as [ds r] eqn:E.
        pose proof (span_digits_length _ _ _ E) as L.
        destruct ds; inversion H; subst; simpl in *; lia.
      * destruct (span_digits (d :: t)) as [ds r] eqn:E.
        pose proof (span_digits_length _ _ _ E) as L.
        destruct ds; inversion H; subst; simpl in *; lia.
Qed.

Lemma match_number_shorter : forall (s : str) (v : pyval) (rest : str),
  match_number s = Some (v, rest) -> (length rest < length s)%nat.
Proof.
  intros s v rest H. unfold match_number in H.
  assert (G : forall s0 : str, (length s0 <= length s)%nat ->
            match match_int_part s0 with
            | Some (ip, s1) =>
                let (frac, s2) := match_frac s1 in
                let (ex, s3) := match_exp s2 in
                Some (s3, ip, frac, ex)
            | None => None
            end = None \/
            exists s3 ip frac ex,
              match match_int_part s0 with
              | Some (ip, s1) =>
                  let (frac, s2) := match_frac s1 in
                  let (ex, s3) := match_exp s2 in
                  Some (s3, ip, frac, ex)
              | None => None
              end = Some (s3, ip, frac, ex)
              /\ (length s3 < length s)%nat).
  { intros s0 L0. destruct (match_int_part s0) as [[ip s1]|] eqn:E1;
      [|left; reflexivity].
    right. apply match_int_part_shorter in E1.
    destruct (match_frac s1) as [frac s2] eqn:E2.
    apply match_frac_length in E2.
    destruct (match_exp s2) as [ex s3] eqn:E3.
    apply match_exp_length in E3.
    exists s3, ip, frac, ex. split; [reflexivity | lia]. }
  destruct s as [|c s'].
  - simpl in H. discriminate H.
  - destruct (c =? 45).
    + destruct (G s' ltac:(simpl; lia)) as [E|(s3 & ip & frac & ex & E & L)];
        destruct (match_int_part s') as [[ip' s1]|]; try discriminate;
        destruct (match_frac s1) as [frac' s2];
        destruct (match_exp s2) as [ex' s3']; try discriminate.
      inversion E; subst.
      destruct frac; destruct ex; inversion H; subst; exact L.
    + destruct (G (c :: s') ltac:(simpl; lia)) as [E|(s3 & ip & frac & ex & E & L)];
        destruct (match_int_part (c :: s')) as [[ip' s1]|]; try discriminate;
        destruct (match_frac s1) as [frac' s2];
        destruct (match_exp s2) as [ex' s3']; try discriminate.
      inversion E; subst.
      destruct frac; destruct ex; inversion H; subst; exact L.
Qed.

Lemma scan_literal_shorter :
  forall (word : string) (v w : pyval) (c : N) (s rest : str),
  lit word <> [] ->
  scan_literal word v (c :: s) = Some (w, rest) ->
  (length rest < length (c :: s))%nat.
Proof.
  intros word v w c s rest Hw H. unfold scan_literal in H.
  destruct (startswith (c :: s) (lit word)); [|discriminate H].
  inversion H; subst. rewrite length_skipn.
  destruct (lit word); [contradiction|]. simpl. lia.
Qed.


Lemma scan_of_option_scanned :
  forall (o : option (pyval * str)) (v : pyval) (rest : str),
  scan_of_option o = Scanned v rest -> o = Some (v, rest).
Proof.
  intros [[w r]|] v rest H; simpl in H; [inversion H; reflexivity|].
  discriminate H.
Qed.

Ltac decode_step H :=
  match type of H with
  | context [match scanstring ?s ?a with _ => _ end] =>
      let E := fresh "Estr" in
      destruct (scanstring s a) as [[? ?]|] eqn:E;
      [apply scanstring_shorter with (n := length s) in E; [|lia]|]
  | context [match skip_ws ?s with _ => _ end] =>
      let E := fresh "Ews" in
      destruct (skip_ws s) eqn:E; [|apply skip_ws_cons_length in E]
  | context [match match_number ?s with _ => _ end] =>
      let E := fresh "Enum" in
      destruct (match_number s) as [[? ?]|] eqn:E;
      [apply match_number_shorter in E|]
  | context [match scan_once ?f ?s with _ => _ end] =>
      let E := fresh "Eval" in destruct (scan_once f s) eqn:E
  | context [if ?c then _ else _] => destruct c eqn:?
  | scan_of_option _ = Scanned _ _ =>
      apply scan_of_option_scanned, scan_literal_shorter in H;
      [|discriminate]
  | Scanned _ _ = Scanned _ _ => inversion H; subst; clear H
  | Malformed = Scanned _ _ => discriminate H
  | Exhausted = Scanned _ _ => discriminate H
  end.

Ltac note_ws :=
  repeat match goal with
  | H : context [skip_ws ?s] |- _ =>
      lazymatch goal with
      | _ : (length (skip_ws s) <= length s)%nat |- _ => fail
      | _ => pose proof (dropwhile_length json_ws s
                         : (length (skip_ws s) <= length s)%nat)
      end
  end.

Ltac decode_done IHv IHo IHa :=
  repeat match goal with
  | E : scan_once _ _ = Scanned _ _ |- _ => apply IHv in E
  | E : object_members _ _ _ = Scanned _ _ |- _ => apply IHo in E
  | E : array_items _ _ _ = Scanned _ _ |- _ => apply IHa in E
  end;
  note_ws; simpl length in *; lia.

(** A decoded value uses up at least one code point. *)
Lemma scan_shorter : forall fuel : nat,
  (forall s v rest, scan_once fuel s = Scanned v rest ->
                    (length rest < length s)%nat) /\
  (forall s pairs v rest, object_members fuel s pairs = Scanned v rest ->
                          (length rest < length s)%nat) /\
  (forall s acc v rest, array_items fuel s acc = Scanned v rest ->
                        (length rest < length s)%nat).
Proof.
  induction fuel as [|f (IHv & IHo & IHa)].
  - repeat split; intros; discriminate.
  - split; [|split].
    + intros s v rest H. destruct s as [|c s1]; [discriminate H|].
      cbn [scan_once] in H.
      repeat decode_step H; decode_done IHv IHo IHa.
    + intros s pairs v rest H. cbn [object_members] in H.
      repeat decode_step H; decode_done IHv IHo IHa.
    + intros s acc v rest H. cbn [array_items] in H.
      repeat decode_step H; decode_done IHv IHo IHa.
Qed.


Ltac exhaust_step H :=
  match type of H with
  | context [match scanstring ?s ?a with _ => _ end] =>
      let E := fresh "Estr" in
      destruct (scanstring s a) as [[? ?]|] eqn:E;
      [apply scanstring_shorter with (n := length s) in E; [|lia]|]
  | context [match skip_ws ?s with _ => _ end] =>
      let E := fresh "Ews" in
      destruct (skip_ws s) eqn:E; [|apply skip_ws_cons_length in E]
  | context [match match_number ?s with _ => _ end] =>
      destruct (match_number s) as [[? ?]|]
  | context [match scan_once ?f ?s with _ => _ end] =>
      let E := fresh "Eval" in destruct (scan_once f s) eqn:E
  | context [if ?c then _ else _] => destruct c eqn:?
  | scan_of_option ?o = Exhausted => destruct o as [[? ?]|]; discriminate H
  | Scanned _ _ = Exhausted => discriminate H
  | Malformed = Exhausted => discriminate H
  end.

Ltac exhaust_done Sh IHv IHo IHa :=
  repeat match goal with
  | E : scan_once _ _ = Scanned _ _ |- _ => apply Sh in E
  end;
  note_ws; simpl length in *; exfalso;
  match goal with
  | E : scan_once _ _ = Exhausted |- _ => eapply IHv; [|exact E]
  | E : object_members _ _ _ = Exhausted |- _ => eapply IHo; [|exact E]
  | E : array_items _ _ _ = Exhausted |- _ => eapply IHa; [|exact E]
  end;
  simpl length in *; lia.

(** Fuel above twice the length of the text is never used up. *)
Lemma scan_not_exhausted : forall fuel : nat,
  (forall s, (2 * length s + 1 <= fuel)%nat ->
             scan_once fuel s <> Exhausted) /\
  (forall s pairs, (2 * length s + 2 <= fuel)%nat ->
                   object_members fuel s pairs <> Exhausted) /\
  (forall s acc, (2 * length s + 2 <= fuel)%nat ->
                 array_items fuel s acc <> Exhausted).
Proof.
  induction fuel as [|f (IHv & IHo & IHa)].
  - repeat split; intros; simpl in *; lia.
  - pose proof (proj1 (scan_shorter f)) as Sh.
    split; [|split].
    + intros s Hf H. destruct s as [|c s1]; [discriminate H|].
      cbn [scan_once] in H. simpl length in Hf.
      repeat exhaust_step H; exhaust_done Sh IHv IHo IHa.
    + intros s pairs Hf H. cbn [object_members] in H.
      repeat exhaust_step H; exhaust_done Sh IHv IHo IHa.
    + intros s acc Hf H. cbn [array_items] in H.
      repeat exhaust_step H; exhaust_done Sh IHv IHo IHa.
Qed.

(** [json.loads] fails only where the text is not JSON: the decoder does
    not run out of fuel. *)
Lemma json_loads_fuel : forall s : str,
  scan_once (json_fuel s) (skip_ws s) <> Exhausted.
Proof.
  intros s. apply (proj1 (scan_not_exhausted (json_fuel s))).
  pose proof (dropwhile_length json_ws s). unfold skip_ws, json_fuel. lia.
Qed.

(** ** White space after a JSON text does not change its decoding *)

Lemma isspace_cases : forall k : N,
  isspace k = true ->
  (9 <= k <= 13) \/ (28 <= k <= 32) \/ k = 133 \/ k = 160 \/ 5760 <= k.
Proof.
  intros k H. unfold isspace in H.
  repeat match type of H with
         | (_ || _) = true => apply orb_true_iff in H; destruct H as [H|H]
         end;
    repeat match type of H with
           | (_ && _) = true =>
               let H1 := fresh in
               apply andb_true_iff in H; destruct H as [H H1];
               apply N.leb_le in H1
           end;
    try apply N.leb_le in H; try apply N.eqb_eq in H; lia.
Qed.

Lemma json_ws_isspace : forall c : N, json_ws c = true -> isspace c = true.
Proof.
  intros c H. unfold json_ws in H.
  repeat match type of H with
         | (_ || _) = true => apply orb_true_iff in H; destruct H as [H|H]
         end;
    apply N.eqb_eq in H; subst; reflexivity.
Qed.

(** Comparisons of a white-space code point with the code points of the
    grammar. *)
Ltac space_facts k Hk :=
  let C := fresh "C" in
  pose proof (isspace_cases k Hk) as C;
  repeat match goal with
         | |- context [k =? ?n] =>
             let E := fresh in
             assert (E : (k =? n) = false) by (apply N.eqb_neq; lia);
             rewrite E; clear E
         | |- context [?n <=? k] =>
             first [ let E := fresh in
                     assert (E : (n <=? k) = false) by (apply N.leb_gt; lia);
                     rewrite E; clear E
                   | let E := fresh in
                     assert (E : (n <=? k) = true) by (apply N.leb_le; lia);
                     rewrite E; clear E ]
         | |- context [k <=? ?n] =>
             first [ let E := fresh in
                     assert (E : (k <=? n) = false) by (apply N.leb_gt; lia);
                     rewrite E; clear E
                   | let E := fresh in
                     assert (E : (k <=? n) = true) by (apply N.leb_le; lia);
                     rewrite E; clear E ]
         end;
  clear C.

Lemma space_not_digit : forall k, isspace k = true -> is_digit k = false.
Proof.
  intros k Hk. pose proof (isspace_cases k Hk) as C. unfold is_digit.
  destruct (48 <=? k) eqn:E1; [|reflexivity].
  destruct (k <=? 57) eqn:E2; [|reflexivity].
  apply N.leb_le in E1. apply N.leb_le in E2. lia.
Qed.

Lemma space_not_hex : forall k, isspace k = true -> hex_value k = None.
Proof.
  intros k Hk. pose proof (isspace_cases k Hk) as C. unfold hex_value.
  repeat match goal with
         | |- context [?a <=? ?b] =>
             let E := fresh in
             destruct (a <=? b) eqn:E;
             [apply N.leb_le in E | apply N.leb_gt in E]
         end; simpl; try reflexivity; lia.
Qed.

Lemma scan_step_finish : forall st acc c x,
  scan_step st acc c = Finish x -> c = 34.
Proof.
  intros st acc c x H.
  assert (P : forall a, plain_step a c = Finish x -> c = 34).
  { intros a. unfold plain_step. destruct (c =? 34) eqn:E.
    - intros _. apply N.eqb_eq. exact E.
    - destruct (c =? 92); [discriminate|].
      destruct (c <? 32); discriminate. }
  assert (Q : forall a, escape_step a c = Finish x -> c = 34).
  { intros a. unfold escape_step. destruct (c =? 117); [discriminate|].
    destruct (backslash c); discriminate. }
  assert (R : forall u a, escaped u a = Finish x -> c = 34).
  { intros u a. unfold escaped. destruct (is_high_surrogate u); discriminate. }
  destruct st as [| |togo u|hi|hi|hi togo u]; simpl in H; eauto.
  - destruct (hex_value c); [|discriminate H].
    destruct togo as [|[|k]]; try discriminate H. eauto.
  - destruct (c =? 92); [discriminate H | eauto].
  - destruct (c =? 117); [discriminate H | eauto].
  - destruct (hex_value c); [|discriminate H].
    destruct togo as [|[|k]]; try discriminate H.
    destruct (is_low_surrogate _); [discriminate H | eauto].
Qed.

Lemma scan_chars_space : forall (t : str) (st : string_state) (acc : str),
  all_space t -> scan_chars st t acc = None.
Proof.
  induction t as [|k t IH]; intros st acc Ht; [reflexivity|].
  inversion Ht as [|? ? Hk Ht']; subst. simpl.
  destruct (scan_step st acc k) as [st' acc'|x|] eqn:E.
  - apply IH. exact Ht'.
  - apply scan_step_finish in E. subst k. discriminate Hk.
  - reflexivity.
Qed.

Lemma scan_chars_app : forall (s t : str) (st : string_state) (acc : str),
  all_space t ->
  scan_chars st (s ++ t) acc = option_followed_by t (scan_chars st s acc).
Proof.
  induction s as [|c s IH]; intros t st acc Ht.
  - simpl. apply scan_chars_space. exact Ht.
  - simpl. destruct (scan_step st acc c) as [st' acc'|x|].
    + apply IH. exact Ht.
    + reflexivity.
    + reflexivity.
Qed.

Lemma skip_ws_app_cases : forall s t : str,
  all_space t ->
  (skip_ws s = [] /\
   (skip_ws (s ++ t) = [] \/
    exists k t', skip_ws (s ++ t) = k :: t' /\ isspace k = true)) \/
  (exists d l, skip_ws s = d :: l /\ skip_ws (s ++ t) = d :: l ++ t).
Proof.
  intros s t Ht. induction s as [|c s IH].
  - left. split; [reflexivity|]. simpl.
    destruct (skip_ws t) as [|k t'] eqn:E; [left; reflexivity|].
    right. exists k, t'. split; [reflexivity|].
    assert (In k t).
    { clear Ht. revert E. unfold skip_ws. induction t as [|a t IHt]; simpl.
      - discriminate.
      - destruct (json_ws a).
        + intros E. right. apply IHt. exact E.
        + intros E. inversion E; subst. left. reflexivity. }
    unfold all_space in Ht. rewrite Forall_forall in Ht. auto.
  - unfold skip_ws in *. simpl. destruct (json_ws c).
    + exact IH.
    + right. exists c, s. split; reflexivity.
Qed.


Lemma span_digits_space : forall t : str,
  all_space t -> span_digits t = ([], t).
Proof.
  intros [|k t] Ht; [reflexivity|]. inversion Ht; subst. simpl.
  rewrite space_not_digit by assumption. reflexivity.
Qed.

Lemma span_digits_app : forall s t : str,
  all_space t ->
  span_digits (s ++ t) = (fst (span_digits s), snd (span_digits s) ++ t).
Proof.
  intros s t Ht. induction s as [|c s IH].
  - simpl. apply span_digits_space. exact Ht.
  - simpl. destruct (is_digit c); [|reflexivity].
    rewrite IH. destruct (span_digits s). reflexivity.
Qed.

Lemma match_int_part_app : forall s t : str,
  all_space t ->
  match_int_part (s ++ t) = option_followed_by t (match_int_part s).
Proof.
  intros s t Ht. destruct s as [|c s].
  - simpl. destruct t as [|k t]; [reflexivity|]. inversion Ht; subst.
    unfold match_int_part. rewrite space_not_digit by assumption.
    space_facts k H1. reflexivity.
  - simpl app. unfold match_int_part.
    destruct (c =? 48); [reflexivity|].
    destruct (is_digit c); [|reflexivity].
    change (c :: s ++ t) with ((c :: s) ++ t).
    rewrite span_digits_app by assumption.
    destruct (span_digits (c :: s)). reflexivity.
Qed.

Lemma match_frac_app : forall s t : str,
  all_space t ->
  match_frac (s ++ t) = (fst (match_frac s), snd (match_frac s) ++ t).
Proof.
  intros s t Ht. destruct s as [|c s].
  - simpl. destruct t as [|k t]; [reflexivity|]. inversion Ht; subst.
    unfold match_frac. space_facts k H1. reflexivity.
  - simpl app. unfold match_frac. destruct (c =? 46); [|reflexivity].
    rewrite span_digits_app by assumption.
    destruct (span_digits s) as [[|d ds] r]; reflexivity.
Qed.

Lemma match_exp_app : forall s t : str,
  all_space t ->
  match_exp (s ++ t) = (fst (match_exp s), snd (match_exp s) ++ t).
Proof.
  intros s t Ht. destruct s as [|c s].
  - simpl. destruct t as [|k t]; [reflexivity|]. inversion Ht; subst.
    unfold match_exp. space_facts k H1. reflexivity.
  - simpl app. unfold match_exp.
    destruct ((c =? 101) || (c =? 69)); [|reflexivity].
    destruct s as [|d s'].
    + simpl app. destruct t as [|k t']; [reflexivity|].
      inversion Ht; subst. space_facts k H1. simpl.
      rewrite space_not_digit by assumption. reflexivity.
    + simpl app. cbv beta iota. destruct ((d =? 45) || (d =? 43)).
      * rewrite span_digits_app by assumption.
        destruct (span_digits s') as [[|x ds] r]; reflexivity.
      * change (d :: s' ++ t) with ((d :: s') ++ t).
        rewrite span_digits_app by assumption.
        destruct (span_digits (d :: s')) as [[|x ds] r]; reflexivity.
Qed.

Lemma match_number_tail : forall (neg : bool) (s0 t : str),
  all_space t ->
  match match_int_part (s0 ++ t) with
  | None => None
  | Some (ip, s1) =>
      let (frac, s2) := match_frac s1 in
      let (ex, s3) := match_exp s2 in
      match frac, ex with
      | [], [] =>
          let n := Z.of_N (N_of_digits ip) in
          Some (PInt (if neg then (- n)%Z else n), s3)
      | _, _ =>
          Some (PFloat ((if neg then [45] else []) ++ ip ++ frac ++ ex), s3)
      end
  end
  = option_followed_by t
      match match_int_part s0 with
      | None => None
      | Some (ip, s1) =>
          let (frac, s2) := match_frac s1 in
          let (ex, s3) := match_exp s2 in
          match frac, ex with
          | [], [] =>
              let n := Z.of_N (N_of_digits ip) in
              Some (PInt (if neg then (- n)%Z else n), s3)
          | _, _ =>
              Some (PFloat ((if neg then [45] else []) ++ ip ++ frac ++ ex), s3)
          end
      end.
Proof.
  intros neg s0 t Ht. rewrite match_int_part_app by assumption.
  destruct (match_int_part s0) as [[ip s1]|]; [|reflexivity].
  cbn [option_followed_by]. cbv beta iota.
  rewrite match_frac_app by assumption.
  destruct (match_frac s1) as [frac s2]. cbn [fst snd]. cbv beta iota.
  rewrite match_exp_app by assumption.
  destruct (match_exp s2) as [ex s3]. cbn [fst snd]. cbv beta iota.
  destruct frac; destruct ex; reflexivity.
Qed.

Lemma match_number_app : forall s t : str,
  all_space t ->
  match_number (s ++ t) = option_followed_by t (match_number s).
Proof.
  intros s t Ht. destruct s as [|c s].
  - simpl app. destruct t as [|k t']; [reflexivity|].
    inversion Ht; subst. unfold match_number.
    space_facts k H1.
    apply (match_number_tail false [] (k :: t') Ht).
  - simpl app. unfold match_number. destruct (c =? 45).
    + apply (match_number_tail true s t Ht).
    + apply (match_number_tail false (c :: s) t Ht).
Qed.

Lemma startswith_app : forall (w s t : str),
  all_space t -> Forall (fun c => isspace c = false) w ->
  startswith (s ++ t) w = startswith s w.
Proof.
  induction w as [|p w IH]; intros s t Ht Hw; [reflexivity|].
  inversion Hw; subst. destruct s as [|c s].
  - simpl. destruct t as [|k t']; [reflexivity|]. inversion Ht; subst.
    destruct (k =? p) eqn:E; [|reflexivity].
    apply N.eqb_eq in E. subst. congruence.
  - simpl. rewrite IH by assumption. reflexivity.
Qed.

Lemma startswith_length : forall (w s : str),
  startswith s w = true -> (length w <= length s)%nat.
Proof.
  induction w as [|p w IH]; intros s H; simpl; [lia|].
  destruct s as [|c s]; [discriminate H|]. simpl in H.
  apply andb_true_iff in H. destruct H as [_ H]. apply IH in H.
  simpl. lia.
Qed.

Lemma scan_literal_app : forall (word : string) (v : pyval) (s t : str),
  all_space t -> Forall (fun c => isspace c = false) (lit word) ->
  scan_literal word v (s ++ t) = option_followed_by t (scan_literal word v s).
Proof.
  intros word v s t Ht Hw. unfold scan_literal.
  rewrite startswith_app by assumption.
  destruct (startswith s (lit word)) eqn:E; [|reflexivity].
  apply startswith_length in E. simpl.
  rewrite skipn_app.
  replace (length (lit word) - length s)%nat with 0%nat by lia.
  reflexivity.
Qed.


Lemma match_number_space : forall (k : N) (s : str),
  isspace k = true -> match_number (k :: s) = None.
Proof.
  intros k s Hk. unfold match_number.
  assert (E : (k =? 45) = false).
  { pose proof (isspace_cases k Hk). apply N.eqb_neq. lia. }
  rewrite E. unfold match_int_part.
  assert (E' : (k =? 48) = false).
  { pose proof (isspace_cases k Hk). apply N.eqb_neq. lia. }
  rewrite E', (space_not_digit k Hk). reflexivity.
Qed.

Lemma scan_once_space : forall (fuel : nat) (k : N) (s : str),
  isspace k = true -> scan_once fuel (k :: s) = scan_once fuel [].
Proof.
  intros [|f] k s Hk; [reflexivity|]. cbn [scan_once].
  rewrite (match_number_space k s Hk). space_facts k Hk. reflexivity.
Qed.

Lemma scan_once_nil : forall (fuel : nat) (t : str),
  followed_by t (scan_once fuel []) = scan_once fuel [].
Proof. intros [|f] t; reflexivity. Qed.

Lemma array_items_space : forall (fuel : nat) (k : N) (s : str) acc,
  isspace k = true -> array_items fuel (k :: s) acc = array_items fuel [] acc.
Proof.
  intros [|f] k s acc Hk; [reflexivity|]. cbn [array_items].
  rewrite scan_once_space by assumption. reflexivity.
Qed.

Lemma array_items_nil : forall (fuel : nat) (t : str) acc,
  followed_by t (array_items fuel [] acc) = array_items fuel [] acc.
Proof.
  intros [|f] t acc; [reflexivity|]. cbn [array_items].
  destruct f; reflexivity.
Qed.

Lemma literal_has_no_space : forall word : string,
  forallb (fun c => negb (isspace c)) (lit word) = true ->
  Forall (fun c => isspace c = false) (lit word).
Proof.
  intros word H. rewrite forallb_forall in H. apply Forall_forall.
  intros c Hc. apply H in Hc. apply negb_true_iff in Hc. exact Hc.
Qed.

Ltac literal_app Ht :=
  repeat match goal with
         | |- context [startswith (?s ++ ?t) (lit ?w)] =>
             rewrite (startswith_app (lit w) s t Ht
                        (literal_has_no_space w eq_refl))
         | |- context [scan_literal ?w ?v (?s ++ ?t)] =>
             rewrite (scan_literal_app w v s t Ht
                        (literal_has_no_space w eq_refl))
         end.


Ltac literal_case :=
  match goal with
  | |- context [scan_of_option (option_followed_by _ ?o)] =>
      destruct o as [[? ?]|]; reflexivity
  end.

Lemma scan_app : forall t : str, all_space t -> forall fuel : nat,
  (forall s, scan_once fuel (s ++ t) = followed_by t (scan_once fuel s)) /\
  (forall s pairs, object_members fuel (s ++ t) pairs
                   = followed_by t (object_members fuel s pairs)) /\
  (forall s acc, array_items fuel (s ++ t) acc
                 = followed_by t (array_items fuel s acc)).
Proof.
  intros t Ht. induction fuel as [|f (IHv & IHo & IHa)].
  - repeat split; reflexivity.
  - split; [|split].
    + intros [|c s1].
      * simpl app. rewrite scan_once_nil.
        destruct t as [|k t']; [reflexivity|]. inversion Ht; subst.
        apply scan_once_space. assumption.
      * simpl app. cbn [scan_once]. unfold scanstring.
        rewrite scan_chars_app by assumption.
        change (c :: s1 ++ t) with ((c :: s1) ++ t).
        rewrite match_number_app by assumption. literal_app Ht.
        destruct (c =? 34).
        { destruct (scan_chars Plain s1 []) as [[x r]|]; reflexivity. }
        destruct (c =? 123).
        { destruct (skip_ws_app_cases s1 t Ht)
            as [[E1 [E2|(k & t' & E2 & Hk)]]|(d & l & E1 & E2)];
            rewrite E1, E2; try reflexivity.
          - space_facts k Hk. reflexivity.
          - destruct (d =? 125); [reflexivity|].
            destruct (d =? 34); [apply IHo | reflexivity]. }
        destruct (c =? 91).
        { destruct (skip_ws_app_cases s1 t Ht)
            as [[E1 [E2|(k & t' & E2 & Hk)]]|(d & l & E1 & E2)];
            rewrite E1, E2.
          - symmetry. apply array_items_nil.
          - space_facts k Hk. rewrite array_items_nil.
            apply array_items_space. exact Hk.
          - destruct (d =? 93); [reflexivity|].
            change (d :: l ++ t) with ((d :: l) ++ t). apply IHa. }
        destruct ((c =? 110) && startswith (c :: s1) (lit "null"));
          [literal_case|].
        destruct ((c =? 116) && startswith (c :: s1) (lit "true"));
          [literal_case|].
        destruct ((c =? 102) && startswith (c :: s1) (lit "false"));
          [literal_case|].
        destruct (match_number (c :: s1)) as [[v r]|]; [reflexivity|].
        cbn [option_followed_by].
        destruct ((c =? 78) && startswith (c :: s1) (lit "NaN"));
          [literal_case|].
        destruct ((c =? 73) && startswith (c :: s1) (lit "Infinity"));
          [literal_case|].
        destruct ((c =? 45) && startswith (c :: s1) (lit "-Infinity"));
          [literal_case|].
        reflexivity.
    + intros s pairs. cbn [object_members]. unfold scanstring.
      rewrite scan_chars_app by assumption.
      destruct (scan_chars Plain s []) as [[key s1]|]; [|reflexivity].
      cbn [option_followed_by].
      destruct (skip_ws_app_cases s1 t Ht)
        as [[E1 [E2|(k & t' & E2 & Hk)]]|(d & s2 & E1 & E2)];
        rewrite E1, E2; try reflexivity.
      { space_facts k Hk. reflexivity. }
      destruct (d =? 58); [|reflexivity].
      assert (V : scan_once f (skip_ws (s2 ++ t))
                  = followed_by t (scan_once f (skip_ws s2))).
      { destruct (skip_ws_app_cases s2 t Ht)
          as [[E3 [E4|(k & t' & E4 & Hk)]]|(e & s3 & E3 & E4)];
          rewrite E3, E4.
        - symmetry. apply scan_once_nil.
        - rewrite scan_once_nil. apply scan_once_space. exact Hk.
        - change (e :: s3 ++ t) with ((e :: s3) ++ t). apply IHv. }
      rewrite V.
      destruct (scan_once f (skip_ws s2)) as [v s3| |]; try reflexivity.
      cbn [followed_by].
      destruct (skip_ws_app_cases s3 t Ht)
        as [[E5 [E6|(k & t' & E6 & Hk)]]|(e & s4 & E5 & E6)];
        rewrite E5, E6; try reflexivity.
      { space_facts k Hk. reflexivity. }
      destruct (e =? 125); [reflexivity|].
      destruct (e =? 44); [|reflexivity].
      destruct (skip_ws_app_cases s4 t Ht)
        as [[E7 [E8|(k & t' & E8 & Hk)]]|(q & s5 & E7 & E8)];
        rewrite E7, E8; try reflexivity.
      { space_facts k Hk. reflexivity. }
      destruct (q =? 34); [apply IHo | reflexivity].
    + intros s acc. cbn [array_items]. rewrite IHv.
      destruct (scan_once f s) as [v s1| |]; try reflexivity.
      cbn [followed_by].
      destruct (skip_ws_app_cases s1 t Ht)
        as [[E1 [E2|(k & t' & E2 & Hk)]]|(d & s2 & E1 & E2)];
        rewrite E1, E2; try reflexivity.
      { space_facts k Hk. reflexivity. }
      destruct (d =? 93); [reflexivity|].
      destruct (d =? 44); [|reflexivity].
      destruct (skip_ws_app_cases s2 t Ht)
        as [[E3 [E4|(k & t' & E4 & Hk)]]|(e & s3 & E3 & E4)];
        rewrite E3, E4.
      * symmetry. apply array_items_nil.
      * rewrite array_items_nil. apply array_items_space. exact Hk.
      * change (e :: s3 ++ t) with ((e :: s3) ++ t). apply IHa.
Qed.


(** ** More fuel does not change a result *)

Lemma scan_fuel_step : forall fuel : nat,
  (forall s, scan_once fuel s <> Exhausted ->
             scan_once (S fuel) s = scan_once fuel s) /\
  (forall s pairs, object_members fuel s pairs <> Exhausted ->
                   object_members (S fuel) s pairs
                   = object_members fuel s pairs) /\
  (forall s acc, array_items fuel s acc <> Exhausted ->
                 array_items (S fuel) s acc = array_items fuel s acc).
Proof.
  induction fuel as [|f (IHv & IHo & IHa)].
  - repeat split; intros; exfalso; auto.
  - split; [|split].
    + intros s H. destruct s as [|c s1]; [reflexivity|].
      revert H. cbn [scan_once].
      destruct (c =? 34); [reflexivity|].
      destruct (c =? 123).
      { destruct (skip_ws s1) as [|d s2]; [reflexivity|].
        destruct (d =? 125); [reflexivity|].
        destruct (d =? 34); [apply IHo | reflexivity]. }
      destruct (c =? 91).
      { destruct (skip_ws s1) as [|d s2]; [apply IHa|].
        destruct (d =? 93); [reflexivity | apply IHa]. }
      reflexivity.
    + intros s pairs H. revert H. cbn [object_members].
      destruct (scanstring s []) as [[key s1]|]; [|reflexivity].
      destruct (skip_ws s1) as [|c s2]; [reflexivity|].
      destruct (c =? 58); [|reflexivity].
      destruct (scan_once f (skip_ws s2)) as [v s3| |] eqn:E.
      * rewrite (IHv (skip_ws s2)) by (rewrite E; discriminate).
        rewrite E.
        destruct (skip_ws s3) as [|d s4]; [reflexivity|].
        destruct (d =? 125); [reflexivity|].
        destruct (d =? 44); [|reflexivity].
        destruct (skip_ws s4) as [|q s5]; [reflexivity|].
        destruct (q =? 34); [apply IHo | reflexivity].
      * rewrite (IHv (skip_ws s2)) by (rewrite E; discriminate).
        rewrite E. reflexivity.
      * intros H. exfalso. apply H. reflexivity.
    + intros s acc H. revert H. cbn [array_items].
      destruct (scan_once f s) as [v s1| |] eqn:E.
      * rewrite (IHv s) by (rewrite E; discriminate). rewrite E.
        destruct (skip_ws s1) as [|d s2]; [reflexivity|].
        destruct (d =? 93); [reflexivity|].
        destruct (d =? 44); [apply IHa | reflexivity].
      * rewrite (IHv s) by (rewrite E; discriminate). rewrite E.
        reflexivity.
      * intros H. exfalso. apply H. reflexivity.
Qed.

Lemma scan_fuel_more : forall (extra fuel : nat) (s : str),
  scan_once fuel s <> Exhausted ->
  scan_once (extra + fuel) s = scan_once fuel s.
Proof.
  induction extra as [|n IH]; intros fuel s H; [reflexivity|].
  change (S n + fuel)%nat with (S (n + fuel)).
  rewrite (proj1 (scan_fuel_step (n + fuel)) s).
  - apply IH. exact H.
  - rewrite IH by exact H. exact H.
Qed.


(** ** Trimming keeps a JSON text *)

Lemma scan_once_nil_fails : forall (fuel : nat) (v : pyval) (rest : str),
  scan_once fuel [] <> Scanned v rest.
Proof. intros [|f] v rest; discriminate. Qed.

Lemma scanned_head : forall (fuel : nat) (c : N) (s : str) (v : pyval)
                            (rest : str),
  scan_once fuel (c :: s) = Scanned v rest ->
  isspace c = false /\ c <> 0xFEFF.
Proof.
  intros fuel c s v rest H. split.
  - destruct (isspace c) eqn:E; [|reflexivity].
    rewrite (scan_once_space fuel c s E) in H.
    exfalso. exact (scan_once_nil_fails fuel v rest H).
  - intros ->. destruct fuel as [|f]; [discriminate H|].
    cbn in H. discriminate H.
Qed.

Lemma dropwhile_split : forall (p : N -> bool) (l : str),
  exists w, l = w ++ dropwhile p l /\ Forall (fun c => p c = true) w.
Proof.
  intros p l. induction l as [|c l (w & E & Hw)].
  - exists []. split; [reflexivity | constructor].
  - simpl. destruct (p c) eqn:Pc.
    + exists (c :: w). split; [simpl; congruence | constructor; assumption].
    + exists []. split; [reflexivity | constructor].
Qed.

Lemma rstrip_split : forall s : str,
  exists w, s = rstrip s ++ w /\ all_space w.
Proof.
  intros s. destruct (dropwhile_split isspace (rev s)) as (w & E & Hw).
  exists (rev w). split.
  - unfold rstrip. rewrite <- rev_app_distr, <- E, rev_involutive.
    reflexivity.
  - unfold all_space. apply Forall_rev. exact Hw.
Qed.

Lemma lstrip_of_json : forall (raw : str) (fuel : nat) (v : pyval)
                              (rest : str),
  scan_once fuel (skip_ws raw) = Scanned v rest ->
  lstrip raw = skip_ws raw.
Proof.
  intros raw fuel v rest. unfold lstrip, skip_ws.
  induction raw as [|c raw IH]; intros H; [reflexivity|].
  simpl in *. destruct (json_ws c) eqn:W.
  - rewrite (json_ws_isspace c W). apply IH. exact H.
  - destruct (scanned_head fuel c raw v rest H) as [Hs _].
    rewrite Hs. reflexivity.
Qed.

Lemma skip_ws_of_value : forall (y : str) (fuel : nat) (v : pyval)
                                (rest : str),
  scan_once fuel y = Scanned v rest ->
  skip_ws y = y /\ startswith y [0xFEFF] = false.
Proof.
  intros [|c y] fuel v rest H.
  - exfalso. exact (scan_once_nil_fails fuel v rest H).
  - destruct (scanned_head fuel c y v rest H) as [Hs Hb]. split.
    + unfold skip_ws. simpl. destruct (json_ws c) eqn:W; [|reflexivity].
      apply json_ws_isspace in W. congruence.
    + simpl. apply N.eqb_neq in Hb. rewrite Hb. reflexivity.
Qed.

(** A raw text that [json.loads] accepts is accepted, with the same
    value, after [strip()]. *)
Lemma json_loads_strip : forall (raw : str) (v : pyval),
  json_loads raw = Some v -> json_loads (strip raw) = Some v.
Proof.
  intros raw v H. unfold json_loads in H.
  destruct (startswith raw [0xFEFF]); [discriminate H|].
  destruct (scan_once (json_fuel raw) (skip_ws raw)) as [v' rest| |] eqn:E;
    try discriminate H.
  destruct (skip_ws rest) as [|x xs] eqn:R; [|discriminate H].
  inversion H; subst v'. clear H.
  unfold strip. rewrite (lstrip_of_json raw _ _ _ E).
  destruct (rstrip_split (skip_ws raw)) as (w & Hy & Hw).
  set (y := rstrip (skip_ws raw)) in *.
  rewrite Hy in E. rewrite (proj1 (scan_app w Hw (json_fuel raw))) in E.
  destruct (scan_once (json_fuel raw) y) as [v1 r| |] eqn:Ey;
    try discriminate E.
  cbn [followed_by] in E. inversion E; subst v1 rest. clear E.
  destruct (skip_ws_of_value y _ _ _ Ey) as [Hskip Hbom].
  assert (Hr : skip_ws r = []).
  { destruct (skip_ws_app_cases r w Hw)
      as [[E1 _]|(d & l & _ & E2)]; [exact E1|].
    rewrite E2 in R. discriminate R. }
  assert (Hlen : (length y <= length raw)%nat).
  { pose proof (dropwhile_length json_ws raw) as L. fold (skip_ws raw) in L.
    rewrite Hy in L. rewrite length_app in L. lia. }
  assert (Hfuel : scan_once (json_fuel y) y = Scanned v r).
  { assert (Hne : scan_once (json_fuel y) y <> Exhausted).
    { apply (proj1 (scan_not_exhausted (json_fuel y))).
      unfold json_fuel. lia. }
    rewrite <- (scan_fuel_more (json_fuel raw - json_fuel y) _ _ Hne).
    replace (json_fuel raw - json_fuel y + json_fuel y)%nat
      with (json_fuel raw) by (unfold json_fuel; lia).
    exact Ey. }
  unfold json_loads. rewrite Hbom, Hskip, Hfuel, Hr. reflexivity.
Qed.

(** ** The authenticator *)

Section Authenticator.
Context {env : PyEnv}.

Lemma check_api_key_cases : forall (cfg : Config) (req : Request),
  _check_api_key cfg req =
    if str_eqb (API_KEY cfg) [] then
      inl (HTTPException 500 (lit "Server API_KEY not configured"))
    else if str_eqb (strip (presented req)) (lit "Bearer " ++ API_KEY cfg)
         then inr tt
         else inl (HTTPException 403 (lit "Forbidden")).
Proof.
  intros cfg req. unfold _check_api_key, presented. simpl py_bool.
  rewrite negb_involutive.
  destruct (str_eqb (API_KEY cfg) []); [reflexivity|].
  destruct (str_eqb _ _); reflexivity.
Qed.

(** C2, as the code has it: with a configured secret, the authenticator
    passes exactly when the presented header, trimmed of leading and
    trailing white space (a missing header counting as empty), is
    "Bearer " followed by the secret; any other header is refused with
    403. *)
Theorem check_api_key_trimmed_bearer : forall (cfg : Config) (req : Request),
  API_KEY cfg <> [] ->
  (_check_api_key cfg req = inr tt <->
   strip (presented req) = lit "Bearer " ++ API_KEY cfg) /\
  (strip (presented req) <> lit "Bearer " ++ API_KEY cfg ->
   _check_api_key cfg req = inl (HTTPException 403 (lit "Forbidden"))).
Proof.
  intros cfg req Hkey. rewrite check_api_key_cases.
  apply str_eqb_neq in Hkey. rewrite Hkey.
  destruct (str_eqb (strip (presented req)) (lit "Bearer " ++ API_KEY cfg))
    eqn:E.
  - apply str_eqb_eq in E. split; [tauto | contradiction].
  - apply str_eqb_neq in E. split; [|reflexivity].
    split; [discriminate | contradiction].
Qed.

End Authenticator.


(** ** Configuration errors *)

Section Configuration.
Context {env : PyEnv}.

(** C3, as the code has it: with the inbound secret unset every call
    fails with the 500 configuration error, whatever header it carries
    and before any outbound call; with the provider key unset every call
    that passes the authenticator fails with the 500 configuration
    error, before any outbound call. *)
Theorem configuration_errors :
  forall (cfg : Config) (world : World) (payload : AnalyzeRequest)
         (req : Request),
  (API_KEY cfg = [] ->
   analyze_onedrive_image cfg world payload req =
     ([], inl (HTTPException 500 (lit "Server API_KEY not configured")))) /\
  (GEMINI_API_KEY cfg = [] ->
   _check_api_key cfg req = inr tt ->
   analyze_onedrive_image cfg world payload req =
     ([], inl (HTTPException 500 (lit "GEMINI_API_KEY not configured")))).
Proof.
  intros cfg world payload req. split.
  - intros Hkey. unfold analyze_onedrive_image, lift, bind.
    rewrite check_api_key_cases, Hkey. reflexivity.
  - intros Hkey Hauth. unfold analyze_onedrive_image, lift, bind.
    rewrite Hauth, Hkey. reflexivity.
Qed.

End Configuration.



(** ** The image fetch *)

Lemma run_bind : forall (A B : Type) (m : M A) (k : A -> M B),
  bind m k =
    match snd m with
    | inl e => (fst m, inl e)
    | inr a => (fst m ++ fst (k a), snd (k a))
    end.
Proof.
  intros A B [tr [e|a]] k; simpl; [reflexivity|].
  destruct (k a); reflexivity.
Qed.

Section Fetch.
Context {env : PyEnv}.

(** C8: whenever the image fetch returns a status other than 200, the
    handler fails with a 404 whose detail contains that status, and no
    inference call is made; a fetched 404 gives a detail that contains
    "404". *)
Theorem fetch_failure_is_404 :
  forall (cfg : Config) (world : World) (payload : AnalyzeRequest)
         (req : Request) (url : str) (r : Response),
  In (Get url (Returned r))
     (fst (analyze_onedrive_image cfg world payload req)) ->
  status_code r <> 200%Z ->
  exists detail,
    snd (analyze_onedrive_image cfg world payload req)
      = inl (HTTPException 404 detail) /\
    contains detail (str_of_Z (status_code r)) /\
    (status_code r = 404%Z -> contains detail (lit "404")) /\
    (forall e, In e (fst (analyze_onedrive_image cfg world payload req)) ->
               is_post e = false).
Proof.
  intros cfg world payload req url r Hin Hstatus. revert Hin.
  unfold analyze_onedrive_image. rewrite run_bind. unfold lift at 1.
  cbn [fst snd].
  destruct (_check_api_key cfg req); [intros []|].
  destruct (negb (py_bool (PStr (GEMINI_API_KEY cfg)))); [intros []|].
  rewrite run_bind. unfold client_get. cbn [fst snd app].
  destruct (http_get world (downloadUrl payload)) as [r0|] eqn:Hget;
    cbn [of_outcome fst snd app].
  - destruct (negb (status_code r0 =? 200)%Z) eqn:Hcode.
    + simpl. intros [H|[]]. inversion H; subst.
      eexists. split; [reflexivity|]. split; [|split].
      * exists (lit "Failed to fetch image from OneDrive (status "), (lit ")").
        reflexivity.
      * intros ->.
        exists (lit "Failed to fetch image from OneDrive (status "), (lit ")").
        reflexivity.
      * intros ev [<-|[]]. reflexivity.
    + apply negb_false_iff, Z.eqb_eq in Hcode.
      intros [H|H]; [inversion H; subst; contradiction|].
      exfalso. revert H. rewrite run_bind. unfold client_post.
      cbn [fst snd app].
      destruct (of_outcome (http_post world _ _)) as [e|a];
        [intros [H|[]]; discriminate|].
      cbn [fst snd app].
      destruct (negb (status_code a =? 200)%Z);
        [intros [H|[]]; discriminate|].
      destruct (json_body a) as [data|]; [|intros [H|[]]; discriminate].
      destruct (raw_text_of data); intros [H|[]]; discriminate.
  - intros [H|[]]. discriminate.
Qed.

End Fetch.


(** ** The MIME guesser *)

Lemma endswith_iff : forall s suf : str,
  endswith s suf = true <-> exists pre, s = pre ++ suf.
Proof.
  intros s suf. unfold endswith. rewrite str_eqb_eq. split.
  - set (n := (length s - length suf)%nat). intros H.
    exists (firstn n s). rewrite <- H. symmetry. apply firstn_skipn.
  - intros [pre ->]. rewrite length_app.
    replace (length pre + length suf - length suf)%nat with (length pre)
      by lia.
    rewrite skipn_app, skipn_all, Nat.sub_diag. reflexivity.
Qed.

Lemma endswith_length_clash : forall (u a b : str),
  endswith u a = true -> endswith u b = true ->
  exists n, firstn n (rev a) = firstn n (rev b)
            /\ n = Nat.min (length a) (length b).
Proof.
  intros u a b Ha Hb.
  apply endswith_iff in Ha. apply endswith_iff in Hb.
  destruct Ha as [pa Ha]. destruct Hb as [pb Hb].
  exists (Nat.min (length a) (length b)). split; [|reflexivity].
  assert (Hr : rev a ++ rev pa = rev b ++ rev pb).
  { rewrite <- !rev_app_distr. congruence. }
  assert (firstn (Nat.min (length a) (length b)) (rev a ++ rev pa)
          = firstn (Nat.min (length a) (length b)) (rev b ++ rev pb))
    by (rewrite Hr; reflexivity).
  rewrite !firstn_app in H.
  rewrite !length_rev in H.
  replace (Nat.min (length a) (length b) - length a)%nat with 0%nat in H
    by lia.
  replace (Nat.min (length a) (length b) - length b)%nat with 0%nat in H
    by lia.
  simpl in H. rewrite !app_nil_r in H. exact H.
Qed.

Section Mime.
Context {env : PyEnv}.

Lemma lower_from_lowered : forall (s : str) (rest : str) (i : nat),
  lowered rest (lower_from s i rest).
Proof.
  intros s rest. induction rest as [|c rest IH]; intros i; simpl.
  - constructor.
  - destruct (c <? 128) eqn:E.
    + apply N.ltb_lt in E. simpl. constructor; auto.
    + apply N.ltb_ge in E.
      destruct (@lower_nonascii_spec _ s i c E) as [Hne Hall].
      constructor; auto.
Qed.

End Mime.

Lemma lowered_plain : forall u o,
  lowered u o -> Forall plain_ascii o ->
  Forall (fun c => c < 128) u /\ List.map ascii_lower u = o.
Proof.
  induction 1 as [|c s out Hc Hl IH|c s piece out Hc Hne Hall Hl IH];
    intros Hp.
  - split; constructor.
  - inversion Hp; subst. destruct (IH H2) as [Ha Hm].
    split; [constructor; auto | simpl; congruence].
  - destruct piece as [|d piece]; [contradiction|].
    inversion Hp; subst. inversion Hall; subst. contradiction.
Qed.

Lemma lowered_suffix : forall u o,
  lowered u o -> forall pre suf, o = pre ++ suf -> Forall plain_ascii suf ->
  exists upre tail,
    u = upre ++ tail /\ Forall (fun c => c < 128) tail
    /\ List.map ascii_lower tail = suf.
Proof.
  induction 1 as [|c s out Hc Hl IH|c s piece out Hc Hne Hall Hl IH];
    intros pre suf Ho Hp.
  - symmetry in Ho. apply app_eq_nil in Ho. destruct Ho as [-> ->].
    exists [], []. repeat split; constructor.
  - destruct pre as [|p pre]; simpl in Ho.
    + subst suf. inversion Hp; subst.
      destruct (lowered_plain _ _ Hl H2) as [Ha Hm].
      exists [], (c :: s). repeat split; [constructor; auto|].
      simpl. congruence.
    + inversion Ho; subst.
      destruct (IH pre suf eq_refl Hp) as (upre & tail & -> & Ha & Hm).
      exists (c :: upre), tail. auto.
  - apply app_eq_app in Ho. destruct Ho as [l [[Hpiece Hsuf]|[Hpre Hout]]].
    + destruct l as [|d l].
      * rewrite app_nil_r in Hpiece. simpl in Hsuf. subst.
        destruct (IH [] out eq_refl Hp) as (upre & tail & -> & Ha & Hm).
        exists (c :: upre), tail. auto.
      * subst. inversion Hp; subst.
        apply Forall_app in Hall. destruct Hall as [_ Hall].
        inversion Hall; subst. contradiction.
    + destruct (IH l suf Hout Hp) as (upre & tail & -> & Ha & Hm).
      exists (c :: upre), tail. auto.
Qed.


Lemma same_ignoring_case_lower : forall c d,
  lower_ext d -> (same_ignoring_case c d <-> c < 128 /\ ascii_lower c = d).
Proof.
  intros c d [[Hd _] Hup]. unfold same_ignoring_case, ascii_lower.
  destruct ((65 <=? c) && (c <=? 90)) eqn:E.
  - apply andb_true_iff in E. rewrite N.leb_le, N.leb_le in E. lia.
  - apply andb_false_iff in E. rewrite N.leb_gt, N.leb_gt in E. lia.
Qed.

Lemma ignoring_case_tail : forall tail suf,
  Forall lower_ext suf ->
  (Forall2 same_ignoring_case tail suf <->
   Forall (fun c => c < 128) tail /\ List.map ascii_lower tail = suf).
Proof.
  intros tail suf Hs. revert tail.
  induction Hs as [|d suf Hd Hs IH]; intros tail.
  - split.
    + intros H. inversion H. split; constructor.
    + intros [_ H]. destruct tail; [constructor | discriminate].
  - split.
    + intros H. inversion H as [|c d' t s' Hc Ht]; subst.
      apply (same_ignoring_case_lower c _ Hd) in Hc. apply IH in Ht.
      destruct Hc as [Hc1 Hc2]. destruct Ht as [Ht1 Ht2].
      split; [constructor; auto | simpl; congruence].
    + intros [Ha Hm]. destruct tail as [|c t]; [discriminate|].
      inversion Ha; subst. simpl in Hm. inversion Hm; subst.
      constructor.
      * apply (same_ignoring_case_lower c _ Hd). auto.
      * apply IH. auto.
Qed.

Section MimeTable.
Context {env : PyEnv}.

Lemma lower_from_ascii : forall (s tail : str) (i : nat),
  Forall (fun c => c < 128) tail ->
  lower_from s i tail = List.map ascii_lower tail.
Proof.
  intros s tail. induction tail as [|c tail IH]; intros i Ha; simpl.
  - reflexivity.
  - inversion Ha; subst.
    assert (E : (c <? 128) = true) by (apply N.ltb_lt; assumption).
    rewrite E. simpl. f_equal. apply IH. assumption.
Qed.

Lemma lower_from_app : forall (s upre tail : str) (i : nat),
  lower_from s i (upre ++ tail)
  = lower_from s i upre ++ lower_from s (i + length upre) tail.
Proof.
  intros s upre tail. induction upre as [|c upre IH]; intros i; simpl.
  - rewrite Nat.add_0_r. reflexivity.
  - rewrite IH, <- app_assoc. do 3 f_equal. lia.
Qed.

(** [lower] followed by [endswith] decides a case-insensitive ending. *)
Lemma endswith_lower_ci : forall (url : str) (ext : string),
  Forall lower_ext (lit ext) ->
  (endswith (lower url) (lit ext) = true <-> ends_with_ci url ext).
Proof.
  intros url ext Hext. rewrite endswith_iff. unfold ends_with_ci. split.
  - intros [pre Hpre].
    assert (Hplain : Forall plain_ascii (lit ext)).
    { eapply Forall_impl; [|exact Hext]. intros d [Hd _]. exact Hd. }
    destruct (lowered_suffix _ _ (lower_from_lowered url url 0) pre _ Hpre Hplain)
      as (upre & tail & Hu & Ha & Hm).
    exists upre, tail. split; [exact Hu|].
    apply ignoring_case_tail; auto.
  - intros (upre & tail & -> & Hci).
    apply ignoring_case_tail in Hci; [|exact Hext].
    destruct Hci as [Ha Hm].
    exists (lower_from (upre ++ tail) 0 upre).
    unfold lower. rewrite lower_from_app.
    rewrite (lower_from_ascii (upre ++ tail) tail _ Ha). congruence.
Qed.

Lemma ext_png : Forall lower_ext (lit ".png").
Proof. repeat constructor; cbv; try discriminate; intuition discriminate. Qed.
Lemma ext_jpg : Forall lower_ext (lit ".jpg").
Proof. repeat constructor; cbv; try discriminate; intuition discriminate. Qed.
Lemma ext_jpeg : Forall lower_ext (lit ".jpeg").
Proof. repeat constructor; cbv; try discriminate; intuition discriminate. Qed.
Lemma ext_webp : Forall lower_ext (lit ".webp").
Proof. repeat constructor; cbv; try discriminate; intuition discriminate. Qed.

Ltac clash H1 H2 :=
  destruct (endswith_length_clash _ _ _ H1 H2) as [n [Hn ->]];
  vm_compute in Hn; discriminate.

(** C7: the guessed type is decided, case-insensitively, by the ending
    of the URL: [.png] gives image/png, [.jpg] and [.jpeg] give
    image/jpeg, [.webp] gives image/webp, anything else image/png. *)
Theorem guess_mime_table : forall url : str,
  (ends_with_ci url ".png" -> _guess_mime url = lit "image/png") /\
  (ends_with_ci url ".jpg" \/ ends_with_ci url ".jpeg" ->
   _guess_mime url = lit "image/jpeg") /\
  (ends_with_ci url ".webp" -> _guess_mime url = lit "image/webp") /\
  (~ ends_with_ci url ".png" -> ~ ends_with_ci url ".jpg" ->
   ~ ends_with_ci url ".jpeg" -> ~ ends_with_ci url ".webp" ->
   _guess_mime url = lit "image/png").
Proof.
  intros url.
  rewrite <- (endswith_lower_ci url ".png" ext_png),
    <- (endswith_lower_ci url ".jpg" ext_jpg),
    <- (endswith_lower_ci url ".jpeg" ext_jpeg),
    <- (endswith_lower_ci url ".webp" ext_webp).
  unfold _guess_mime.
  destruct (endswith (lower url) (lit ".png")) eqn:Epng;
  destruct (endswith (lower url) (lit ".jpg")) eqn:Ejpg;
  destruct (endswith (lower url) (lit ".jpeg")) eqn:Ejpeg;
  destruct (endswith (lower url) (lit ".webp")) eqn:Ewebp;
  try (clash Epng Ejpg); try (clash Epng Ejpeg); try (clash Epng Ewebp);
  try (clash Ejpg Ewebp); try (clash Ejpeg Ewebp); try (clash Ejpg Ejpeg);
  simpl; repeat split; try reflexivity; try congruence;
  try (intros [H|H]; congruence); intuition congruence.
Qed.

End MimeTable.


(** ** The response normaliser *)

Lemma extract_direct : forall (raw : str) (v : pyval),
  json_loads (strip raw) = Some v -> _extract_text_from_gemini raw = v.
Proof.
  intros raw v H. unfold _extract_text_from_gemini. rewrite H. reflexivity.
Qed.

Lemma extract_embedded : forall raw a m b : str,
  json_loads (strip raw) = None ->
  braces (strip raw) a m b ->
  _extract_text_from_gemini raw =
    match json_loads ([123] ++ m ++ [125]) with
    | Some v => v
    | None => fallback (strip raw)
    end.
Proof.
  intros raw a m b Hnone Hb. unfold _extract_text_from_gemini.
  rewrite Hnone.
  destruct (braces_found _ _ _ _ Hb) as (Hf & Hr & Hs).
  rewrite Hs, Hf, Hr.
  assert (E1 : (Z.of_nat (length a) =? -1)%Z = false) by (apply Z.eqb_neq; lia).
  assert (E2 : (Z.of_nat (length a) + 1 + Z.of_nat (length m) =? -1)%Z = false)
    by (apply Z.eqb_neq; lia).
  assert (E3 : (Z.of_nat (length a) + 1 + Z.of_nat (length m)
                >? Z.of_nat (length a))%Z = true)
    by (apply Z.gtb_lt; lia).
  rewrite E1, E2, E3. reflexivity.
Qed.

Lemma extract_fallback : forall raw : str,
  json_loads (strip raw) = None ->
  (forall a m b, braces (strip raw) a m b ->
                 json_loads ([123] ++ m ++ [125]) = None) ->
  _extract_text_from_gemini raw = fallback (strip raw).
Proof.
  intros raw Hnone Hsub.
  destruct (Z.eq_dec (find (strip raw) (lit "{")) (-1)) as [F|F].
  { unfold _extract_text_from_gemini. rewrite Hnone, F. reflexivity. }
  destruct (Z.eq_dec (rfind (strip raw) (lit "}")) (-1)) as [R|R].
  { unfold _extract_text_from_gemini. rewrite Hnone, R.
    rewrite andb_false_r. reflexivity. }
  destruct (Z_gt_dec (rfind (strip raw) (lit "}")) (find (strip raw) (lit "{")))
    as [G|G].
  - destruct (found_braces _ F R G) as (a & m & b & Hb).
    rewrite (extract_embedded raw a m b Hnone Hb), (Hsub a m b Hb).
    reflexivity.
  - unfold _extract_text_from_gemini. rewrite Hnone.
    assert (E : (rfind (strip raw) (lit "}") >? find (strip raw) (lit "{"))%Z
                = false).
    { destruct (_ >? _)%Z eqn:E; [|reflexivity].
      apply Z.gtb_lt in E. lia. }
    rewrite E, andb_false_r. reflexivity.
Qed.

Section Normaliser.
Context {env : PyEnv}.

Lemma validate_str_text : forall s : str, validate_str (PStr s) = Some s.
Proof. intros s. unfold validate_str. destruct pydantic; reflexivity. Qed.

Lemma validate_all_texts : forall ls : list str,
  validate_all (List.map PStr ls) = Some ls.
Proof.
  induction ls as [|s ls IH]; cbn [validate_all List.map]; [reflexivity|].
  rewrite validate_str_text, IH. reflexivity.
Qed.

(** The response built from text arguments and a list of texts. *)
Lemma new_response_of_texts : forall (a i e n : str) (ls : list str),
  new_AnalyzeResponse (PStr a) (PStr i) (PStr e) (PList (List.map PStr ls))
                      (PStr n)
  = inr {| answer := a; imageSummary := Some i; extractedText := Some e;
           detectedLanguages := Some ls; safetyNotes := Some n |}.
Proof.
  intros. unfold new_AnalyzeResponse.
  cbn [validate_optional_str validate_optional_list option_map].
  rewrite !validate_str_text, validate_all_texts. reflexivity.
Qed.

Lemma shape_response_dict : forall d : list (str * pyval),
  shape_response (PDict d) =
    new_AnalyzeResponse
      (PStr (py_str (dict_get d (lit "answer") (PStr []))))
      (PStr (py_str (dict_get d (lit "imageSummary") (PStr []))))
      (PStr (py_str (dict_get d (lit "extractedText") (PStr []))))
      (py_or (dict_get d (lit "detectedLanguages") (PList [])) (PList []))
      (PStr (py_str (dict_get d (lit "safetyNotes") (PStr [])))).
Proof. reflexivity. Qed.

Lemma shape_response_other : forall v : pyval,
  (forall d, v <> PDict d) -> shape_response v = inl AttributeError.
Proof.
  intros v Hv. destruct v; try reflexivity. exfalso. eapply Hv. reflexivity.
Qed.

Lemma coerced_text_get : forall (d : list (str * pyval)) (key : string),
  py_str (dict_get d (lit key) (PStr [])) = coerced_text env d key.
Proof.
  intros d key. unfold dict_get, coerced_text.
  destruct (dict_lookup d (lit key)); reflexivity.
Qed.

Lemma languages_of_or : forall (d : list (str * pyval)) (ls : list str),
  languages_of env d ls ->
  py_or (dict_get d (lit "detectedLanguages") (PList [])) (PList [])
  = PList (List.map PStr ls).
Proof.
  intros d ls H. unfold py_or, dict_get. destruct H as [H|v H Hv|ls H].
  - rewrite H. reflexivity.
  - rewrite H, Hv. reflexivity.
  - rewrite H. destruct ls; reflexivity.
Qed.

End Normaliser.


Section NormaliserClaims.
Context {env : PyEnv}.

(** C4: the normaliser is the ordered chain: the trimmed text is parsed
    as JSON and the parsed value used; failing that, the text from the
    first opening brace to the last closing brace, when the last comes
    after the first, is parsed and that value used.  On the text
    [noise {"answer":"x"} trailing] it recovers the object with the one
    key [answer], and the other fields of the response take their
    defaults. *)
Theorem extraction_chain : forall raw : str,
  (forall v, json_loads (strip raw) = Some v ->
             _extract_text_from_gemini raw = v) /\
  (forall a m b v,
     json_loads (strip raw) = None ->
     braces (strip raw) a m b ->
     json_loads ([123] ++ m ++ [125]) = Some v ->
     _extract_text_from_gemini raw = v) /\
  _extract_text_from_gemini embedded_reply
    = PDict [(lit "answer", PStr (lit "x"))] /\
  normalize embedded_reply = inr (answer_only (lit "x")).
Proof.
  intros raw. split; [|split; [|split]].
  - intros v H. apply extract_direct. exact H.
  - intros a m b v Hnone Hb Hsub.
    rewrite (extract_embedded raw a m b Hnone Hb), Hsub. reflexivity.
  - vm_compute. reflexivity.
  - unfold normalize.
    replace (_extract_text_from_gemini embedded_reply)
      with (PDict [(lit "answer", PStr (lit "x"))])
      by (vm_compute; reflexivity).
    rewrite shape_response_dict.
    exact (new_response_of_texts (lit "x") [] [] [] []).
Qed.

(** C5, as the code has it: when the trimmed text is not JSON and the
    text between its first opening and last closing brace, if any, is
    not JSON either, the normaliser wraps the trimmed text: [answer] is
    the raw text without its leading and trailing white space, the
    summary and the extracted text are empty, the languages are the
    empty list and the notes are the fixed fallback marker. *)
Theorem fallback_wraps_trimmed_text : forall raw : str,
  json_loads (strip raw) = None ->
  (forall a m b, braces (strip raw) a m b ->
                 json_loads ([123] ++ m ++ [125]) = None) ->
  _extract_text_from_gemini raw = fallback (strip raw) /\
  normalize raw = inr (fallback_response (strip raw)).
Proof.
  intros raw Hnone Hsub.
  pose proof (extract_fallback raw Hnone Hsub) as E.
  split; [exact E|].
  unfold normalize. rewrite E. unfold fallback.
  rewrite shape_response_dict.
  exact (new_response_of_texts (strip raw) [] [] fallback_marker []).
Qed.

(** Where the languages need no coercion (the key is absent, its value
    falsy or a list of texts), the response is built: a text field is
    the empty text when its key is missing and [str(value)] otherwise,
    and the languages are the empty list (never null) when the key is
    missing or falsy, the listed texts otherwise. *)
Lemma fields_coerced : forall (d : list (str * pyval)) (ls : list str),
  languages_of env d ls ->
  shape_response (PDict d)
  = inr {| answer := coerced_text env d "answer";
           imageSummary := Some (coerced_text env d "imageSummary");
           extractedText := Some (coerced_text env d "extractedText");
           detectedLanguages := Some ls;
           safetyNotes := Some (coerced_text env d "safetyNotes") |}.
Proof.
  intros d ls Hl. rewrite shape_response_dict.
  rewrite (languages_of_or d ls Hl), !coerced_text_get.
  apply new_response_of_texts.
Qed.

(** The languages are passed on as they are: a text under
    [detectedLanguages] that is not empty reaches the response model
    unchanged, and the model refuses it whatever else the object
    holds. *)
Lemma languages_text_not_coerced :
  forall (d : list (str * pyval)) (c : N) (s : str),
  dict_lookup d (lit "detectedLanguages") = Some (PStr (c :: s)) ->
  shape_response (PDict d) = inl ValidationError.
Proof.
  intros d c s H. rewrite shape_response_dict.
  replace (py_or (dict_get d (lit "detectedLanguages") (PList [])) (PList []))
    with (PStr (c :: s)) by (unfold py_or, dict_get; rewrite H; reflexivity).
  unfold new_AnalyzeResponse.
  cbn [validate_optional_str validate_optional_list option_map].
  rewrite !validate_str_text. reflexivity.
Qed.

Lemma normalize_of_trimmed_json :
  forall (raw : str) (d : list (str * pyval)) (r : AnalyzeResponse),
  json_loads (strip raw) = Some (PDict d) ->
  has_shape d r ->
  normalize raw = inr r.
Proof.
  intros raw d r Hparse (i & e & ls & n & Hi & He & Hls & Hn
                         & Da & Di & De & Dl & Dn).
  unfold normalize. rewrite (extract_direct raw _ Hparse).
  rewrite shape_response_dict. unfold dict_get.
  rewrite Da, Di, De, Dl, Dn. cbn [py_str].
  replace (py_or (PList (List.map PStr ls)) (PList []))
    with (PList (List.map PStr ls)) by (destruct ls; reflexivity).
  rewrite new_response_of_texts.
  destruct r; simpl in *; subst; reflexivity.
Qed.

(** C9: a raw text that is valid JSON for an object of the shape of a
    response (the five keys, holding four texts and a list of texts) is
    normalised to that response, field for field. *)
Theorem shaped_json_round_trip :
  forall (raw : str) (d : list (str * pyval)) (r : AnalyzeResponse),
  json_loads raw = Some (PDict d) ->
  has_shape d r ->
  normalize raw = inr r.
Proof.
  intros raw d r Hparse Hshape.
  apply (normalize_of_trimmed_json raw d r); [|exact Hshape].
  apply json_loads_strip. exact Hparse.
Qed.

(** C10: when the parsed object holds a falsy value under
    [detectedLanguages] (null, the empty text, false, or any other value
    whose truth value is false), the response is built and its languages
    are the empty list. *)
Theorem falsy_languages_become_empty :
  forall (d : list (str * pyval)) (v : pyval),
  dict_lookup d (lit "detectedLanguages") = Some v ->
  v = PNone \/ v = PStr [] \/ v = PBool false \/ py_bool v = false ->
  exists r, shape_response (PDict d) = inr r
            /\ detectedLanguages r = Some [].
Proof.
  intros d v Hv Hfalsy.
  assert (Hb : py_bool v = false).
  { destruct Hfalsy as [->|[->|[->|H]]]; auto. }
  rewrite shape_response_dict.
  replace (py_or (dict_get d (lit "detectedLanguages") (PList [])) (PList []))
    with (PList (List.map PStr [])).
  - rewrite new_response_of_texts. eexists. split; reflexivity.
  - unfold py_or, dict_get. rewrite Hv, Hb. reflexivity.
Qed.

(** C1 fails on the code: a reply that is JSON but not an object (a
    number, an array) passes the first parse, has no [get], and the
    request ends in an unhandled [AttributeError], a 500 for the
    caller. *)
Theorem non_object_json_raises :
  normalize number_reply = inl AttributeError /\
  normalize array_reply = inl AttributeError /\
  caller_status (normalize number_reply) = 500%Z.
Proof.
  assert (N : normalize number_reply = inl AttributeError).
  { unfold normalize.
    replace (_extract_text_from_gemini number_reply) with (PInt 42)
      by (vm_compute; reflexivity).
    reflexivity. }
  split; [exact N|]. split; [|rewrite N; reflexivity].
  unfold normalize.
  replace (_extract_text_from_gemini array_reply)
    with (PList [PDict [(lit "answer", PStr (lit "a cat"))]])
    by (vm_compute; reflexivity).
  reflexivity.
Qed.

End NormaliserClaims.


(** ** The properties at the sample inputs *)

Ltac no_member H :=
  vm_compute in H;
  repeat match type of H with
         | _ \/ _ => destruct H as [H|H]; [discriminate H|]
         end;
  try contradiction; try discriminate H.

Lemma check_api_key_trimmed_bearer_witness :
  API_KEY sample_cfg <> [] /\
  strip (presented padded_request) = lit "Bearer " ++ API_KEY sample_cfg /\
  @_check_api_key sample_env sample_cfg padded_request = inr tt.
Proof.
  split; [discriminate|]. split; [reflexivity|].
  apply (@check_api_key_trimmed_bearer sample_env sample_cfg padded_request).
  - discriminate.
  - reflexivity.
Defined.

(** The claim of C2 fails at a header that ends in a no-break space: it
    is not "Bearer " followed by the secret, yet the authenticator
    passes. *)
Lemma padded_header_passes :
  API_KEY sample_cfg <> [] /\
  authorization padded_request <> Some (lit "Bearer " ++ API_KEY sample_cfg) /\
  @_check_api_key sample_env sample_cfg padded_request = inr tt.
Proof.
  split; [discriminate|]. split; [discriminate|]. reflexivity.
Qed.

Lemma configuration_errors_witness :
  API_KEY cfg_without_api_key = [] /\
  @analyze_onedrive_image sample_env cfg_without_api_key world_without_image
     sample_payload good_request
  = ([], inl (HTTPException 500 (lit "Server API_KEY not configured"))) /\
  GEMINI_API_KEY cfg_without_gemini_key = [] /\
  @_check_api_key sample_env cfg_without_gemini_key good_request = inr tt /\
  @analyze_onedrive_image sample_env cfg_without_gemini_key world_without_image
     sample_payload good_request
  = ([], inl (HTTPException 500 (lit "GEMINI_API_KEY not configured"))).
Proof.
  split; [reflexivity|]. split.
  - apply (@configuration_errors sample_env cfg_without_api_key
             world_without_image sample_payload good_request).
    reflexivity.
  - split; [reflexivity|]. split; [reflexivity|].
    apply (@configuration_errors sample_env cfg_without_gemini_key
             world_without_image sample_payload good_request);
      reflexivity.
Defined.

(** The claim of C3 fails at a request without credentials when only the
    provider key is unset: the caller gets the 403 of the authenticator,
    not a 500. *)
Lemma missing_provider_key_can_give_403 :
  GEMINI_API_KEY cfg_without_gemini_key = [] /\
  @analyze_onedrive_image sample_env cfg_without_gemini_key world_without_image
     sample_payload anonymous_request
  = ([], inl (HTTPException 403 (lit "Forbidden"))) /\
  caller_status
    (snd (@analyze_onedrive_image sample_env cfg_without_gemini_key
            world_without_image sample_payload anonymous_request)) <> 500%Z.
Proof.
  split; [reflexivity|]. split; [reflexivity|]. discriminate.
Qed.

Lemma fetch_failure_is_404_witness :
  In (Get (downloadUrl sample_payload) (Returned not_found))
     (fst (@analyze_onedrive_image sample_env sample_cfg world_without_image
             sample_payload good_request)) /\
  status_code not_found <> 200%Z /\
  exists detail,
    snd (@analyze_onedrive_image sample_env sample_cfg world_without_image
           sample_payload good_request)
      = inl (HTTPException 404 detail) /\
    contains detail (str_of_Z (status_code not_found)) /\
    (status_code not_found = 404%Z -> contains detail (lit "404")) /\
    (forall e,
       In e (fst (@analyze_onedrive_image sample_env sample_cfg
                    world_without_image sample_payload good_request)) ->
       is_post e = false).
Proof.
  assert (Hin : In (Get (downloadUrl sample_payload) (Returned not_found))
     (fst (@analyze_onedrive_image sample_env sample_cfg world_without_image
             sample_payload good_request))) by (left; reflexivity).
  assert (Hst : status_code not_found <> 200%Z) by discriminate.
  split; [exact Hin|]. split; [exact Hst|].
  exact (@fetch_failure_is_404 sample_env sample_cfg world_without_image
           sample_payload good_request _ _ Hin Hst).
Defined.

Lemma guess_mime_table_witness :
  ends_with_ci (downloadUrl sample_payload) ".jpg" /\
  @_guess_mime sample_env (downloadUrl sample_payload) = lit "image/jpeg".
Proof.
  assert (H : ends_with_ci (downloadUrl sample_payload) ".jpg").
  { exists (lit "https://files.example/photo"), (lit ".JPG").
    split; [reflexivity|].
    repeat constructor; vm_compute; intuition discriminate. }
  split; [exact H|].
  apply (@guess_mime_table sample_env (downloadUrl sample_payload)).
  left. exact H.
Defined.

Lemma embedded_reply_braces :
  braces (strip embedded_reply) (lit "noise ")
         (quoted "answer" ++ lit ":" ++ quoted "x") (lit " trailing").
Proof.
  split; [reflexivity|]. split; intros H; no_member H.
Defined.

Lemma extraction_chain_witness :
  json_loads (strip embedded_reply) = None /\
  json_loads ([123] ++ (quoted "answer" ++ lit ":" ++ quoted "x") ++ [125])
    = Some (PDict [(lit "answer", PStr (lit "x"))]) /\
  _extract_text_from_gemini embedded_reply
    = PDict [(lit "answer", PStr (lit "x"))].
Proof.
  split; [vm_compute; reflexivity|]. split; [vm_compute; reflexivity|].
  apply (proj1 (proj2 (@extraction_chain sample_env embedded_reply)))
    with (a := lit "noise ") (m := quoted "answer" ++ lit ":" ++ quoted "x")
         (b := lit " trailing").
  - vm_compute. reflexivity.
  - exact embedded_reply_braces.
  - vm_compute. reflexivity.
Defined.

Lemma plain_reply_has_no_braces : forall a m b : str,
  braces (strip plain_reply) a m b ->
  json_loads ([123] ++ m ++ [125]) = None.
Proof.
  intros a m b (Ht & _ & _). exfalso.
  assert (H : In 123 (strip plain_reply)).
  { rewrite Ht. apply in_or_app. right. left. reflexivity. }
  no_member H.
Defined.

Lemma fallback_wraps_trimmed_text_witness :
  json_loads (strip plain_reply) = None /\
  @normalize sample_env plain_reply = inr (fallback_response plain_reply).
Proof.
  split; [vm_compute; reflexivity|].
  apply (@fallback_wraps_trimmed_text sample_env plain_reply).
  - vm_compute. reflexivity.
  - exact plain_reply_has_no_braces.
Defined.

(** The claim of C5 fails at a plain reply that ends in a line feed:
    neither parse applies, and the [answer] of the wrapper is the text
    without the line feed, not the entire raw text. *)
Lemma fallback_answer_is_trimmed :
  json_loads (strip plain_reply_with_newline) = None /\
  find (strip plain_reply_with_newline) (lit "{") = (-1)%Z /\
  @normalize sample_env plain_reply_with_newline
    = inr (fallback_response plain_reply) /\
  answer (fallback_response plain_reply) <> plain_reply_with_newline.
Proof.
  split; [vm_compute; reflexivity|]. split; [vm_compute; reflexivity|].
  split; [vm_compute; reflexivity|]. vm_compute. discriminate.
Qed.

Lemma fields_coerced_witness :
  languages_of sample_env numeric_answer_object [] /\
  @shape_response sample_env (PDict numeric_answer_object)
    = inr (answer_only (lit "7")).
Proof.
  assert (H : languages_of sample_env numeric_answer_object [])
    by (apply languages_absent; reflexivity).
  split; [exact H|].
  exact (@fields_coerced sample_env numeric_answer_object [] H).
Defined.

(** C6 fails on the code: the four text fields are coerced with [str],
    the languages are not coerced at all.  A reply that is a JSON object
    with a text under [detectedLanguages] is parsed at the first stage
    and its value handed to the response model as it is; under either
    release the model refuses it, the [ValidationError] is caught
    nowhere, and the caller gets a 500 where the claim has the field
    coerced to its declared type.  So it is for every non-empty text
    under that key, whatever else the object holds. *)
Theorem wrong_typed_languages_raise :
  _extract_text_from_gemini text_languages_reply
    = PDict text_languages_object /\
  @normalize sample_env text_languages_reply = inl ValidationError /\
  @normalize legacy_env text_languages_reply = inl ValidationError /\
  caller_status (@normalize sample_env text_languages_reply) = 500%Z /\
  caller_status (@normalize legacy_env text_languages_reply) = 500%Z /\
  (forall (e : PyEnv) (c : N) (s : str) (d : list (str * pyval)),
     @shape_response e
       (PDict ((lit "detectedLanguages", PStr (c :: s)) :: d))
     = inl ValidationError).
Proof.
  assert (E : _extract_text_from_gemini text_languages_reply
              = PDict text_languages_object) by (vm_compute; reflexivity).
  assert (R : forall e : PyEnv,
            @normalize e text_languages_reply = inl ValidationError).
  { intros e. unfold normalize. rewrite E.
    apply (@languages_text_not_coerced e text_languages_object 69
             (lit "nglish")).
    reflexivity. }
  split; [exact E|]. split; [apply R|]. split; [apply R|].
  split; [rewrite R; reflexivity|]. split; [rewrite R; reflexivity|].
  intros e c s d.
  apply (@languages_text_not_coerced e _ c s). reflexivity.
Qed.

Lemma shaped_json_round_trip_witness :
  json_loads full_reply = Some (PDict full_object) /\
  has_shape full_object full_response /\
  @normalize sample_env full_reply = inr full_response.
Proof.
  assert (P : json_loads full_reply = Some (PDict full_object))
    by (vm_compute; reflexivity).
  assert (S : has_shape full_object full_response).
  { exists (lit "a cat on a mat"), [], [lit "en"; lit "fr"], (lit "blurry").
    repeat split. }
  split; [exact P|]. split; [exact S|].
  exact (@shaped_json_round_trip sample_env full_reply full_object
           full_response P S).
Defined.

Lemma falsy_languages_become_empty_witness :
  json_loads (strip null_languages_reply) = Some (PDict null_languages_object) /\
  dict_lookup null_languages_object (lit "detectedLanguages") = Some PNone /\
  exists r, @shape_response sample_env (PDict null_languages_object) = inr r
            /\ detectedLanguages r = Some [].
Proof.
  split; [vm_compute; reflexivity|]. split; [reflexivity|].
  apply (@falsy_languages_become_empty sample_env null_languages_object PNone).
  - reflexivity.
  - left. reflexivity.
Defined.


(** ** The runtime model on known values *)

Example strip_removes_unicode_space :
  strip ([0xA0; 9] ++ lit "a b" ++ [0x2028; 10]) = lit "a b".
Proof. vm_compute. reflexivity. Qed.

Example strip_keeps_zero_width_space :
  strip [0x200B; 97] = [0x200B; 97].
Proof. vm_compute. reflexivity. Qed.

Example find_and_rfind :
  find (lit "a{b}{c}d") (lit "{") = 1%Z /\
  rfind (lit "a{b}{c}d") (lit "}") = 6%Z /\
  find (lit "abc") (lit "{") = (-1)%Z /\
  slice (lit "a{b}{c}d") 1 7 = lit "{b}{c}".
Proof. vm_compute. repeat split. Qed.

Example str_of_int :
  str_of_Z 404 = lit "404" /\ str_of_Z 0 = lit "0" /\
  str_of_Z (-1200) = lit "-1200".
Proof. vm_compute. repeat split. Qed.

Example b64encode_pads :
  b64encode (lit "Man") = lit "TWFu" /\ b64encode (lit "Ma") = lit "TWE=" /\
  b64encode (lit "M") = lit "TQ==".
Proof. vm_compute. repeat split. Qed.

Example loads_keeps_last_duplicate :
  json_loads (lit "{" ++ quoted "a" ++ lit ": 1, " ++ quoted "b" ++ lit ": 2, "
              ++ quoted "a" ++ lit ": 3}")
  = Some (PDict [(lit "a", PInt 3); (lit "b", PInt 2)]).
Proof. vm_compute. reflexivity. Qed.

Example loads_joins_surrogates :
  json_loads ([34] ++ lit "\ud83d\ude00\u00e9\n" ++ [34])
  = Some (PStr [0x1F600; 0xE9; 10]).
Proof. vm_compute. reflexivity. Qed.

Example loads_numbers :
  json_loads (lit "[-0, 12, 1.5e3, NaN, -Infinity]")
  = Some (PList [PInt 0; PInt 12; PFloat (lit "1.5e3"); PFloat (lit "NaN");
                 PFloat (lit "-Infinity")]).
Proof. vm_compute. reflexivity. Qed.

Example loads_refuses :
  json_loads (lit "[1,]") = None /\ json_loads (lit "01") = None /\
  json_loads (lit "{} x") = None /\ json_loads (lit "{'a': 1}") = None /\
  json_loads [] = None /\ json_loads ([34; 9; 34]) = None /\
  json_loads (0xFEFF :: lit "{}") = None.
Proof. vm_compute. repeat split. Qed.

Example str_of_nested_value :
  @py_str sample_env
    (PDict [(lit "a", PList [PInt 1; PStr (lit "it's"); PNone; PBool true])])
  = lit "{'a': [1, " ++ [34] ++ lit "it's" ++ [34] ++ lit ", None, True]}".
Proof. vm_compute. reflexivity. Qed.

Example dumps_escapes :
  @json_dumps sample_env
    (PDict [(lit "k", PList [PStr [0xE9; 10; 0x1F600]; PNone; PBool false])])
  = lit "{" ++ quoted "k" ++ lit ": [" ++ quoted "\u00e9\n\ud83d\ude00"
    ++ lit ", null, false]}".
Proof. vm_compute. reflexivity. Qed.

Example prompt_lines :
  @system_prompt sample_env sample_payload
  = instruction_block ++ [10] ++ lit "What is written on the sign?"
    ++ [10; 10; 10] ++ lit "Respond in language: en".
Proof. vm_compute. reflexivity. Qed.

Example raw_text_of_envelope :
  @raw_text_of sample_env
    (PDict [(lit "candidates",
             PList [PDict [(lit "content",
                     PDict [(lit "parts",
                             PList [PDict [(lit "text", PStr (lit "hi"))]])])]])])
  = PStr (lit "hi") /\
  @raw_text_of sample_env (PDict [(lit "error", PInt 1)])
  = PStr (lit "{" ++ quoted "error" ++ lit ": 1}").
Proof. vm_compute. repeat split. Qed.

Section Outcomes.
Context {env : PyEnv}.

(** The three ways the response path ends. *)
Lemma normalize_outcomes : forall raw : str,
  (exists r, normalize raw = inr r) \/
  normalize raw = inl AttributeError \/
  normalize raw = inl ValidationError.
Proof.
  intros raw. unfold normalize.
  destruct (_extract_text_from_gemini raw) as [| | | | | |d];
    try (right; left; reflexivity).
  rewrite shape_response_dict. unfold new_AnalyzeResponse.
  cbn [validate_optional_str option_map]. rewrite !validate_str_text.
  destruct (validate_optional_list _) as [ls|].
  - left. eexists. reflexivity.
  - right. right. reflexivity.
Qed.

End Outcomes.


(* ================================================================== *)
(** * Further properties *)
(* ================================================================== *)

(** ** What [strip] leaves *)

Lemma dropwhile_all : forall (p : N -> bool) (w s : str),
  Forall (fun c => p c = true) w -> dropwhile p (w ++ s) = dropwhile p s.
Proof.
  intros p w s H. induction H as [|c w Hc _ IH]; [reflexivity|].
  simpl. rewrite Hc. exact IH.
Qed.

Lemma dropwhile_head : forall (p : N -> bool) (s : str) (c : N) (r : str),
  dropwhile p s = c :: r -> p c = false.
Proof.
  intros p s c r. induction s as [|x s IH]; simpl; [discriminate|].
  destruct (p x) eqn:E; [exact IH|].
  intros H. inversion H; subst. exact E.
Qed.

Lemma dropwhile_keep : forall (p : N -> bool) (x y : str),
  dropwhile p x <> [] -> dropwhile p (x ++ y) = dropwhile p x ++ y.
Proof.
  intros p x y. induction x as [|c x IH]; simpl; [contradiction|].
  destruct (p c); [exact IH | reflexivity].
Qed.

Lemma dropwhile_none : forall (p : N -> bool) (w : str),
  Forall (fun c => p c = true) w -> dropwhile p w = [].
Proof.
  intros p w H. rewrite <- (app_nil_r w). rewrite (dropwhile_all p w [] H).
  reflexivity.
Qed.

Lemma all_space_rev : forall w : str, all_space w -> all_space (rev w).
Proof. intros w H. unfold all_space. apply Forall_rev. exact H. Qed.

Lemma lstrip_pad : forall w s : str, all_space w -> lstrip (w ++ s) = lstrip s.
Proof. intros w s H. apply dropwhile_all. exact H. Qed.

Lemma rstrip_pad : forall s w : str, all_space w -> rstrip (s ++ w) = rstrip s.
Proof.
  intros s w H. unfold rstrip. rewrite rev_app_distr.
  rewrite (dropwhile_all isspace (rev w) (rev s) (all_space_rev w H)).
  reflexivity.
Qed.

Lemma rstrip_keep : forall a b : str,
  rstrip b <> [] -> rstrip (a ++ b) = a ++ rstrip b.
Proof.
  intros a b H. unfold rstrip in *. rewrite rev_app_distr.
  rewrite dropwhile_keep.
  - rewrite rev_app_distr, rev_involutive. reflexivity.
  - intros E. apply H. rewrite E. reflexivity.
Qed.

Lemma rstrip_last : forall (a : str) (c : N),
  isspace c = false -> rstrip (a ++ [c]) = a ++ [c].
Proof.
  intros a c H. unfold rstrip. rewrite rev_app_distr. simpl. rewrite H.
  simpl. rewrite rev_involutive. reflexivity.
Qed.

(** What [rstrip] leaves does not end in white space. *)
Lemma rstrip_end : forall (s a : str) (c : N),
  rstrip s = a ++ [c] -> isspace c = false.
Proof.
  intros s a c H. unfold rstrip in H.
  apply (f_equal (@rev N)) in H. rewrite rev_involutive in H.
  rewrite rev_app_distr in H. simpl in H.
  exact (dropwhile_head isspace (rev s) c (rev a) H).
Qed.

Lemma strip_end : forall (s a : str) (c : N),
  strip s = a ++ [c] -> isspace c = false.
Proof. intros s a c. unfold strip. apply rstrip_end. Qed.

(** White space around a text does not change what [strip] gives. *)
Lemma strip_pad : forall w1 s w2 : str,
  all_space w1 -> all_space w2 -> strip (w1 ++ s ++ w2) = strip s.
Proof.
  intros w1 s w2 H1 H2. unfold strip. rewrite (lstrip_pad w1 _ H1).
  unfold lstrip. destruct (dropwhile isspace s) as [|c r] eqn:E.
  - destruct (dropwhile_split isspace s) as (w & Hs & Hw).
    rewrite E, app_nil_r in Hs. subst s.
    rewrite (dropwhile_all isspace w w2 Hw).
    rewrite (dropwhile_none isspace w2 H2). reflexivity.
  - rewrite dropwhile_keep; [|rewrite E; discriminate].
    rewrite E. apply rstrip_pad. exact H2.
Qed.

Lemma strip_blank : forall w : str, all_space w -> strip w = [].
Proof.
  intros w H. unfold strip, lstrip. rewrite (dropwhile_none isspace w H).
  reflexivity.
Qed.

(** A text is what [strip] leaves of it, between two runs of white
    space. *)
Lemma strip_split : forall s : str,
  exists w1 w2, all_space w1 /\ all_space w2 /\ s = w1 ++ strip s ++ w2.
Proof.
  intros s. destruct (dropwhile_split isspace s) as (w1 & Hs & Hw1).
  destruct (rstrip_split (lstrip s)) as (w2 & Hl & Hw2).
  exists w1, w2. split; [exact Hw1|]. split; [exact Hw2|].
  unfold strip. rewrite <- Hl. exact Hs.
Qed.

(** A text that neither begins nor ends with white space is left as it
    is. *)
Lemma strip_clean : forall (c : N) (m : str) (d : N),
  isspace c = false -> isspace d = false ->
  strip (c :: m ++ [d]) = c :: m ++ [d].
Proof.
  intros c m d Hc Hd. unfold strip, lstrip. simpl. rewrite Hc.
  exact (rstrip_last (c :: m) d Hd).
Qed.


(** ** The headers the authenticator accepts *)

(** "Bearer " followed by a secret that does not end in white space
    neither begins nor ends with white space. *)
Lemma strip_bearer : forall k : str,
  k <> [] -> ~ ends_in_space k ->
  strip (lit "Bearer " ++ k) = lit "Bearer " ++ k.
Proof.
  intros k Hk Hend.
  destruct (exists_last Hk) as (a & c & ->).
  assert (Hc : isspace c = false).
  { destruct (isspace c) eqn:E; [|reflexivity].
    exfalso. apply Hend. exists a, c. auto. }
  change (lit "Bearer " ++ a ++ [c])
    with (66 :: (lit "earer " ++ a) ++ [c]).
  rewrite <- app_assoc.
  change (66 :: lit "earer " ++ a ++ [c])
    with (66 :: (lit "earer " ++ a ++ [c])).
  rewrite (app_assoc (lit "earer ") a [c]).
  apply strip_clean; [reflexivity | exact Hc].
Qed.

Lemma bearer_ends_in_space : forall k : str,
  ends_in_space k -> ends_in_space (lit "Bearer " ++ k).
Proof.
  intros k (a & c & -> & Hc). exists (lit "Bearer " ++ a), c.
  rewrite <- app_assoc. auto.
Qed.

Lemma strip_not_ends_in_space : forall s : str, ~ ends_in_space (strip s).
Proof.
  intros s (a & c & H & Hc). rewrite (strip_end s a c H) in Hc.
  discriminate Hc.
Qed.

Section AcceptedHeaders.
Context {env : PyEnv}.

(** A secret that ends in white space (a line feed left by the file it
    was read from) cannot be presented: the header is trimmed before the
    comparison, so every request is refused with 403. *)
Theorem secret_ending_in_space_locks_out :
  forall (cfg : Config) (req : Request),
  ends_in_space (API_KEY cfg) ->
  _check_api_key cfg req = inl (HTTPException 403 (lit "Forbidden")).
Proof.
  intros cfg req Hend. rewrite check_api_key_cases.
  assert (Hk : str_eqb (API_KEY cfg) [] = false).
  { apply str_eqb_neq. intros E. destruct Hend as (a & c & H & _).
    rewrite E in H. destruct a; discriminate H. }
  rewrite Hk.
  destruct (str_eqb (strip (presented req)) (lit "Bearer " ++ API_KEY cfg))
    eqn:E; [|reflexivity].
  exfalso. apply str_eqb_eq in E.
  apply (strip_not_ends_in_space (presented req)).
  rewrite E. apply bearer_ends_in_space. exact Hend.
Qed.

(** The accepted headers, in full: a request passes the authenticator
    exactly when the secret is set and does not end in white space, and
    the header is "Bearer " and the secret with any white space before
    and after. *)
Theorem accepted_headers : forall (cfg : Config) (req : Request),
  _check_api_key cfg req = inr tt <->
  API_KEY cfg <> [] /\ ~ ends_in_space (API_KEY cfg) /\
  padded (presented req) (lit "Bearer " ++ API_KEY cfg).
Proof.
  intros cfg req. rewrite check_api_key_cases. split.
  - destruct (str_eqb (API_KEY cfg) []) eqn:Hk; [discriminate|].
    apply str_eqb_neq in Hk.
    destruct (str_eqb (strip (presented req)) (lit "Bearer " ++ API_KEY cfg))
      eqn:E; [|discriminate].
    intros _. apply str_eqb_eq in E. split; [exact Hk|]. split.
    + intros Hend. apply (strip_not_ends_in_space (presented req)).
      rewrite E. apply bearer_ends_in_space. exact Hend.
    + destruct (strip_split (presented req)) as (w1 & w2 & H1 & H2 & Hs).
      exists w1, w2. rewrite <- E. auto.
  - intros (Hk & Hend & w1 & w2 & H1 & H2 & Hs).
    apply str_eqb_neq in Hk. rewrite Hk.
    rewrite Hs, (strip_pad w1 _ w2 H1 H2).
    rewrite (strip_bearer (API_KEY cfg)); [|apply str_eqb_neq; exact Hk|exact Hend].
    rewrite str_eqb_refl. reflexivity.
Qed.

End AcceptedHeaders.

Lemma secret_ending_in_space_locks_out_witness :
  ends_in_space (API_KEY cfg_with_padded_key) /\
  @_check_api_key sample_env cfg_with_padded_key
     {| authorization := Some (lit "Bearer s3cret" ++ [10]) |}
  = inl (HTTPException 403 (lit "Forbidden")).
Proof.
  assert (H : ends_in_space (API_KEY cfg_with_padded_key)).
  { exists (lit "s3cret"), 10. split; reflexivity. }
  split; [exact H|].
  exact (@secret_ending_in_space_locks_out sample_env cfg_with_padded_key
           {| authorization := Some (lit "Bearer s3cret" ++ [10]) |} H).
Defined.


(** ** The runs of the handler *)

Section Runs.
Context {env : PyEnv}.

(** Every run of the handler, by the answers of its collaborators. *)
Lemma analyze_run :
  forall (cfg : Config) (world : World) (payload : AnalyzeRequest)
         (req : Request),
  analyze_onedrive_image cfg world payload req =
    match _check_api_key cfg req with
    | inl e => ([], inl e)
    | inr _ =>
        if str_eqb (GEMINI_API_KEY cfg) [] then
          ([], inl (HTTPException 500 (lit "GEMINI_API_KEY not configured")))
        else
          let url := downloadUrl payload in
          match http_get world url with
          | Raised => ([Get url Raised], inl TransportError)
          | Returned img =>
              if (status_code img =? 200)%Z then
                let body := provider_request env payload img in
                let o := http_post world (gemini_url cfg) body in
                ([Get url (Returned img); Post (gemini_url cfg) body o],
                 post_result env o)
              else
                ([Get url (Returned img)],
                 inl (HTTPException 404
                        (fetch_error_detail (status_code img))))
          end
    end.
Proof.
  intros cfg world payload req.
  unfold analyze_onedrive_image. rewrite run_bind. unfold lift at 1.
  cbn [fst snd].
  destruct (_check_api_key cfg req) as [e|[]]; [reflexivity|].
  cbn [py_bool]. rewrite negb_involutive.
  destruct (str_eqb (GEMINI_API_KEY cfg) []); [reflexivity|].
  rewrite run_bind. unfold client_get. cbn [fst snd app].
  cbv zeta.
  destruct (http_get world (downloadUrl payload)) as [img|];
    cbn [of_outcome]; [|reflexivity].
  destruct (status_code img =? 200)%Z; cbn [negb]; [|reflexivity].
  rewrite run_bind. unfold client_post. cbn [fst snd app].
  fold (provider_request env payload img).
  destruct (http_post world (gemini_url cfg) (provider_request env payload img))
    as [g|]; cbn [of_outcome post_result]; [|reflexivity].
  unfold reply_result, provider_error_detail.
  destruct (status_code g =? 200)%Z; cbn [negb]; [|reflexivity].
  destruct (json_body g) as [data|]; [|reflexivity].
  destruct (raw_text_of data); reflexivity.
Qed.

Lemma post_result_status : forall o : outcome,
  caller_status (post_result env o) = 200%Z \/
  caller_status (post_result env o) = 500%Z.
Proof.
  intros [g|]; [|right; reflexivity]. cbn [post_result]. unfold reply_result.
  destruct (status_code g =? 200)%Z; [|right; reflexivity].
  destruct (json_body g) as [data|]; [|right; reflexivity].
  destruct (raw_text_of data); try (right; reflexivity).
  destruct (normalize_outcomes s) as [[r H]|[H|H]]; rewrite H;
    [|right; reflexivity|right; reflexivity].
  cbn [caller_status]. destruct (serialisable r); [left|right]; reflexivity.
Qed.

(** The statuses a caller can see: 200, 403, 404 and 500, whatever the
    collaborators answer.  It is 403 exactly when the secret is set and
    the trimmed header is not "Bearer " and the secret; it is 404
    exactly when the request passed the authenticator, the provider key
    is set and the image host returned a status other than 200. *)
Theorem caller_statuses :
  forall (cfg : Config) (world : World) (payload : AnalyzeRequest)
         (req : Request),
  let status :=
    caller_status (snd (analyze_onedrive_image cfg world payload req)) in
  (status = 200 \/ status = 403 \/ status = 404 \/ status = 500)%Z /\
  (status = 403%Z <->
   API_KEY cfg <> [] /\
   strip (presented req) <> lit "Bearer " ++ API_KEY cfg) /\
  (status = 404%Z <->
   _check_api_key cfg req = inr tt /\ GEMINI_API_KEY cfg <> [] /\
   exists img, http_get world (downloadUrl payload) = Returned img /\
               status_code img <> 200%Z).
Proof.
  intros cfg world payload req. cbv zeta. rewrite analyze_run.
  rewrite check_api_key_cases.
  destruct (str_eqb (API_KEY cfg) []) eqn:Hk.
  { apply str_eqb_eq in Hk. cbn [snd caller_status].
    split; [auto|]. split; split; try discriminate.
    - intros [H _]. contradiction.
    - intros [H _]. discriminate H. }
  apply str_eqb_neq in Hk.
  destruct (str_eqb (strip (presented req)) (lit "Bearer " ++ API_KEY cfg))
    eqn:Ha.
  2:{ apply str_eqb_neq in Ha. cbn [snd caller_status].
      split; [auto|]. split; split; try discriminate; auto.
      intros [H _]. discriminate H. }
  apply str_eqb_eq in Ha.
  destruct (str_eqb (GEMINI_API_KEY cfg) []) eqn:Hg.
  { apply str_eqb_eq in Hg. cbn [snd caller_status].
    split; [auto|]. split; split; try discriminate.
    - intros [_ H]. contradiction.
    - intros (_ & H & _). contradiction. }
  apply str_eqb_neq in Hg. cbv zeta.
  destruct (http_get world (downloadUrl payload)) as [img|].
  2:{ cbn [snd caller_status].
      split; [auto|]. split; split; try discriminate.
      - intros [_ H]. contradiction.
      - intros (_ & _ & img & H & _). discriminate H. }
  destruct (status_code img =? 200)%Z eqn:Hs.
  - apply Z.eqb_eq in Hs. cbn [snd].
    destruct (post_result_status
                (http_post world (gemini_url cfg)
                   (provider_request env payload img))) as [H|H];
      rewrite H; (split; [auto|]); split; split; try discriminate;
      try (intros [_ K]; contradiction);
      intros (_ & _ & img' & K & K'); inversion K; subst; contradiction.
  - apply Z.eqb_neq in Hs. cbn [snd caller_status].
    split; [auto|]. split; split; try discriminate.
    + intros [_ H]. contradiction.
    + intros _. split; [reflexivity|]. split; [exact Hg|].
      exists img. auto.
    + intros _. reflexivity.
Qed.

(** The outbound calls of a request: none; or one GET of the URL of the
    payload that did not return 200; or that GET, returning 200, followed
    by one POST to the provider's URL of the body made of the prompt, the
    guessed type and the fetched image.  Nothing else is called and no
    call is repeated. *)
Theorem outbound_calls :
  forall (cfg : Config) (world : World) (payload : AnalyzeRequest)
         (req : Request),
  let calls := fst (analyze_onedrive_image cfg world payload req) in
  calls = [] \/
  (exists o, calls = [Get (downloadUrl payload) o] /\
             forall img, o = Returned img -> status_code img <> 200%Z) \/
  (exists img o,
     calls = [Get (downloadUrl payload) (Returned img);
              Post (gemini_url cfg) (provider_request env payload img) o] /\
     status_code img = 200%Z).
Proof.
  intros cfg world payload req. cbv zeta. rewrite analyze_run.
  destruct (_check_api_key cfg req) as [e|u]; [left; reflexivity|].
  destruct (str_eqb (GEMINI_API_KEY cfg) []); [left; reflexivity|].
  cbv zeta. destruct (http_get world (downloadUrl payload)) as [img|].
  - destruct (status_code img =? 200)%Z eqn:Hs.
    + apply Z.eqb_eq in Hs. right. right. eexists. eexists.
      split; [reflexivity | exact Hs].
    + apply Z.eqb_neq in Hs. right. left. eexists.
      split; [reflexivity|]. intros img' H. inversion H; subst. exact Hs.
  - right. left. eexists. split; [reflexivity|]. discriminate.
Qed.

(** No outbound call is made for a request that is not authenticated:
    when the handler calls anything, the secret is set, the trimmed
    header is "Bearer " and the secret, and the provider key is set. *)
Theorem calls_need_authentication :
  forall (cfg : Config) (world : World) (payload : AnalyzeRequest)
         (req : Request),
  fst (analyze_onedrive_image cfg world payload req) <> [] ->
  API_KEY cfg <> [] /\
  strip (presented req) = lit "Bearer " ++ API_KEY cfg /\
  GEMINI_API_KEY cfg <> [].
Proof.
  intros cfg world payload req. rewrite analyze_run.
  rewrite check_api_key_cases.
  destruct (str_eqb (API_KEY cfg) []) eqn:Hk; [intros H; contradiction|].
  destruct (str_eqb (strip (presented req)) (lit "Bearer " ++ API_KEY cfg))
    eqn:Ha; [|intros H; contradiction].
  destruct (str_eqb (GEMINI_API_KEY cfg) []) eqn:Hg;
    [intros H; contradiction|].
  intros _. apply str_eqb_neq in Hk. apply str_eqb_eq in Ha.
  apply str_eqb_neq in Hg. auto.
Qed.

(** Whenever the provider returns a status other than 200, the handler
    fails with a 500 whose detail is "Gemini error ", the status, ": "
    and the body of the provider's reply as it came. *)
Theorem provider_failure_is_500 :
  forall (cfg : Config) (world : World) (payload : AnalyzeRequest)
         (req : Request) (url : str) (body : pyval) (g : Response),
  In (Post url body (Returned g))
     (fst (analyze_onedrive_image cfg world payload req)) ->
  status_code g <> 200%Z ->
  snd (analyze_onedrive_image cfg world payload req)
    = inl (HTTPException 500
             (lit "Gemini error " ++ str_of_Z (status_code g) ++ lit ": "
              ++ text g)) /\
  contains (provider_error_detail g) (text g).
Proof.
  intros cfg world payload req url body g. rewrite analyze_run.
  destruct (_check_api_key cfg req) as [e|u]; [intros []|].
  destruct (str_eqb (GEMINI_API_KEY cfg) []); [intros []|].
  cbv zeta. destruct (http_get world (downloadUrl payload)) as [img|].
  2:{ intros [H|[]]. discriminate H. }
  destruct (status_code img =? 200)%Z.
  2:{ intros [H|[]]. discriminate H. }
  cbn [fst snd]. intros [H|[H|[]]] Hs; [discriminate H|].
  inversion H as [[Hu Hb Ho]]. rewrite Ho. cbn [post_result].
  unfold reply_result. apply Z.eqb_neq in Hs. rewrite Hs.
  split; [reflexivity|].
  exists (lit "Gemini error " ++ str_of_Z (status_code g) ++ lit ": "), [].
  unfold provider_error_detail. rewrite app_nil_r, <- !app_assoc.
  reflexivity.
Qed.

(** The whole path: for an authenticated request, with the provider key
    set, an image host that returns 200 and a provider that returns 200
    with an envelope whose first text part is [raw], the handler makes
    the GET and the POST and ends as the normaliser does on [raw]. *)
Theorem answered_request :
  forall (cfg : Config) (world : World) (payload : AnalyzeRequest)
         (req : Request) (img g : Response) (data : pyval) (raw : str),
  _check_api_key cfg req = inr tt ->
  GEMINI_API_KEY cfg <> [] ->
  http_get world (downloadUrl payload) = Returned img ->
  status_code img = 200%Z ->
  http_post world (gemini_url cfg) (provider_request env payload img)
    = Returned g ->
  status_code g = 200%Z ->
  json_body g = Some data ->
  raw_text_of data = PStr raw ->
  analyze_onedrive_image cfg world payload req
  = ([Get (downloadUrl payload) (Returned img);
      Post (gemini_url cfg) (provider_request env payload img) (Returned g)],
     normalize raw).
Proof.
  intros cfg world payload req img g data raw Ha Hk Hget Hi Hpost Hg Hd Hr.
  rewrite analyze_run, Ha. apply str_eqb_neq in Hk. rewrite Hk.
  cbv zeta. rewrite Hget. apply Z.eqb_eq in Hi. rewrite Hi.
  rewrite Hpost. cbn [post_result]. unfold reply_result.
  apply Z.eqb_eq in Hg. rewrite Hg, Hd, Hr. reflexivity.
Qed.

End Runs.


Section Misconfiguration.
Context {env : PyEnv}.

Lemma normalize_not_http : forall (raw : str) (status : Z) (detail : str),
  normalize raw <> inl (HTTPException status detail).
Proof.
  intros raw status detail H.
  destruct (normalize_outcomes raw) as [[r K]|[K|K]]; rewrite K in H;
    discriminate H.
Qed.

(** The error "Server API_KEY not configured" is raised exactly when the
    variable API_KEY is unset or empty in the environment of the process:
    no other failure of a request is reported under that detail. *)
Theorem unset_secret_is_reported :
  forall (environ : str -> option str) (world : World)
         (payload : AnalyzeRequest) (req : Request),
  snd (analyze_onedrive_image (load_config environ) world payload req)
    = inl (HTTPException 500 (lit "Server API_KEY not configured"))
  <-> environ (lit "API_KEY") = None \/ environ (lit "API_KEY") = Some [].
Proof.
  intros environ world payload req. rewrite analyze_run.
  rewrite check_api_key_cases.
  assert (Hkey : API_KEY (load_config environ) = [] <->
                 environ (lit "API_KEY") = None
                 \/ environ (lit "API_KEY") = Some []).
  { unfold load_config, getenv. cbn [API_KEY].
    destruct (environ (lit "API_KEY")) as [k|].
    - split; [intros ->; right; reflexivity|].
      intros [H|H]; [discriminate H | congruence].
    - split; [left; reflexivity | reflexivity]. }
  rewrite <- Hkey. clear Hkey.
  destruct (str_eqb (API_KEY (load_config environ)) []) eqn:Hk.
  { apply str_eqb_eq in Hk. split; [intros _; exact Hk | reflexivity]. }
  apply str_eqb_neq in Hk.
  split; [|intros H; contradiction]. intros H. exfalso. revert H.
  destruct (str_eqb _ _); [|discriminate].
  destruct (str_eqb (GEMINI_API_KEY (load_config environ)) []);
    [intros H; inversion H|].
  cbv zeta. destruct (http_get world (downloadUrl payload)) as [img|];
    [|discriminate].
  destruct (status_code img =? 200)%Z; [|discriminate].
  cbn [snd].
  destruct (http_post world _ _) as [g|]; [|discriminate].
  cbn [post_result]. unfold reply_result.
  destruct (status_code g =? 200)%Z; [|intros H; inversion H].
  destruct (json_body g) as [data|]; [|discriminate].
  destruct (raw_text_of data); try discriminate.
  apply normalize_not_http.
Qed.

End Misconfiguration.


(** ** The normaliser, further *)

Lemma object_members_dict :
  forall (fuel : nat) (s : str) (pairs : list (str * pyval)) (v : pyval)
         (rest : str),
  object_members fuel s pairs = Scanned v rest -> exists d, v = PDict d.
Proof.
  induction fuel as [|f IH]; intros s pairs v rest H; [discriminate H|].
  cbn [object_members] in H.
  destruct (scanstring s []) as [[key s1]|]; [|discriminate H].
  destruct (skip_ws s1) as [|c s2]; [discriminate H|].
  destruct (c =? 58); [|discriminate H].
  destruct (scan_once f (skip_ws s2)) as [v1 s3| |]; try discriminate H.
  cbv zeta in H.
  destruct (skip_ws s3) as [|d s4]; [discriminate H|].
  destruct (d =? 125).
  - inversion H. eexists. reflexivity.
  - destruct (d =? 44); [|discriminate H].
    destruct (skip_ws s4) as [|q s5]; [discriminate H|].
    destruct (q =? 34); [|discriminate H].
    exact (IH _ _ _ _ H).
Qed.

(** A text that begins with an opening brace decodes to a [dict] or not
    at all. *)
Lemma braced_text_is_object : forall (t : str) (v : pyval),
  json_loads (123 :: t) = Some v -> exists d, v = PDict d.
Proof.
  intros t v. unfold json_loads.
  change (startswith (123 :: t) [0xFEFF]) with false. cbv iota.
  change (skip_ws (123 :: t)) with (123 :: t).
  unfold json_fuel. simpl length.
  replace (2 * S (length t) + 2)%nat with (S (2 * length t + 3)) by lia.
  cbn [scan_once].
  change (123 =? 34) with false. change (123 =? 123) with true. cbv iota.
  destruct (skip_ws t) as [|d s2].
  { discriminate. }
  destruct (d =? 125).
  { destruct (skip_ws s2); [|discriminate].
    intros H. inversion H. eexists. reflexivity. }
  destruct (d =? 34); [|discriminate].
  destruct (object_members _ s2 []) as [v1 rest| |] eqn:E; try discriminate.
  destruct (skip_ws rest); [|discriminate].
  intros H. inversion H; subst.
  exact (object_members_dict _ _ _ _ _ E).
Qed.

Section NormaliserMore.
Context {env : PyEnv}.

Lemma shape_response_dict_outcomes : forall d : list (str * pyval),
  shape_response (PDict d) <> inl AttributeError.
Proof.
  intros d. rewrite shape_response_dict. unfold new_AnalyzeResponse.
  cbn [validate_optional_str option_map]. rewrite !validate_str_text.
  destruct (validate_optional_list _); discriminate.
Qed.

(** White space around the provider's text never matters: the text is
    trimmed before anything is done with it. *)
Theorem padding_is_ignored : forall w1 raw w2 : str,
  all_space w1 -> all_space w2 ->
  _extract_text_from_gemini (w1 ++ raw ++ w2) = _extract_text_from_gemini raw
  /\ normalize (w1 ++ raw ++ w2) = normalize raw.
Proof.
  intros w1 raw w2 H1 H2.
  assert (E : _extract_text_from_gemini (w1 ++ raw ++ w2)
              = _extract_text_from_gemini raw).
  { unfold _extract_text_from_gemini. rewrite (strip_pad w1 raw w2 H1 H2).
    reflexivity. }
  split; [exact E|]. unfold normalize. rewrite E. reflexivity.
Qed.

(** Trimming never spoils a reply: a text that [json.loads] accepts as
    it is gives the value it decodes to, whatever that value is. *)
Theorem valid_json_is_returned : forall (raw : str) (v : pyval),
  json_loads raw = Some v -> _extract_text_from_gemini raw = v.
Proof.
  intros raw v H. apply extract_direct. apply json_loads_strip. exact H.
Qed.

(** An empty reply, or one of white space only, gives the fallback
    response with an empty answer. *)
Theorem blank_reply_gives_empty_fallback : forall raw : str,
  all_space raw ->
  _extract_text_from_gemini raw = fallback [] /\
  normalize raw = inr (fallback_response []).
Proof.
  intros raw H.
  assert (E : _extract_text_from_gemini raw = fallback []).
  { unfold _extract_text_from_gemini. rewrite (strip_blank raw H).
    reflexivity. }
  split; [exact E|]. unfold normalize. rewrite E. unfold fallback.
  rewrite shape_response_dict.
  exact (new_response_of_texts [] [] [] fallback_marker []).
Qed.

Section Interpreter.
Variable loads : str -> option pyval.
Hypothesis loads_decodes : decoder loads.

(** When the direct parse raises, the normaliser has a [dict] whatever
    the decoder's limits: the one found between the braces, or the
    wrapper. *)
Lemma extract_with_after_failure : forall raw : str,
  loads (strip raw) = None -> exists d, extract_with loads raw = PDict d.
Proof.
  intros raw Hnone. unfold extract_with. rewrite Hnone.
  destruct (negb (find (strip raw) (lit "{") =? -1)%Z
            && negb (rfind (strip raw) (lit "}") =? -1)%Z
            && (rfind (strip raw) (lit "}") >? find (strip raw) (lit "{"))%Z)
    eqn:C; [|eexists; reflexivity].
  apply andb_true_iff in C. destruct C as [C G].
  apply andb_true_iff in C. destruct C as [F R].
  apply negb_true_iff, Z.eqb_neq in F. apply negb_true_iff, Z.eqb_neq in R.
  apply Z.gtb_lt in G.
  destruct (found_braces (strip raw) F R) as (a & m & b & Hb); [lia|].
  destruct (braces_found _ _ _ _ Hb) as (_ & _ & Hs). rewrite Hs.
  destruct (loads ([123] ++ m ++ [125])) as [v|] eqn:E;
    [|eexists; reflexivity].
  exact (braced_text_is_object _ _ (loads_decodes _ _ E)).
Qed.

(** Whatever the limits of the interpreter's decoder, the response path
    ends in [AttributeError] exactly when [json.loads] returns, for the
    trimmed text, a value that is not an object.  Where it raises, on
    malformed text or at a limit, the path does not end so: a value
    found between braces is an object or is not taken. *)
Theorem attribute_error_iff_non_object : forall raw : str,
  normalize_with env loads raw = inl AttributeError <->
  exists v, loads (strip raw) = Some v /\ forall d, v <> PDict d.
Proof.
  intros raw. unfold normalize_with. split.
  - intros H. destruct (loads (strip raw)) as [v|] eqn:E.
    + exists v. split; [reflexivity|]. intros d ->.
      unfold extract_with in H. rewrite E in H.
      exact (shape_response_dict_outcomes d H).
    + exfalso. destruct (extract_with_after_failure raw E) as [d Hd].
      rewrite Hd in H. exact (shape_response_dict_outcomes d H).
  - intros (v & E & Hv). unfold extract_with. rewrite E.
    apply shape_response_other. exact Hv.
Qed.

End Interpreter.

(** With [json_loads] for the decoder, [normalize_with] is
    [normalize]. *)
Lemma normalize_with_json_loads : forall raw : str,
  normalize_with env json_loads raw = normalize raw.
Proof. reflexivity. Qed.

Lemma validate_all_strict : pydantic = PydanticV2 ->
  forall (l : list pyval) (ls : list str),
  validate_all l = Some ls <-> l = List.map PStr ls.
Proof.
  intros V2. induction l as [|v l IH]; intros ls.
  - cbn [validate_all]. split.
    + intros H. inversion H. reflexivity.
    + destruct ls; [reflexivity | discriminate].
  - cbn [validate_all]. split.
    + destruct (validate_str v) as [s|] eqn:Ev; [|discriminate].
      destruct (validate_all l) as [ss|] eqn:El; [|discriminate].
      intros H. inversion H; subst. cbn [List.map]. f_equal.
      * unfold validate_str in Ev. rewrite V2 in Ev.
        destruct v; try discriminate Ev. congruence.
      * apply IH. reflexivity.
    + destruct ls as [|s ss]; [discriminate|]. cbn [List.map].
      intros H. inversion H; subst. rewrite validate_str_text.
      rewrite (proj2 (IH ss) eq_refl). reflexivity.
Qed.

(** Under release 2 of the response model, the construction of the
    response from a parsed object fails, with [ValidationError], exactly
    when the object holds under [detectedLanguages] a truthy value that
    is not a list of texts; nothing else in the object can make it
    fail. *)
Theorem languages_refused_iff : pydantic = PydanticV2 ->
  forall d : list (str * pyval),
  shape_response (PDict d) = inl ValidationError <->
  exists v, dict_lookup d (lit "detectedLanguages") = Some v /\
            py_bool v = true /\
            forall ls, v <> PList (List.map PStr ls).
Proof.
  intros V2 d. rewrite shape_response_dict. unfold new_AnalyzeResponse.
  cbn [validate_optional_str option_map]. rewrite !validate_str_text.
  unfold py_or, dict_get.
  destruct (dict_lookup d (lit "detectedLanguages")) as [v|].
  2:{ cbn. split; [discriminate|]. intros (v & H & _). discriminate H. }
  destruct (py_bool v) eqn:Hb.
  2:{ cbn. split; [discriminate|]. intros (v' & H & K & _).
      inversion H; subst. congruence. }
  destruct v as [| | | | |l|]; cbn [validate_optional_list option_map];
    try discriminate Hb;
    try (split; [intros _; eexists; split; [reflexivity|];
                 split; [exact Hb | discriminate]
                | reflexivity]).
  destruct (validate_all l) as [ls|] eqn:El; cbn [option_map].
  - apply (validate_all_strict V2) in El. split; [discriminate|].
    intros (v' & H & _ & K). inversion H; subst. exfalso.
    exact (K ls eq_refl).
  - split; [|reflexivity]. intros _. eexists. split; [reflexivity|].
    split; [exact Hb|]. intros ls E. inversion E as [E'].
    apply (validate_all_strict V2) in E'. congruence.
Qed.

End NormaliserMore.


(** ** The prompt *)

Lemma rstrip_empty : forall b : str, rstrip b = [] -> all_space b.
Proof.
  intros b E. destruct (rstrip_split b) as (w & Hb & Hw).
  rewrite E in Hb. simpl in Hb. subst b. exact Hw.
Qed.

(** After a text that does not end in white space, [rstrip] works on
    what follows. *)
Lemma rstrip_after : forall (a : str) (c : N) (b : str),
  isspace c = false -> rstrip ((a ++ [c]) ++ b) = (a ++ [c]) ++ rstrip b.
Proof.
  intros a c b Hc. destruct (rstrip b) as [|x r] eqn:E.
  - rewrite (rstrip_pad (a ++ [c]) b (rstrip_empty b E)).
    rewrite app_nil_r. exact (rstrip_last a c Hc).
  - rewrite <- E. apply rstrip_keep. rewrite E. discriminate.
Qed.

Lemma instruction_block_ends :
  exists m, instruction_block = (89 :: m) ++ [58].
Proof.
  exists (removelast (tl instruction_block)). vm_compute. reflexivity.
Qed.

Lemma option_line_given : forall (label : string) (x : str),
  x <> [] -> option_line label (Some x) = [10] ++ lit label ++ x.
Proof. intros label [|c x] H; [contradiction | reflexivity]. Qed.

Ltac flatten_app :=
  repeat first [rewrite <- app_assoc | progress cbn [app]].

Section Prompt.
Context {env : PyEnv}.

Lemma truthy_line : forall (label : string) (o : option str),
  match truthy o with
  | Some x => [10] ++ lit label ++ x
  | None => []
  end = option_line label o.
Proof.
  intros label [[|c x]|]; reflexivity.
Qed.

(** The layout of the prompt: the instruction block comes first, as it
    is; then a line feed, the question, a line feed, the hint line, a
    line feed and the language line, less the white space this ends
    with.  An optional field that is empty gives no line, as a missing
    one. *)
Theorem prompt_layout : forall payload : AnalyzeRequest,
  system_prompt payload =
    instruction_block
    ++ rstrip ([10] ++ userQuery payload ++ [10]
               ++ option_line "Context hint: " (contextHint payload) ++ [10]
               ++ option_line "Respond in language: " (languageCode payload)).
Proof.
  intros payload. unfold system_prompt.
  rewrite (truthy_line "Context hint: " (contextHint payload)).
  rewrite (truthy_line "Respond in language: " (languageCode payload)).
  set (hint := option_line "Context hint: " (contextHint payload)).
  set (lang := option_line "Respond in language: " (languageCode payload)).
  destruct instruction_block_ends as (m & Hm). rewrite Hm.
  unfold strip.
  replace (lstrip ([10] ++ ((89 :: m) ++ [58]) ++ [10] ++ userQuery payload
                   ++ [10] ++ hint ++ [10] ++ lang ++ [10]))
    with (((89 :: m) ++ [58])
          ++ ([10] ++ userQuery payload ++ [10] ++ hint ++ [10] ++ lang)
          ++ [10]).
  - rewrite (rstrip_after (89 :: m) 58 _ eq_refl). f_equal.
    apply rstrip_pad. repeat constructor.
  - unfold lstrip. cbn [app dropwhile]. change (isspace 10) with true.
    change (isspace 89) with false. cbv iota.
    flatten_app. reflexivity.
Qed.

(** With a language code that is not empty and does not end in white
    space, the prompt is exactly the instruction block, the question as
    it was given, the hint line if any, an empty line and the language
    line. *)
Theorem prompt_with_language :
  forall (payload : AnalyzeRequest) (code : str),
  languageCode payload = Some code ->
  code <> [] -> ~ ends_in_space code ->
  system_prompt payload =
    instruction_block ++ [10] ++ userQuery payload ++ [10]
    ++ option_line "Context hint: " (contextHint payload) ++ [10; 10]
    ++ lit "Respond in language: " ++ code.
Proof.
  intros payload code Hl Hne Hend.
  destruct instruction_block_ends as (m & Hm).
  unfold system_prompt. rewrite Hm.
  rewrite (truthy_line "Context hint: " (contextHint payload)).
  rewrite (truthy_line "Respond in language: " (languageCode payload)).
  rewrite Hl, (option_line_given "Respond in language: " code Hne).
  set (hint := option_line "Context hint: " (contextHint payload)).
  clear Hl. destruct (exists_last Hne) as (l0 & d & ->).
  assert (Hd : isspace d = false).
  { destruct (isspace d) eqn:E; [|reflexivity].
    exfalso. apply Hend. exists l0, d. auto. }
  set (core := m ++ [58] ++ [10] ++ userQuery payload ++ [10] ++ hint
               ++ [10; 10] ++ lit "Respond in language: " ++ l0).
  replace ([10] ++ ((89 :: m) ++ [58]) ++ [10] ++ userQuery payload ++ [10]
           ++ hint ++ [10]
           ++ ([10] ++ lit "Respond in language: " ++ l0 ++ [d]) ++ [10])
    with ([10] ++ (89 :: core ++ [d]) ++ [10]).
  - rewrite (strip_pad [10] _ [10]); try (repeat constructor).
    rewrite (strip_clean 89 core d eq_refl Hd).
    unfold core. flatten_app. reflexivity.
  - unfold core. flatten_app. reflexivity.
Qed.

(** Without hint and language, a question of white space only (or an
    empty one) leaves the instruction block alone: the prompt then ends
    with "User question:". *)
Theorem prompt_of_blank_question : forall payload : AnalyzeRequest,
  not_given (contextHint payload) -> not_given (languageCode payload) ->
  all_space (userQuery payload) ->
  system_prompt payload = instruction_block.
Proof.
  intros payload Hh Hl Hq.
  destruct instruction_block_ends as (m & Hm).
  unfold system_prompt.
  rewrite (truthy_line "Context hint: " (contextHint payload)).
  rewrite (truthy_line "Respond in language: " (languageCode payload)).
  replace (option_line "Context hint: " (contextHint payload)) with (@nil N)
    by (destruct Hh as [-> | ->]; reflexivity).
  replace (option_line "Respond in language: " (languageCode payload))
    with (@nil N) by (destruct Hl as [-> | ->]; reflexivity).
  rewrite (strip_pad [10] instruction_block
             ([10] ++ userQuery payload ++ [10] ++ [] ++ [10] ++ [] ++ [10])).
  - rewrite Hm. cbn [app]. apply strip_clean; reflexivity.
  - repeat constructor.
  - unfold all_space in *. apply Forall_app. split; [repeat constructor|].
    apply Forall_app. split; [exact Hq | repeat constructor].
Qed.

End Prompt.


(** ** The MIME guesser and the query string *)

Lemma same_as_dot : forall c : N, same_ignoring_case c 46 -> c = 46.
Proof. unfold same_ignoring_case. intros c H. lia. Qed.

(** No extension is seen in a URL whose query string holds no full
    stop. *)
Lemma no_ending_after_query : forall (pre q : str) (ext : string) (e : str),
  ~ In 46 q -> lit ext = 46 :: e ->
  Forall (fun d => ~ same_ignoring_case 63 d) (lit ext) ->
  ~ ends_with_ci (pre ++ [63] ++ q) ext.
Proof.
  intros pre q ext e Hq Hdot Hno (pre' & tail & Hu & Hci).
  apply app_eq_app in Hu. destruct Hu as [l [[Hpre Htail]|[Hpre Htail]]].
  - subst tail. apply Forall2_app_inv_l in Hci.
    destruct Hci as (e1 & e2 & _ & H2 & He).
    inversion H2 as [|c d t e2' Hcd Ht]; subst.
    rewrite He in Hno. apply Forall_app in Hno. destruct Hno as [_ Hno].
    inversion Hno; subst. contradiction.
  - rewrite Hdot in Hci. destruct l as [|x l'].
    + simpl in Htail. subst tail.
      inversion Hci as [|c d t e' Hcd Ht]; subst.
      apply same_as_dot in Hcd. discriminate Hcd.
    + simpl in Htail. inversion Htail as [[Hx Hq']].
      inversion Hci as [|c d t e' Hcd Ht]; subst.
      apply same_as_dot in Hcd. subst c. apply Hq.
      apply in_or_app. right. left. reflexivity.
Qed.

Ltac not_a_query_mark :=
  match goal with
  | |- Forall _ ?l => let l' := eval vm_compute in l in change l with l'
  end;
  repeat (apply Forall_cons; [unfold same_ignoring_case; lia|]);
  apply Forall_nil.

Section MimeQuery.
Context {env : PyEnv}.

(** The type is guessed from the end of the whole URL, query string
    included: a URL with a query string that holds no full stop is taken
    for a PNG, whatever the extension of its path. *)
Theorem query_string_hides_extension : forall url pre query : str,
  url = pre ++ [63] ++ query -> ~ In 46 query ->
  _guess_mime url = lit "image/png".
Proof.
  intros url pre query -> Hq. unfold _guess_mime.
  set (u := pre ++ [63] ++ query).
  destruct (endswith (lower u) (lit ".png")); [reflexivity|].
  assert (Hjpg : endswith (lower u) (lit ".jpg") = false).
  { destruct (endswith (lower u) (lit ".jpg")) eqn:E; [|reflexivity].
    exfalso. apply (endswith_lower_ci u ".jpg" ext_jpg) in E. revert E.
    apply (no_ending_after_query pre query ".jpg" (lit "jpg") Hq eq_refl).
    not_a_query_mark. }
  assert (Hjpeg : endswith (lower u) (lit ".jpeg") = false).
  { destruct (endswith (lower u) (lit ".jpeg")) eqn:E; [|reflexivity].
    exfalso. apply (endswith_lower_ci u ".jpeg" ext_jpeg) in E. revert E.
    apply (no_ending_after_query pre query ".jpeg" (lit "jpeg") Hq eq_refl).
    not_a_query_mark. }
  assert (Hwebp : endswith (lower u) (lit ".webp") = false).
  { destruct (endswith (lower u) (lit ".webp")) eqn:E; [|reflexivity].
    exfalso. apply (endswith_lower_ci u ".webp" ext_webp) in E. revert E.
    apply (no_ending_after_query pre query ".webp" (lit "webp") Hq eq_refl).
    not_a_query_mark. }
  rewrite Hjpg, Hjpeg, Hwebp. reflexivity.
Qed.

End MimeQuery.


(** ** The image in base 64 *)

Lemma b64_char_not_pad : forall i : N, b64_char i <> 61.
Proof.
  intros i. unfold b64_char.
  destruct (i <? 26) eqn:E1; [lia|].
  destruct (i <? 52) eqn:E2; [lia|].
  destruct (i <? 62) eqn:E3;
    [apply N.ltb_ge in E2; apply N.ltb_lt in E3; lia|].
  destruct (i =? 62); lia.
Qed.

Lemma b64_char_inj : forall i j : N,
  i < 64 -> j < 64 -> b64_char i = b64_char j -> i = j.
Proof.
  intros i j Hi Hj. unfold b64_char.
  destruct (i <? 26) eqn:I1; destruct (i <? 52) eqn:I2;
  destruct (i <? 62) eqn:I3; destruct (i =? 62) eqn:I4;
  destruct (j <? 26) eqn:J1; destruct (j <? 52) eqn:J2;
  destruct (j <? 62) eqn:J3; destruct (j =? 62) eqn:J4;
  rewrite ?N.ltb_lt, ?N.ltb_ge, ?N.eqb_eq, ?N.eqb_neq in *; lia.
Qed.

Ltac byte_parts x :=
  pose proof (N.div_mod x 4 ltac:(discriminate));
  pose proof (N.mod_lt x 4 ltac:(discriminate));
  pose proof (N.div_mod x 16 ltac:(discriminate));
  pose proof (N.mod_lt x 16 ltac:(discriminate));
  pose proof (N.div_mod x 64 ltac:(discriminate));
  pose proof (N.mod_lt x 64 ltac:(discriminate)).

Ltac hide_parts :=
  repeat match goal with
         | H : context [N.div ?a ?b] |- _ =>
             let q := fresh "q" in
             let E := fresh "E" in
             remember (N.div a b) as q eqn:E in *; clear E
         | H : context [N.modulo ?a ?b] |- _ =>
             let r := fresh "r" in
             let E := fresh "E" in
             remember (N.modulo a b) as r eqn:E in *; clear E
         end.

Ltac same_digits :=
  repeat match goal with
         | K : b64_char _ = b64_char _ |- _ =>
             apply b64_char_inj in K; [| lia | lia]
         end.

Ltac pad_clash :=
  exfalso;
  match goal with
  | K : 61 = b64_char _ |- _ =>
      symmetry in K; exact (b64_char_not_pad _ K)
  | K : b64_char _ = 61 |- _ => exact (b64_char_not_pad _ K)
  end.

Lemma b64encode_inj_upto : forall (n : nat) (a b : list N),
  (length a <= n)%nat -> Forall is_byte a -> Forall is_byte b ->
  b64encode a = b64encode b -> a = b.
Proof.
  unfold is_byte.
  induction n as [|n IH]; intros a b Hn Ha Hb H.
  { destruct a; [|simpl in Hn; lia].
    destruct b as [|x [|y [|z b']]]; [reflexivity|discriminate H..]. }
  destruct a as [|x [|y [|z a']]]; destruct b as [|x' [|y' [|z' b']]];
    cbn [b64encode app] in H; try discriminate H; try reflexivity;
    repeat match goal with
           | K : Forall _ (_ :: _) |- _ => inversion K; subst; clear K
           end;
    inversion H; clear H; try pad_clash.
  - byte_parts x. byte_parts x'. hide_parts. same_digits. f_equal. lia.
  - byte_parts x. byte_parts x'. byte_parts y. byte_parts y'.
    hide_parts. same_digits.
    assert (x = x') by lia. assert (y = y') by lia. congruence.
  - byte_parts x. byte_parts x'. byte_parts y. byte_parts y'.
    byte_parts z. byte_parts z'.
    match goal with
    | K : b64encode a' = b64encode b' |- _ =>
        apply IH in K; [|simpl in Hn; lia|assumption..]
    end.
    hide_parts. same_digits.
    assert (x = x') by lia. assert (y = y') by lia.
    assert (z = z') by lia. congruence.
Qed.

Section PostedImage.
Context {env : PyEnv}.

(** The body posted to the provider determines the image: two fetched
    images that give the same body have the same bytes. *)
Theorem posted_image_is_faithful :
  forall (payload : AnalyzeRequest) (img1 img2 : Response),
  Forall is_byte (content img1) -> Forall is_byte (content img2) ->
  provider_request env payload img1 = provider_request env payload img2 ->
  content img1 = content img2.
Proof.
  intros payload img1 img2 H1 H2 H.
  unfold provider_request, gemini_body in H. inversion H as [E].
  exact (b64encode_inj_upto _ _ _ (le_n _) H1 H2 E).
Qed.

End PostedImage.


(** ** The further properties at the sample inputs *)

Lemma calls_need_authentication_witness :
  fst (@analyze_onedrive_image sample_env sample_cfg world_without_image
         sample_payload good_request) <> [] /\
  API_KEY sample_cfg <> [] /\
  strip (presented good_request) = lit "Bearer " ++ API_KEY sample_cfg /\
  GEMINI_API_KEY sample_cfg <> [].
Proof.
  assert (H : fst (@analyze_onedrive_image sample_env sample_cfg
                     world_without_image sample_payload good_request) <> [])
    by (vm_compute; discriminate).
  split; [exact H|].
  exact (@calls_need_authentication sample_env sample_cfg world_without_image
           sample_payload good_request H).
Defined.

Lemma provider_failure_is_500_witness :
  In (Post (gemini_url sample_cfg)
           (provider_request sample_env sample_payload image_found)
           (Returned provider_overloaded))
     (fst (@analyze_onedrive_image sample_env sample_cfg
             world_with_failing_provider sample_payload good_request)) /\
  status_code provider_overloaded <> 200%Z /\
  snd (@analyze_onedrive_image sample_env sample_cfg
         world_with_failing_provider sample_payload good_request)
  = inl (HTTPException 500 (lit "Gemini error 503: overloaded")).
Proof.
  assert (Hin : In (Post (gemini_url sample_cfg)
                      (provider_request sample_env sample_payload image_found)
                      (Returned provider_overloaded))
                   (fst (@analyze_onedrive_image sample_env sample_cfg
                           world_with_failing_provider sample_payload
                           good_request)))
    by (right; left; reflexivity).
  assert (Hs : status_code provider_overloaded <> 200%Z) by discriminate.
  split; [exact Hin|]. split; [exact Hs|].
  exact (proj1 (@provider_failure_is_500 sample_env sample_cfg
                  world_with_failing_provider sample_payload good_request
                  _ _ _ Hin Hs)).
Defined.

Lemma answered_request_witness :
  @raw_text_of sample_env (envelope (PStr full_reply)) = PStr full_reply /\
  @analyze_onedrive_image sample_env sample_cfg sample_world sample_payload
     good_request
  = ([Get (downloadUrl sample_payload) (Returned image_found);
      Post (gemini_url sample_cfg)
           (provider_request sample_env sample_payload image_found)
           (Returned provider_reply)],
     @normalize sample_env full_reply).
Proof.
  split; [reflexivity|].
  apply (@answered_request sample_env sample_cfg sample_world sample_payload
           good_request image_found provider_reply
           (envelope (PStr full_reply)) full_reply);
    try reflexivity; discriminate.
Defined.

Lemma padding_is_ignored_witness :
  all_space [10] /\ all_space [32; 10] /\
  @normalize sample_env ([10] ++ full_reply ++ [32; 10])
  = @normalize sample_env full_reply.
Proof.
  assert (H1 : all_space [10]) by (repeat constructor).
  assert (H2 : all_space [32; 10]) by (repeat constructor).
  split; [exact H1|]. split; [exact H2|].
  exact (proj2 (@padding_is_ignored sample_env [10] full_reply [32; 10]
                  H1 H2)).
Defined.

Lemma valid_json_is_returned_witness :
  json_loads ([10] ++ array_reply ++ [32])
    = Some (PList [PDict [(lit "answer", PStr (lit "a cat"))]]) /\
  _extract_text_from_gemini ([10] ++ array_reply ++ [32])
    = PList [PDict [(lit "answer", PStr (lit "a cat"))]].
Proof.
  assert (H : json_loads ([10] ++ array_reply ++ [32])
              = Some (PList [PDict [(lit "answer", PStr (lit "a cat"))]]))
    by (vm_compute; reflexivity).
  split; [exact H|].
  exact (valid_json_is_returned _ _ H).
Defined.

(** A reply can be JSON for an object and still not be answered: the
    escape of a lone surrogate is valid JSON, [json.loads] returns the
    code point, the response is built with it, and then cannot be written
    out; the caller gets a 500. *)
Theorem unencodable_answer_gives_500 :
  json_loads surrogate_reply = Some (PDict [(lit "answer", PStr [0xD800])]) /\
  @normalize sample_env surrogate_reply = inr (answer_only [0xD800]) /\
  @normalize legacy_env surrogate_reply = inr (answer_only [0xD800]) /\
  serialisable (answer_only [0xD800]) = false /\
  caller_status (@normalize sample_env surrogate_reply) = 500%Z /\
  caller_status (@normalize legacy_env surrogate_reply) = 500%Z.
Proof.
  assert (S : @normalize sample_env surrogate_reply
              = inr (answer_only [0xD800])) by (vm_compute; reflexivity).
  assert (L : @normalize legacy_env surrogate_reply
              = inr (answer_only [0xD800])) by (vm_compute; reflexivity).
  split; [vm_compute; reflexivity|]. split; [exact S|]. split; [exact L|].
  split; [reflexivity|]. rewrite S, L. split; reflexivity.
Qed.

Lemma loads_within_decodes : forall limit : nat, decoder (loads_within limit).
Proof.
  intros limit s v. unfold loads_within.
  destruct (json_loads s) as [w|]; [|discriminate].
  destruct (nesting w <=? limit)%nat; [|discriminate].
  intros H. exact H.
Qed.

Lemma attribute_error_iff_non_object_witness :
  decoder (loads_within 1) /\
  normalize_with sample_env (loads_within 1) number_reply
    = inl AttributeError /\
  json_loads nested_reply = Some (PList [PList [PInt 1]]) /\
  normalize_with sample_env (loads_within 1) nested_reply
    <> inl AttributeError.
Proof.
  pose proof (@attribute_error_iff_non_object sample_env (loads_within 1)
                (loads_within_decodes 1)) as T.
  split; [exact (loads_within_decodes 1)|]. split; [|split].
  - apply (proj2 (T number_reply)). exists (PInt 42).
    split; [vm_compute; reflexivity|]. discriminate.
  - vm_compute. reflexivity.
  - intros H. apply (proj1 (T nested_reply)) in H.
    destruct H as (v & E & _). vm_compute in E. discriminate E.
Defined.

Lemma blank_reply_gives_empty_fallback_witness :
  all_space [32; 10; 0xA0] /\
  @normalize sample_env [32; 10; 0xA0] = inr (fallback_response []).
Proof.
  assert (H : all_space [32; 10; 0xA0]) by (repeat constructor).
  split; [exact H|].
  exact (proj2 (@blank_reply_gives_empty_fallback sample_env _ H)).
Defined.

Lemma languages_refused_iff_witness :
  @pydantic sample_env = PydanticV2 /\
  @shape_response sample_env (PDict text_languages_object)
  = inl ValidationError.
Proof.
  split; [reflexivity|].
  apply (proj2 (@languages_refused_iff sample_env eq_refl
                  text_languages_object)).
  exists (PStr (lit "English")). split; [reflexivity|].
  split; [reflexivity | discriminate].
Defined.

Lemma prompt_with_language_witness :
  ~ ends_in_space (lit "en") /\
  @system_prompt sample_env sample_payload
  = instruction_block ++ [10] ++ lit "What is written on the sign?"
    ++ [10; 10; 10] ++ lit "Respond in language: en".
Proof.
  assert (H : ~ ends_in_space (lit "en")).
  { intros (a & c & E & Hc).
    change (lit "en") with ([101] ++ [110]) in E.
    apply app_inj_tail in E. destruct E as [_ <-]. discriminate Hc. }
  split; [exact H|].
  apply (@prompt_with_language sample_env sample_payload (lit "en"));
    [reflexivity | discriminate | exact H].
Defined.

Lemma prompt_of_blank_question_witness :
  not_given (contextHint blank_payload) /\
  not_given (languageCode blank_payload) /\
  all_space (userQuery blank_payload) /\
  @system_prompt sample_env blank_payload = instruction_block.
Proof.
  assert (Hh : not_given (contextHint blank_payload)) by (left; reflexivity).
  assert (Hl : not_given (languageCode blank_payload))
    by (right; reflexivity).
  assert (Hq : all_space (userQuery blank_payload)) by (repeat constructor).
  split; [exact Hh|]. split; [exact Hl|]. split; [exact Hq|].
  exact (@prompt_of_blank_question sample_env blank_payload Hh Hl Hq).
Defined.

Lemma query_string_hides_extension_witness :
  ~ In 46 (lit "download=1") /\
  @_guess_mime sample_env (downloadUrl blank_payload) = lit "image/png".
Proof.
  assert (H : ~ In 46 (lit "download=1")) by (intros K; no_member K).
  split; [exact H|].
  exact (@query_string_hides_extension sample_env (downloadUrl blank_payload)
           (lit "https://files.example/photo.jpg") (lit "download=1")
           eq_refl H).
Defined.

Lemma posted_image_is_faithful_witness :
  Forall is_byte (content image_found) /\
  provider_request sample_env sample_payload image_found
  = provider_request sample_env sample_payload image_copy /\
  content image_found = content image_copy.
Proof.
  assert (H1 : Forall is_byte (content image_found))
    by (repeat constructor).
  assert (H2 : Forall is_byte (content image_copy))
    by (repeat constructor).
  split; [exact H1|]. split; [reflexivity|].
  exact (@posted_image_is_faithful sample_env sample_payload image_found
           image_copy H1 H2 eq_refl).
Defined.


(** ** What [json.dumps] writes, [json.loads] reads back *)

(** *** Integers *)

Ltac parts_of x k :=
  pose proof (N.div_mod x k ltac:(discriminate));
  pose proof (N.mod_lt x k ltac:(discriminate)).

Lemma digits_fuel_digits : forall (f : nat) (n : N) (acc : str),
  Forall (fun c => is_digit c = true) acc ->
  Forall (fun c => is_digit c = true) (digits_fuel f n acc).
Proof.
  induction f as [|f IH]; intros n acc Hacc; [exact Hacc|].
  cbn [digits_fuel]. cbv zeta.
  assert (Hd : is_digit (48 + n mod 10) = true).
  { parts_of n 10. hide_parts. unfold is_digit.
    apply andb_true_iff. split; apply N.leb_le; lia. }
  destruct (n / 10 =? 0); [|apply IH]; constructor; assumption.
Qed.

Lemma half_bound : forall (f : nat) (n : N),
  n < 2 ^ N.of_nat (S f) -> n / 10 < 2 ^ N.of_nat f.
Proof.
  intros f n H. rewrite Nat2N.inj_succ, N.pow_succ_r' in H.
  parts_of n 10. hide_parts. remember (2 ^ N.of_nat f) as B. lia.
Qed.

Lemma digits_fuel_value : forall (f : nat) (n : N) (acc : str),
  n < 2 ^ N.of_nat f ->
  fold_left (fun m c => 10 * m + (c - 48)) (digits_fuel f n acc) 0
  = fold_left (fun m c => 10 * m + (c - 48)) acc n.
Proof.
  induction f as [|f IH]; intros n acc Hn.
  - simpl in Hn. assert (n = 0) by lia. subst. reflexivity.
  - pose proof (half_bound f n Hn) as Hd.
    cbn [digits_fuel]. cbv zeta. destruct (n / 10 =? 0) eqn:E.
    + apply N.eqb_eq in E. cbn [fold_left]. f_equal.
      parts_of n 10. hide_parts. lia.
    + rewrite (IH _ _ Hd). cbn [fold_left]. f_equal.
      parts_of n 10. hide_parts. lia.
Qed.

Lemma digits_fuel_head : forall (f : nat) (n : N) (acc : str),
  n <> 0 -> n < 2 ^ N.of_nat f ->
  exists d t, digits_fuel f n acc = (48 + d) :: t /\ 1 <= d <= 9.
Proof.
  induction f as [|f IH]; intros n acc Hn Hb.
  - simpl in Hb. lia.
  - cbn [digits_fuel]. cbv zeta. destruct (n / 10 =? 0) eqn:E.
    + exists (n mod 10), acc. split; [reflexivity|].
      apply N.eqb_eq in E. parts_of n 10. hide_parts. lia.
    + apply N.eqb_neq in E. apply IH; [exact E|].
      apply half_bound. exact Hb.
Qed.

Lemma str_of_N_fuel : forall n : N,
  n < 2 ^ N.of_nat (S (N.to_nat (N.log2 n))).
Proof.
  intros n. rewrite Nat2N.inj_succ, N2Nat.id.
  destruct n as [|p]; [reflexivity|].
  apply N.log2_spec. reflexivity.
Qed.

Lemma N_of_digits_str : forall n : N, N_of_digits (str_of_N n) = n.
Proof.
  intros n. unfold N_of_digits, str_of_N.
  rewrite (digits_fuel_value _ n [] (str_of_N_fuel n)). reflexivity.
Qed.

Lemma span_digits_all : forall ds rest : str,
  Forall (fun c => is_digit c = true) ds -> number_ends rest ->
  span_digits (ds ++ rest) = (ds, rest).
Proof.
  intros ds rest Hds Hr. induction Hds as [|c ds Hc _ IH].
  - destruct rest as [|c r]; [reflexivity|]. simpl.
    destruct Hr as [Hd _]. rewrite Hd. reflexivity.
  - simpl. rewrite Hc, IH. reflexivity.
Qed.

Lemma match_int_part_str : forall (n : N) (rest : str),
  number_ends rest ->
  match_int_part (str_of_N n ++ rest) = Some (str_of_N n, rest).
Proof.
  intros n rest Hr. destruct (N.eq_dec n 0) as [->|Hn]; [reflexivity|].
  pose proof (digits_fuel_digits (S (N.to_nat (N.log2 n))) n []
                (Forall_nil _)) as Hds.
  fold (str_of_N n) in Hds.
  destruct (digits_fuel_head _ n [] Hn (str_of_N_fuel n))
    as (d & t & Hhead & Hd).
  fold (str_of_N n) in Hhead.
  pose proof (span_digits_all _ rest Hds Hr) as Hspan.
  assert (Hc : is_digit (48 + d) = true).
  { rewrite Hhead in Hds. exact (Forall_inv Hds). }
  assert (E : (48 + d =? 48) = false) by (apply N.eqb_neq; lia).
  remember (48 + d) as c eqn:Ec. clear Ec.
  rewrite Hhead in Hspan |- *. cbn [app] in *. unfold match_int_part.
  rewrite E, Hc, Hspan. reflexivity.
Qed.

Lemma match_frac_ends : forall rest : str,
  number_ends rest -> match_frac rest = ([], rest).
Proof.
  intros [|c r] H; [reflexivity|]. destruct H as (_ & H & _).
  unfold match_frac. apply N.eqb_neq in H. rewrite H. reflexivity.
Qed.

Lemma match_exp_ends : forall rest : str,
  number_ends rest -> match_exp rest = ([], rest).
Proof.
  intros [|c r] H; [reflexivity|]. destruct H as (_ & _ & H1 & H2).
  unfold match_exp. apply N.eqb_neq in H1, H2. rewrite H1, H2. reflexivity.
Qed.

Lemma str_of_N_head : forall n : N,
  exists c t, str_of_N n = c :: t /\ is_digit c = true.
Proof.
  intros n.
  pose proof (digits_fuel_digits (S (N.to_nat (N.log2 n))) n []
                (Forall_nil _)) as Hds.
  fold (str_of_N n) in Hds.
  destruct (str_of_N n) as [|c t] eqn:E.
  - exfalso. pose proof (N_of_digits_str n) as H. rewrite E in H.
    destruct (N.eq_dec n 0) as [->|Hn]; [discriminate E|].
    apply Hn. rewrite <- H. reflexivity.
  - inversion Hds; subst. eauto.
Qed.

Lemma match_number_str : forall (z : Z) (rest : str),
  number_ends rest ->
  match_number (str_of_Z z ++ rest) = Some (PInt z, rest).
Proof.
  intros z rest Hr.
  assert (Hpos : forall n : N,
             match_number (str_of_N n ++ rest)
             = Some (PInt (Z.of_N n), rest)).
  { intros n. destruct (str_of_N_head n) as (c & t & Hc & Hd).
    unfold match_number.
    assert (E : (c =? 45) = false).
    { unfold is_digit in Hd. apply andb_true_iff in Hd.
      destruct Hd as [Hd _]. apply N.leb_le in Hd. apply N.eqb_neq. lia. }
    pose proof (match_int_part_str n rest Hr) as Hip.
    pose proof (N_of_digits_str n) as Hv.
    rewrite Hc in Hip, Hv |- *. cbn [app] in *. rewrite E, Hip.
    rewrite (match_frac_ends rest Hr), (match_exp_ends rest Hr).
    rewrite Hv. reflexivity. }
  destruct z as [|p|p].
  - exact (Hpos 0).
  - exact (Hpos (Npos p)).
  - unfold str_of_Z. cbn [app]. unfold match_number.
    change (45 =? 45) with true. cbv iota.
    rewrite (match_int_part_str (Npos p) rest Hr).
    rewrite (match_frac_ends rest Hr), (match_exp_ends rest Hr).
    rewrite N_of_digits_str. reflexivity.
Qed.

Lemma str_of_Z_head : forall z : Z,
  exists c t, str_of_Z z = c :: t /\ (c = 45 \/ is_digit c = true).
Proof.
  intros [|p|p].
  - destruct (str_of_N_head 0) as (c & t & H & Hd). eauto.
  - destruct (str_of_N_head (Npos p)) as (c & t & H & Hd). eauto.
  - exists 45, (str_of_N (Npos p)). split; [reflexivity | left; reflexivity].
Qed.

(** A text that begins as a number and holds one is scanned as that
    number. *)
Lemma scan_once_number :
  forall (f : nat) (c : N) (s : str) (v : pyval) (rest : str),
  c = 45 \/ is_digit c = true ->
  match_number (c :: s) = Some (v, rest) ->
  scan_once (S f) (c :: s) = Scanned v rest.
Proof.
  intros f c s v rest Hc Hn.
  assert (R : c = 45 \/ (48 <= c <= 57)).
  { destruct Hc as [->|Hd]; [left; reflexivity|]. right.
    unfold is_digit in Hd. apply andb_true_iff in Hd.
    rewrite !N.leb_le in Hd. exact Hd. }
  cbn [scan_once].
  assert (E1 : (c =? 34) = false) by (apply N.eqb_neq; lia).
  assert (E2 : (c =? 123) = false) by (apply N.eqb_neq; lia).
  assert (E3 : (c =? 91) = false) by (apply N.eqb_neq; lia).
  assert (E4 : (c =? 110) = false) by (apply N.eqb_neq; lia).
  assert (E5 : (c =? 116) = false) by (apply N.eqb_neq; lia).
  assert (E6 : (c =? 102) = false) by (apply N.eqb_neq; lia).
  rewrite E1, E2, E3, E4, E5, E6. cbn [andb]. rewrite Hn. reflexivity.
Qed.

Section ReadBackScalars.
Context {env : PyEnv}.

Lemma read_back_int : forall z : Z, read_back env 1 (PInt z).
Proof.
  intros z f rest Hf Hr. cbn [json_dumps].
  destruct f as [|f]; [lia|].
  destruct (str_of_Z_head z) as (c & t & Hz & Hc).
  pose proof (match_number_str z rest Hr) as Hn.
  rewrite Hz in *. cbn [app] in *.
  exact (scan_once_number f c _ _ _ Hc Hn).
Qed.

Lemma read_back_literals :
  read_back env 1 PNone /\ read_back env 1 (PBool true)
  /\ read_back env 1 (PBool false).
Proof.
  repeat split; intros f rest Hf Hr; (destruct f as [|f]; [lia|]);
    reflexivity.
Qed.

End ReadBackScalars.


(** *** Texts *)

Lemma land_disjoint : forall a r n : N,
  r < 2 ^ n -> N.land (a * 2 ^ n) r = 0.
Proof.
  intros a r n H. apply N.bits_inj_0. intros m. rewrite N.land_spec.
  destruct (N.lt_ge_cases m n) as [L|G].
  - rewrite (N.mul_pow2_bits_low a n m L). reflexivity.
  - assert (E : N.testbit r m = false).
    { destruct (N.eq_dec r 0) as [->|Hr]; [apply N.bits_0|].
      apply N.bits_above_log2. apply N.log2_lt_pow2; [lia|].
      apply N.lt_le_trans with (2 ^ n); [exact H|].
      apply N.pow_le_mono_r; [discriminate | exact G]. }
    rewrite E. apply andb_false_r.
Qed.

Lemma lor_disjoint : forall a r n : N,
  r < 2 ^ n -> N.lor (a * 2 ^ n) r = a * 2 ^ n + r.
Proof.
  intros a r n H. pose proof (land_disjoint a r n H) as L.
  rewrite (N.add_nocarry_lxor _ _ L). symmetry. apply N.lxor_lor. exact L.
Qed.

(** The surrogate pair that [json.dumps] writes for a code point above
    the basic plane, and the code point that [json.loads] joins it to. *)
Lemma surrogate_pair : forall v : N,
  v < 0x100000 ->
  N.lor 0xD800 (N.land (N.shiftr v 10) 0x3FF) = 0xD800 + v / 1024 /\
  N.lor 0xDC00 (N.land v 0x3FF) = 0xDC00 + v mod 1024 /\
  join_surrogates (0xD800 + v / 1024) (0xDC00 + v mod 1024) = 0x10000 + v.
Proof.
  intros v Hv.
  pose proof (N.div_mod v 1024 ltac:(discriminate)) as Hdm.
  pose proof (N.mod_lt v 1024 ltac:(discriminate)) as Hm.
  assert (Hq : v / 1024 < 1024).
  { apply N.Div0.div_lt_upper_bound. exact Hv. }
  change 0x3FF with (N.ones 10). rewrite !N.land_ones, N.shiftr_div_pow2.
  change (2 ^ 10) with 1024. rewrite (N.mod_small _ _ Hq).
  split; [|split].
  - change 0xD800 with (54 * 2 ^ 10). apply lor_disjoint. exact Hq.
  - change 0xDC00 with (55 * 2 ^ 10). apply lor_disjoint. exact Hm.
  - unfold join_surrogates.
    replace (0xD800 + v / 1024 - 0xD800) with (v / 1024)
      by (symmetry; rewrite N.add_comm; apply N.add_sub).
    replace (0xDC00 + v mod 1024 - 0xDC00) with (v mod 1024)
      by (symmetry; rewrite N.add_comm; apply N.add_sub).
    rewrite N.shiftl_mul_pow2, (lor_disjoint _ _ 10 Hm).
    change (2 ^ 10) with 1024. f_equal. lia.
Qed.

Lemma hex_value_digit : forall n : N,
  n < 16 -> hex_value (hex_digit n) = Some n.
Proof.
  intros n Hn. unfold hex_value, hex_digit.
  destruct (n <? 10) eqn:E.
  - apply N.ltb_lt in E.
    assert (B : (48 <=? 48 + n) && (48 + n <=? 57) = true).
    { apply andb_true_iff. split; apply N.leb_le; lia. }
    rewrite B. f_equal. lia.
  - apply N.ltb_ge in E.
    assert (B1 : (48 <=? 87 + n) && (87 + n <=? 57) = false).
    { apply andb_false_iff. right. apply N.leb_gt. lia. }
    assert (B2 : (97 <=? 87 + n) && (87 + n <=? 102) = true).
    { apply andb_true_iff. split; apply N.leb_le; lia. }
    rewrite B1, B2. f_equal. lia.
Qed.

Lemma hex_fixed_value : forall u : N,
  u < 65536 ->
  16 * (16 * (16 * (16 * 0 + (u / 16 / 16 / 16) mod 16)
              + (u / 16 / 16) mod 16)
        + (u / 16) mod 16)
  + u mod 16 = u.
Proof.
  intros u Hu.
  parts_of u 16. parts_of (u / 16) 16. parts_of (u / 16 / 16) 16.
  parts_of (u / 16 / 16 / 16) 16.
  assert (u / 16 / 16 / 16 / 16 = 0).
  { rewrite !N.Div0.div_div. apply N.div_small. exact Hu. }
  hide_parts. lia.
Qed.

Lemma hex_fixed_4 : forall u : N,
  hex_fixed 4 u =
    [ hex_digit ((u / 16 / 16 / 16) mod 16); hex_digit ((u / 16 / 16) mod 16);
      hex_digit ((u / 16) mod 16); hex_digit (u mod 16) ].
Proof. reflexivity. Qed.

Ltac hex_steps :=
  repeat (cbn [scan_chars scan_step app];
          rewrite hex_value_digit by (apply N.mod_lt; discriminate)).

(** The four digits of a [\uXXXX] escape are read as the number they
    were written for. *)
Lemma scan_chars_hex : forall (u : N) (t acc : str),
  u < 65536 ->
  scan_chars (Hex 4 0) (hex_fixed 4 u ++ t) acc =
    if is_high_surrogate u then scan_chars (High u) t acc
    else scan_chars Plain t (u :: acc).
Proof.
  intros u t acc Hu. rewrite hex_fixed_4. hex_steps.
  rewrite (hex_fixed_value u Hu). unfold escaped.
  destruct (is_high_surrogate u); reflexivity.
Qed.

Lemma scan_chars_high_hex : forall (hi u : N) (t acc : str),
  u < 65536 -> is_low_surrogate u = true ->
  scan_chars (HighHex hi 4 0) (hex_fixed 4 u ++ t) acc =
    scan_chars Plain t (join_surrogates hi u :: acc).
Proof.
  intros hi u t acc Hu Hlow. rewrite hex_fixed_4. hex_steps.
  cbv zeta. rewrite (hex_fixed_value u Hu), Hlow. reflexivity.
Qed.

Lemma scan_chars_escape : forall (s acc : str),
  scan_chars Plain (92 :: 117 :: s) acc = scan_chars (Hex 4 0) s acc.
Proof. reflexivity. Qed.

Lemma scan_chars_high_escape : forall (hi : N) (s acc : str),
  scan_chars (High hi) (92 :: 117 :: s) acc
  = scan_chars (HighHex hi 4 0) s acc.
Proof. reflexivity. Qed.

Ltac decide_char :=
  repeat match goal with
         | H : (_ =? _) = true |- _ => apply N.eqb_eq in H
         | H : (_ =? _) = false |- _ => apply N.eqb_neq in H
         | H : (_ <? _) = true |- _ => apply N.ltb_lt in H
         | H : (_ <? _) = false |- _ => apply N.ltb_ge in H
         | H : (_ <=? _) = true |- _ => apply N.leb_le in H
         | H : (_ <=? _) = false |- _ => apply N.leb_gt in H
         | H : _ && _ = true |- _ => apply andb_true_iff in H; destruct H
         | H : _ && _ = false |- _ => apply andb_false_iff in H
         end.

(** One code point, as [json.dumps] writes it, is read as itself. *)
Lemma scan_chars_dumped : forall (c : N) (t acc : str),
  is_scalar c ->
  scan_chars Plain (dumps_char c ++ t) acc = scan_chars Plain t (c :: acc).
Proof.
  intros c t acc [Hmax Hsur]. unfold dumps_char.
  destruct (c =? 34) eqn:E1; [apply N.eqb_eq in E1; subst; reflexivity|].
  destruct (c =? 92) eqn:E2; [apply N.eqb_eq in E2; subst; reflexivity|].
  destruct (c =? 10) eqn:E3; [apply N.eqb_eq in E3; subst; reflexivity|].
  destruct (c =? 13) eqn:E4; [apply N.eqb_eq in E4; subst; reflexivity|].
  destruct (c =? 9) eqn:E5; [apply N.eqb_eq in E5; subst; reflexivity|].
  destruct (c =? 12) eqn:E6; [apply N.eqb_eq in E6; subst; reflexivity|].
  destruct (c =? 8) eqn:E7; [apply N.eqb_eq in E7; subst; reflexivity|].
  destruct ((32 <=? c) && (c <=? 126)) eqn:E8.
  - cbn [app scan_chars scan_step]. unfold plain_step. rewrite E1, E2.
    assert (E : (c <? 32) = false) by (decide_char; apply N.ltb_ge; lia).
    rewrite E. reflexivity.
  - destruct (c <? 0x10000) eqn:E9.
    + apply N.ltb_lt in E9.
      change ((lit "\u" ++ hex_fixed 4 c) ++ t)
        with (92 :: 117 :: hex_fixed 4 c ++ t).
      rewrite scan_chars_escape, (scan_chars_hex c t acc E9).
      assert (E : is_high_surrogate c = false).
      { unfold is_high_surrogate. apply andb_false_iff.
        rewrite !N.leb_gt. lia. }
      rewrite E. reflexivity.
    + apply N.ltb_ge in E9. cbv zeta.
      assert (Hv : c - 0x10000 < 0x100000) by lia.
      destruct (surrogate_pair _ Hv) as (Hhi & Hlo & Hjoin).
      rewrite Hhi, Hlo.
      pose proof (N.mod_lt (c - 0x10000) 1024 ltac:(discriminate)) as Hm.
      assert (Hq : (c - 0x10000) / 1024 < 1024).
      { apply N.Div0.div_lt_upper_bound. exact Hv. }
      remember ((c - 0x10000) / 1024) as q eqn:Eq in *.
      remember ((c - 0x10000) mod 1024) as r eqn:Er in *.
      clear Eq Er.
      set (hi := 0xD800 + q) in *. set (lo := 0xDC00 + r) in *.
      assert (Bhi : 0xD800 <= hi <= 0xDBFF) by (unfold hi; lia).
      assert (Blo : 0xDC00 <= lo <= 0xDFFF) by (unfold lo; lia).
      clearbody hi lo.
      replace ((lit "\u" ++ hex_fixed 4 hi ++ lit "\u" ++ hex_fixed 4 lo) ++ t)
        with (92 :: 117 :: hex_fixed 4 hi ++ 92 :: 117 :: hex_fixed 4 lo ++ t)
        by (cbn [lit List.map list_ascii_of_string app];
            rewrite <- !app_assoc; reflexivity).
      rewrite scan_chars_escape, (scan_chars_hex hi _ acc) by lia.
      assert (Ehi : is_high_surrogate hi = true).
      { unfold is_high_surrogate. apply andb_true_iff.
        rewrite !N.leb_le. lia. }
      rewrite Ehi, scan_chars_high_escape.
      rewrite (scan_chars_high_hex hi lo t acc).
      * rewrite Hjoin. do 2 f_equal. lia.
      * lia.
      * unfold is_low_surrogate. apply andb_true_iff.
        rewrite !N.leb_le. lia.
Qed.

Lemma scan_chars_text : forall (s t acc : str),
  is_text s ->
  scan_chars Plain (flat_map dumps_char s ++ [34] ++ t) acc
  = Some (rev acc ++ s, t).
Proof.
  intros s t acc Hs. revert acc.
  induction Hs as [|c s Hc _ IH]; intros acc.
  - cbn [flat_map app scan_chars scan_step]. unfold plain_step.
    change (34 =? 34) with true. cbv iota. rewrite app_nil_r. reflexivity.
  - cbn [flat_map]. rewrite <- app_assoc.
    rewrite (scan_chars_dumped c _ acc Hc), IH. cbn [rev].
    rewrite <- app_assoc. reflexivity.
Qed.

(** A text, as [json.dumps] writes it, is read back by [scanstring]. *)
Lemma scanstring_dumped : forall s t : str,
  is_text s ->
  scanstring (flat_map dumps_char s ++ [34] ++ t) [] = Some (s, t).
Proof.
  intros s t Hs. unfold scanstring.
  exact (scan_chars_text s t [] Hs).
Qed.


(** *** Lists and objects *)

(** Induction on a value, with the hypothesis for every element of a
    list and every value of a [dict]. *)
Lemma pyval_induction : forall P : pyval -> Prop,
  P PNone -> (forall b, P (PBool b)) -> (forall z, P (PInt z)) ->
  (forall x, P (PFloat x)) -> (forall s, P (PStr s)) ->
  (forall l, Forall P l -> P (PList l)) ->
  (forall d, Forall (fun kv => P (snd kv)) d -> P (PDict d)) ->
  forall v, P v.
Proof.
  intros P HN HB HI HF HS HL HD. fix IH 1. intros [|b|z|x|s|l|d].
  - exact HN.
  - apply HB.
  - apply HI.
  - apply HF.
  - apply HS.
  - apply HL. induction l as [|x l IHl]; constructor; [apply IH | exact IHl].
  - apply HD. induction d as [|[k x] d IHd]; constructor;
      [apply IH | exact IHd].
Qed.

Lemma fold_and_forall : forall (A : Type) (P : A -> Prop) (l : list A),
  fold_right and True (List.map P l) <-> Forall P l.
Proof.
  intros A P l. induction l as [|x l IH]; simpl.
  - split; [constructor | trivial].
  - split.
    + intros [Hx Hl]. constructor; [exact Hx | apply IH; exact Hl].
    + intros H. inversion H; subst. split; [assumption | apply IH; assumption].
Qed.

Lemma dict_set_fresh : forall (d : list (str * pyval)) (k : str) (v : pyval),
  ~ In k (List.map fst d) -> dict_set d k v = d ++ [(k, v)].
Proof.
  induction d as [|[k' w] d IH]; intros k v Hk; [reflexivity|].
  cbn [dict_set app]. cbn [List.map fst In] in Hk.
  assert (E : str_eqb k' k = false).
  { apply str_eqb_neq. intros ->. apply Hk. left. reflexivity. }
  rewrite E, IH; [reflexivity|]. intros H. apply Hk. right. exact H.
Qed.

Lemma dict_of_pairs_from : forall (l acc : list (str * pyval)),
  NoDup (List.map fst (acc ++ l)) ->
  fold_left (fun d kv => dict_set d (fst kv) (snd kv)) l acc = acc ++ l.
Proof.
  induction l as [|[k v] l IH]; intros acc H.
  - rewrite app_nil_r. reflexivity.
  - cbn [fold_left fst snd].
    assert (Hk : ~ In k (List.map fst acc)).
    { rewrite map_app in H. cbn [List.map fst] in H.
      apply NoDup_remove_2 in H. intros K. apply H.
      apply in_or_app. left. exact K. }
    rewrite (dict_set_fresh acc k v Hk).
    rewrite IH; rewrite <- app_assoc; [reflexivity | exact H].
Qed.

(** A [dict] built from pairs with distinct keys holds them as given. *)
Lemma dict_of_pairs_distinct : forall d : list (str * pyval),
  NoDup (List.map fst d) -> dict_of_pairs d = d.
Proof.
  intros d H. unfold dict_of_pairs.
  exact (dict_of_pairs_from d [] H).
Qed.

Lemma skip_ws_keep : forall (c : N) (s : str),
  json_ws c = false -> skip_ws (c :: s) = c :: s.
Proof. intros c s H. unfold skip_ws. simpl. rewrite H. reflexivity. Qed.

Lemma skip_ws_blank : forall s : str, skip_ws (32 :: s) = skip_ws s.
Proof. reflexivity. Qed.

Lemma scanned_not_bracket :
  forall (f : nat) (s : str) (v : pyval) (rest : str),
  scan_once f (93 :: s) <> Scanned v rest.
Proof.
  intros [|f] s v rest; [discriminate|].
  cbn [scan_once]. change (93 =? 34) with false.
  change (93 =? 123) with false. change (93 =? 91) with false.
  change (93 =? 110) with false. change (93 =? 116) with false.
  change (93 =? 102) with false. change (93 =? 78) with false.
  change (93 =? 73) with false. change (93 =? 45) with false.
  cbn [andb]. cbv iota. discriminate.
Qed.

Section ReadBack.
Context {env : PyEnv}.

Lemma read_back_more : forall (f f' : nat) (v : pyval),
  read_back env f v -> (f <= f')%nat -> read_back env f' v.
Proof.
  intros f f' v H Hf g rest Hg Hr. apply H; [lia | exact Hr].
Qed.

Lemma common_fuel : forall (A : Type) (val : A -> pyval) (l : list A),
  Forall (fun x => exists f, read_back env f (val x)) l ->
  exists f, Forall (fun x => read_back env f (val x)) l.
Proof.
  intros A val l H. induction H as [|x l [f Hx] _ [g Hl]].
  - exists O. constructor.
  - exists (Nat.max f g). constructor.
    + apply (read_back_more f); [exact Hx | lia].
    + eapply Forall_impl; [|exact Hl]. intros y Hy.
      apply (read_back_more g); [exact Hy | lia].
Qed.

Lemma skip_ws_dumped : forall (f : nat) (v : pyval) (rest : str),
  read_back env f v -> number_ends rest ->
  skip_ws (json_dumps v ++ rest) = json_dumps v ++ rest.
Proof.
  intros f v rest H Hr.
  exact (proj1 (skip_ws_of_value _ f v rest (H f rest (le_n f) Hr))).
Qed.

Lemma read_back_text : forall s : str, is_text s -> read_back env 1 (PStr s).
Proof.
  intros s Hs f rest Hf _. destruct f as [|f]; [lia|].
  cbn [json_dumps]. unfold dumps_str.
  change (([34] ++ flat_map dumps_char s ++ [34]) ++ rest)
    with (34 :: (flat_map dumps_char s ++ [34]) ++ rest).
  rewrite <- app_assoc. cbn [scan_once]. change (34 =? 34) with true.
  cbv iota. rewrite (scanstring_dumped s rest Hs). reflexivity.
Qed.

Lemma number_ends_elements : forall (l : list pyval) (rest : str),
  number_ends (elements_tail env l rest).
Proof. intros [|x l] rest; simpl; repeat split; discriminate. Qed.

Lemma number_ends_items : forall (d : list (str * pyval)) (rest : str),
  number_ends (items_tail env d rest).
Proof. intros [|[k v] d] rest; simpl; repeat split; discriminate. Qed.

(** The text of a list after its opening bracket. *)
Lemma dumped_elements : forall (x : pyval) (l : list pyval) (rest : str),
  join (lit ", ") (List.map json_dumps (x :: l)) ++ [93] ++ rest
  = json_dumps x ++ elements_tail env l rest.
Proof.
  intros x l. revert x. induction l as [|y l IH]; intros x rest.
  - reflexivity.
  - change (join (lit ", ") (List.map json_dumps (x :: y :: l)))
      with (json_dumps x ++ [44; 32]
            ++ join (lit ", ") (List.map json_dumps (y :: l))).
    rewrite <- !app_assoc, IH. reflexivity.
Qed.

(** The text of an object after its opening brace. *)
Lemma dumped_items :
  forall (k : str) (v : pyval) (d : list (str * pyval)) (rest : str),
  join (lit ", ")
    (List.map (fun kv => dumps_str (fst kv) ++ lit ": " ++ json_dumps (snd kv))
       ((k, v) :: d)) ++ [125] ++ rest
  = [34] ++ flat_map dumps_char k ++ [34; 58; 32] ++ json_dumps v
    ++ items_tail env d rest.
Proof.
  intros k v d. revert k v. induction d as [|[k2 v2] d IH]; intros k v rest.
  - cbn [List.map join fst snd items_tail]. unfold dumps_str.
    change (lit ": ") with [58; 32]. rewrite <- !app_assoc. reflexivity.
  - change (join (lit ", ")
              (List.map (fun kv => dumps_str (fst kv) ++ lit ": "
                                   ++ json_dumps (snd kv))
                 ((k, v) :: (k2, v2) :: d)))
      with ((dumps_str k ++ lit ": " ++ json_dumps v) ++ [44; 32]
            ++ join (lit ", ")
                 (List.map (fun kv => dumps_str (fst kv) ++ lit ": "
                                      ++ json_dumps (snd kv))
                    ((k2, v2) :: d))).
    rewrite <- !app_assoc. rewrite (IH k2 v2 rest).
    unfold dumps_str. cbn [items_tail].
    change (lit ": ") with [58; 32]. rewrite <- !app_assoc. reflexivity.
Qed.

(** The loop of [JSONArray] on the elements that [json.dumps] wrote. *)
Lemma array_items_dumped : forall (f0 : nat) (l : list pyval) (x : pyval),
  read_back env f0 x -> Forall (read_back env f0) l ->
  forall (f : nat) (acc : list pyval) (rest : str),
  (f0 + S (length l) <= f)%nat ->
  array_items f (json_dumps x ++ elements_tail env l rest) acc
  = Scanned (PList (acc ++ x :: l)) rest.
Proof.
  intros f0 l. induction l as [|y l IH]; intros x Hx Hl f acc rest Hf;
    (destruct f as [|f]; [lia|]); simpl length in Hf; cbn [array_items];
    rewrite (Hx f _ ltac:(lia) (number_ends_elements _ rest));
    cbv zeta; cbn [elements_tail app].
  - rewrite (skip_ws_keep 93 rest eq_refl). change (93 =? 93) with true.
    reflexivity.
  - inversion Hl as [|y' l' Hy Hl']; subst.
    rewrite (skip_ws_keep 44 _ eq_refl). change (44 =? 93) with false.
    change (44 =? 44) with true. cbv iota. rewrite skip_ws_blank.
    rewrite (skip_ws_dumped f0 y _ Hy (number_ends_elements l rest)).
    rewrite (IH y Hy Hl' f (acc ++ [x]) rest) by lia.
    rewrite <- app_assoc. reflexivity.
Qed.

(** The loop of [JSONObject] on the items that [json.dumps] wrote,
    entered after the opening quote of the first key. *)
Lemma object_members_dumped :
  forall (f0 : nat) (d : list (str * pyval)) (k : str) (v : pyval),
  is_text k -> read_back env f0 v ->
  Forall (fun kv => is_text (fst kv) /\ read_back env f0 (snd kv)) d ->
  forall (f : nat) (pairs : list (str * pyval)) (rest : str),
  (f0 + S (length d) <= f)%nat ->
  object_members f
    (flat_map dumps_char k ++ [34] ++ [58; 32] ++ json_dumps v
     ++ items_tail env d rest) pairs
  = Scanned (PDict (dict_of_pairs (pairs ++ (k, v) :: d))) rest.
Proof.
  intros f0 d. induction d as [|[k2 v2] d IH];
    intros k v Hk Hv Hd f pairs rest Hf;
    (destruct f as [|f]; [lia|]); simpl length in Hf; cbn [object_members];
    rewrite (scanstring_dumped k _ Hk); cbn [app];
    rewrite (skip_ws_keep 58 _ eq_refl); change (58 =? 58) with true;
    cbv iota; rewrite skip_ws_blank;
    rewrite (skip_ws_dumped f0 v _ Hv (number_ends_items _ rest));
    rewrite (Hv f _ ltac:(lia) (number_ends_items _ rest));
    cbv zeta; cbn [items_tail app].
  - rewrite (skip_ws_keep 125 rest eq_refl). change (125 =? 125) with true.
    reflexivity.
  - inversion Hd as [|kv d' [Hk2 Hv2] Hd']; subst. cbn [fst snd] in Hk2, Hv2.
    rewrite (skip_ws_keep 44 _ eq_refl). change (44 =? 125) with false.
    change (44 =? 44) with true. cbv iota.
    rewrite skip_ws_blank, (skip_ws_keep 34 _ eq_refl).
    change (34 =? 34) with true. cbv iota.
    change (flat_map dumps_char k2
            ++ 34 :: 58 :: 32 :: json_dumps v2 ++ items_tail env d rest)
      with (flat_map dumps_char k2 ++ [34] ++ [58; 32] ++ json_dumps v2
            ++ items_tail env d rest).
    rewrite (IH k2 v2 Hk2 Hv2 Hd' f (pairs ++ [(k, v)]) rest) by lia.
    rewrite <- app_assoc. reflexivity.
Qed.

(** Every plain value is read back from what [json.dumps] writes. *)
Lemma read_back_plain : forall v : pyval,
  plain_value v -> exists f, read_back env f v.
Proof.
  induction v as [|b|z|x|s|l IH|d IH] using pyval_induction; intros Hp.
  - exists 1%nat. apply read_back_literals.
  - exists 1%nat. destruct b; apply read_back_literals.
  - exists 1%nat. apply read_back_int.
  - contradiction.
  - exists 1%nat. apply read_back_text. exact Hp.
  - cbn [plain_value] in Hp. apply fold_and_forall in Hp.
    assert (H : Forall (fun x => exists f, read_back env f x) l).
    { rewrite Forall_forall in *. intros x Hx. apply IH; auto. }
    destruct (common_fuel pyval (fun x => x) l H) as [f0 Hl].
    exists (S (f0 + length l)). intros f rest Hf Hr.
    destruct f as [|f]; [lia|]. cbn [json_dumps].
    change ((lit "[" ++ join (lit ", ") (List.map json_dumps l) ++ lit "]")
            ++ rest)
      with (91 :: (join (lit ", ") (List.map json_dumps l) ++ [93]) ++ rest).
    rewrite <- app_assoc. cbn [scan_once].
    change (91 =? 34) with false. change (91 =? 123) with false.
    change (91 =? 91) with true. cbv iota.
    destruct l as [|x l'].
    + cbn [List.map join app]. rewrite (skip_ws_keep 93 rest eq_refl).
      change (93 =? 93) with true. reflexivity.
    + inversion Hl as [|x' l'' Hx Hl']; subst.
      rewrite dumped_elements.
      rewrite (skip_ws_dumped f0 x _ Hx (number_ends_elements l' rest)).
      pose proof (array_items_dumped f0 l' x Hx Hl' f [] rest
                    ltac:(simpl in Hf; lia)) as Hloop.
      cbn [app] in Hloop.
      pose proof (Hx f0 _ (le_n f0) (number_ends_elements l' rest)) as Hhead.
      destruct (json_dumps x ++ elements_tail env l' rest) as [|c t].
      * exfalso. exact (scan_once_nil_fails f0 _ _ Hhead).
      * destruct (c =? 93) eqn:Ec; [|exact Hloop].
        exfalso. apply N.eqb_eq in Ec. subst c.
        exact (scanned_not_bracket f0 t _ _ Hhead).
  - cbn [plain_value] in Hp. destruct Hp as [Hkeys Hp].
    apply fold_and_forall in Hp.
    assert (H : Forall (fun kv => exists f, read_back env f (snd kv)) d).
    { rewrite Forall_forall in *. intros kv Hkv. apply IH; [exact Hkv|].
      apply (Hp kv Hkv). }
    destruct (common_fuel _ snd d H) as [f0 Hl].
    assert (Hd : Forall (fun kv => is_text (fst kv)
                                   /\ read_back env f0 (snd kv)) d).
    { rewrite Forall_forall in *. intros kv Hkv. split.
      - apply (Hp kv Hkv).
      - apply Hl. exact Hkv. }
    exists (S (f0 + length d)). intros f rest Hf Hr.
    destruct f as [|f]; [lia|]. cbn [json_dumps].
    set (items := List.map (fun kv => dumps_str (fst kv) ++ lit ": "
                                      ++ json_dumps (snd kv)) d).
    change ((lit "{" ++ join (lit ", ") items ++ lit "}") ++ rest)
      with (123 :: (join (lit ", ") items ++ [125]) ++ rest).
    rewrite <- app_assoc. cbn [scan_once].
    change (123 =? 34) with false. change (123 =? 123) with true. cbv iota.
    destruct d as [|[k v] d'].
    + unfold items. cbn [List.map join app].
      rewrite (skip_ws_keep 125 rest eq_refl).
      change (125 =? 125) with true. reflexivity.
    + inversion Hd as [|kv0 d0 [Hk Hv] Hd']; subst.
      cbn [fst snd] in Hk, Hv.
      unfold items. rewrite dumped_items. cbn [app].
      rewrite (skip_ws_keep 34 _ eq_refl).
      change (34 =? 125) with false. change (34 =? 34) with true. cbv iota.
      pose proof (object_members_dumped f0 d' k v Hk Hv Hd' f [] rest
                    ltac:(simpl in Hf; lia)) as Hloop.
      cbn [app] in Hloop. rewrite (dict_of_pairs_distinct _ Hkeys) in Hloop.
      exact Hloop.
Qed.

(** [json.loads(json.dumps(v))] is [v], for every plain value. *)
Lemma loads_dumps : forall v : pyval,
  plain_value v -> json_loads (json_dumps v) = Some v.
Proof.
  intros v Hp. destruct (read_back_plain v Hp) as [f0 Hv].
  set (y := json_dumps v).
  assert (Hscan : forall f, (f0 <= f)%nat -> scan_once f y = Scanned v []).
  { intros f Hf. rewrite <- (app_nil_r y). apply Hv; [exact Hf | exact I]. }
  destruct (skip_ws_of_value y f0 v [] (Hscan f0 (le_n f0))) as [Hskip Hbom].
  assert (Hfuel : scan_once (json_fuel y) y = Scanned v []).
  { pose proof (json_loads_fuel y) as Hne. rewrite Hskip in Hne.
    rewrite <- (scan_fuel_more f0 (json_fuel y) y Hne).
    apply Hscan. lia. }
  unfold json_loads. rewrite Hbom, Hskip, Hfuel. reflexivity.
Qed.

End ReadBack.


(** ** An envelope without a text part *)

Section SerialisedEnvelope.
Context {env : PyEnv}.

(** When the envelope is serialised again to stand for the text (line
    172), the normaliser reads the envelope back: for every plain value
    it works on the value itself, and the fallback wrapper is never
    used. *)
Theorem serialised_envelope_is_read_back : forall data : pyval,
  plain_value data ->
  json_loads (json_dumps data) = Some data /\
  _extract_text_from_gemini (json_dumps data) = data /\
  normalize (json_dumps data) = shape_response data.
Proof.
  intros data Hp. pose proof (loads_dumps data Hp) as Hl.
  assert (E : _extract_text_from_gemini (json_dumps data) = data).
  { apply extract_direct. apply json_loads_strip. exact Hl. }
  split; [exact Hl|]. split; [exact E|].
  unfold normalize. rewrite E. reflexivity.
Qed.

Lemma raw_text_without_candidates : forall d : list (str * pyval),
  lacks_candidates d ->
  raw_text_of (PDict d) = PStr (json_dumps (PDict d)).
Proof.
  intros d [H|H]; unfold raw_text_of; cbn [getitem and_then]; rewrite H;
    reflexivity.
Qed.

Lemma shape_without_fields : forall d : list (str * pyval),
  lacks_fields d -> shape_response (PDict d) = inr (answer_only []).
Proof.
  intros d (Ha & Hi & He & Hl & Hn). rewrite shape_response_dict.
  unfold dict_get. rewrite Ha, Hi, He, Hl, Hn. cbn [py_str].
  exact (new_response_of_texts [] [] [] [] []).
Qed.

(** A provider that answers 200 without any candidate (a refused prompt)
    is not reported as a provider failure: whatever the envelope holds,
    it is serialised and normalised in place of the text, the request
    never ends in an [HTTPException], and the response is built from
    whatever value [json.loads] reads back from the serialised envelope.
    For a plain envelope that value is the envelope itself, so the
    fallback wrapper is not used, and when the envelope holds none of
    the five keys the caller gets a 200 whose answer and other fields
    are all empty. *)
Theorem reply_without_candidates :
  forall (cfg : Config) (world : World) (payload : AnalyzeRequest)
         (req : Request) (img g : Response) (d : list (str * pyval)),
  _check_api_key cfg req = inr tt ->
  GEMINI_API_KEY cfg <> [] ->
  http_get world (downloadUrl payload) = Returned img ->
  status_code img = 200%Z ->
  http_post world (gemini_url cfg) (provider_request env payload img)
    = Returned g ->
  status_code g = 200%Z ->
  json_body g = Some (PDict d) ->
  lacks_candidates d ->
  let result := snd (analyze_onedrive_image cfg world payload req) in
  result = normalize (json_dumps (PDict d)) /\
  (forall (status : Z) (detail : str),
     result <> inl (HTTPException status detail)) /\
  (forall v : pyval,
     json_loads (json_dumps (PDict d)) = Some v ->
     result = shape_response v) /\
  (plain_value (PDict d) -> result = shape_response (PDict d)) /\
  (plain_value (PDict d) -> lacks_fields d ->
   result = inr (answer_only []) /\ caller_status result = 200%Z).
Proof.
  intros cfg world payload req img g d Ha Hk Hget Hi Hpost Hg Hd Hc.
  cbv zeta.
  assert (E : snd (analyze_onedrive_image cfg world payload req)
              = normalize (json_dumps (PDict d))).
  { rewrite analyze_run, Ha. apply str_eqb_neq in Hk. rewrite Hk.
    cbv zeta. rewrite Hget. apply Z.eqb_eq in Hi. rewrite Hi.
    rewrite Hpost. cbn [snd post_result]. unfold reply_result.
    apply Z.eqb_eq in Hg. rewrite Hg, Hd.
    rewrite (raw_text_without_candidates d Hc). reflexivity. }
  assert (L : forall v : pyval,
            json_loads (json_dumps (PDict d)) = Some v ->
            snd (analyze_onedrive_image cfg world payload req)
            = shape_response v).
  { intros v Hv. rewrite E. unfold normalize. f_equal.
    apply extract_direct, json_loads_strip. exact Hv. }
  assert (P : plain_value (PDict d) ->
              snd (analyze_onedrive_image cfg world payload req)
              = shape_response (PDict d)).
  { intros Hp. apply L, loads_dumps. exact Hp. }
  split; [exact E|]. split; [|split; [exact L|split; [exact P|]]].
  - intros status detail. rewrite E.
    destruct (normalize_outcomes (json_dumps (PDict d))) as [[r H]|[H|H]];
      rewrite H; discriminate.
  - intros Hp Hf. rewrite (P Hp), (shape_without_fields d Hf).
    split; reflexivity.
Qed.

End SerialisedEnvelope.

Lemma plain_blocked_envelope : plain_value (PDict blocked_envelope).
Proof.
  cbn [plain_value blocked_envelope List.map fold_right fst snd].
  split.
  - constructor; [intros [H|[]]; discriminate H|].
    constructor; [intros []|constructor].
  - unfold is_text, is_scalar. repeat split;
      repeat (apply Forall_cons; [split; [reflexivity|intros [K _]; contradiction K; reflexivity]|]);
      try apply Forall_nil; try (constructor; [intros []|constructor]).
Qed.

Lemma serialised_envelope_is_read_back_witness :
  plain_value (PDict blocked_envelope) /\
  @normalize sample_env (@json_dumps sample_env (PDict blocked_envelope))
  = inr (answer_only []).
Proof.
  split; [exact plain_blocked_envelope|].
  rewrite (proj2 (proj2 (@serialised_envelope_is_read_back sample_env
                           (PDict blocked_envelope) plain_blocked_envelope))).
  apply shape_without_fields. repeat split.
Defined.

Lemma reply_without_candidates_witness :
  lacks_candidates blocked_envelope /\ lacks_fields blocked_envelope /\
  plain_value (PDict blocked_envelope) /\
  snd (@analyze_onedrive_image sample_env sample_cfg world_with_blocked_prompt
         sample_payload good_request)
  = inr (answer_only []) /\
  caller_status
    (snd (@analyze_onedrive_image sample_env sample_cfg
            world_with_blocked_prompt sample_payload good_request))
  = 200%Z.
Proof.
  assert (Hc : lacks_candidates blocked_envelope) by (left; reflexivity).
  assert (Hf : lacks_fields blocked_envelope) by (repeat split).
  split; [exact Hc|]. split; [exact Hf|].
  split; [exact plain_blocked_envelope|].
  apply (proj2 (proj2 (proj2 (proj2
           (@reply_without_candidates sample_env sample_cfg
              world_with_blocked_prompt sample_payload good_request
              image_found blocked_reply blocked_envelope
              eq_refl ltac:(discriminate) eq_refl eq_refl eq_refl eq_refl
              eq_refl Hc))))).
  - exact plain_blocked_envelope.
  - exact Hf.
Defined.
